(** * Token lifecycle and authorization coordinator of mcp-claude-spotify

    A shallow embedding of the token store, the token manager, the
    authenticated request executor and the authorization server start-up of
    [src/build/index.js] (module [Build]) and of [src/index.ts] (module
    [Src]), with the properties of the design document settled against
    them. *)

From Stdlib Require Import ZArith List String Ascii Bool Lia.
From Stdlib Require Import DecimalZ DecimalPos DecimalFacts.
Import ListNotations.
Local Open Scope string_scope.
Local Open Scope Z_scope.
Set Warnings "-register-all".

(* ===================================================================== *)
(** * The JavaScript platform, as far as the token code uses it *)
(* ===================================================================== *)

(** Strings are sequences of code units, restricted to the units below 256.
    Numbers are the integers: the token code only stores millisecond
    timestamps, which are integral and far below 2^53. *)
Module JS.

(** ** Characters *)

Definition dquote : ascii := "034"%char.
Definition backslash : ascii := "092"%char.
Definition LF : ascii := "010"%char.

Definition code (c : ascii) : N := N_of_ascii c.

(** [String.prototype.trim] strips WhiteSpace and LineTerminator code
    points; below 256 these are TAB, LF, VT, FF, CR, SP and NBSP. *)
Definition is_trim_space (c : ascii) : bool :=
  let n := code c in
  ((9 <=? n) && (n <=? 13) || (n =? 32) || (n =? 160))%N.

Fixpoint trimStart (s : string) : string :=
  match s with
  | String c r => if is_trim_space c then trimStart r else s
  | EmptyString => EmptyString
  end.

(** [trimEnd] keeps a character when a later character is kept. *)
Fixpoint trimEnd (s : string) : string :=
  match s with
  | String c r =>
      match trimEnd r with
      | EmptyString => if is_trim_space c then EmptyString else String c EmptyString
      | r' => String c r'
      end
  | EmptyString => EmptyString
  end.

Definition trim (s : string) : string := trimEnd (trimStart s).

(** ** JSON values *)

Inductive json : Type :=
| JNull
| JBool (b : bool)
| JNum (z : Z)
| JStr (s : string)
| JArr (items : list json)
| JObj (members : list (string * json)).

(** A JavaScript value read out of a parsed document: [None] is
    [undefined]. *)
Definition jsval : Type := option json.

(** ToBoolean. *)
Definition truthy (v : jsval) : bool :=
  match v with
  | None => false
  | Some JNull => false
  | Some (JBool b) => b
  | Some (JNum z) => negb (z =? 0)
  | Some (JStr s) => negb (String.eqb s "")
  | Some (JArr _) => true
  | Some (JObj _) => true
  end.

(** Own property lookup in a parsed object: when a key occurs twice the
    later member wins. *)
Fixpoint lookup (k : string) (ms : list (string * json)) : jsval :=
  match ms with
  | [] => None
  | (k', v) :: rest =>
      match lookup k rest with
      | Some v' => Some v'
      | None => if String.eqb k k' then Some v else None
      end
  end.

(** ** [JSON.stringify(value, null, 2)] *)

Definition hex_digit (n : N) : ascii :=
  if (n <? 10)%N then ascii_of_N (48 + n) else ascii_of_N (87 + n).

(** QuoteJSONString, one code unit. *)
Definition quote_char (c : ascii) : string :=
  let n := code c in
  if (n =? 34)%N then String backslash (String dquote EmptyString)
  else if (n =? 92)%N then String backslash (String backslash EmptyString)
  else if (n =? 8)%N then String backslash "b"
  else if (n =? 9)%N then String backslash "t"
  else if (n =? 10)%N then String backslash "n"
  else if (n =? 12)%N then String backslash "f"
  else if (n =? 13)%N then String backslash "r"
  else if (n <? 32)%N then
    String backslash
      (String "u" (String "0" (String "0"
        (String (hex_digit (n / 16)) (String (hex_digit (n mod 16)) EmptyString)))))
  else String c EmptyString.

Fixpoint quote_body (s : string) : string :=
  match s with
  | String c r => quote_char c ++ quote_body r
  | EmptyString => EmptyString
  end.

Definition quote (s : string) : string :=
  String dquote (quote_body s ++ String dquote EmptyString).

Fixpoint digits (u : Decimal.uint) : string :=
  match u with
  | Decimal.Nil => EmptyString
  | Decimal.D0 r => String "0" (digits r)
  | Decimal.D1 r => String "1" (digits r)
  | Decimal.D2 r => String "2" (digits r)
  | Decimal.D3 r => String "3" (digits r)
  | Decimal.D4 r => String "4" (digits r)
  | Decimal.D5 r => String "5" (digits r)
  | Decimal.D6 r => String "6" (digits r)
  | Decimal.D7 r => String "7" (digits r)
  | Decimal.D8 r => String "8" (digits r)
  | Decimal.D9 r => String "9" (digits r)
  end.

Definition number_to_string (z : Z) : string :=
  match Z.to_int z with
  | Decimal.Pos u => digits u
  | Decimal.Neg u => String "-" (digits u)
  end.

Fixpoint spaces (n : nat) : string :=
  match n with
  | O => EmptyString
  | S n' => String " " (spaces n')
  end.

Definition newline (indent : nat) : string := String LF (spaces indent).

Fixpoint join (sep : string) (parts : list string) : string :=
  match parts with
  | [] => EmptyString
  | [x] => x
  | x :: rest => x ++ sep ++ join sep rest
  end.

(** Members and items are separated by a comma and a line break at the
    inner indentation; an empty array or object has no line break. *)
Fixpoint stringify_at (indent : nat) (v : json) : string :=
  match v with
  | JNull => "null"
  | JBool true => "true"
  | JBool false => "false"
  | JNum z => number_to_string z
  | JStr s => quote s
  | JArr [] => "[]"
  | JArr items =>
      "[" ++ newline (indent + 2)
      ++ join ("," ++ newline (indent + 2))
              (List.map (stringify_at (indent + 2)) items)
      ++ newline indent ++ "]"
  | JObj [] => "{}"
  | JObj members =>
      "{" ++ newline (indent + 2)
      ++ join ("," ++ newline (indent + 2))
              (List.map (fun m => quote (fst m) ++ ": " ++ stringify_at (indent + 2) (snd m))
                        members)
      ++ newline indent ++ "}"
  end.

Definition JSON_stringify (v : json) : string := stringify_at 0 v.

(** ** [JSON.parse] *)

(** The parser covers the JSON grammar with integer number literals and
    returns the value that [JSON.parse] returns. It returns [None] on the
    texts on which [JSON.parse] throws a SyntaxError, which [is_json] below
    tells apart, and on the texts whose value lies outside the modelled
    values: those with a number literal that has a fraction or an exponent
    or with a [\u] escape above 255. *)

Definition is_json_space (c : ascii) : bool :=
  let n := code c in
  ((n =? 9) || (n =? 10) || (n =? 13) || (n =? 32))%N.

Fixpoint skip_ws (s : string) : string :=
  match s with
  | String c r => if is_json_space c then skip_ws r else s
  | EmptyString => EmptyString
  end.

Definition digit_of (c : ascii) : option (Decimal.uint -> Decimal.uint) :=
  let n := code c in
  if (n =? 48)%N then Some Decimal.D0
  else if (n =? 49)%N then Some Decimal.D1
  else if (n =? 50)%N then Some Decimal.D2
  else if (n =? 51)%N then Some Decimal.D3
  else if (n =? 52)%N then Some Decimal.D4
  else if (n =? 53)%N then Some Decimal.D5
  else if (n =? 54)%N then Some Decimal.D6
  else if (n =? 55)%N then Some Decimal.D7
  else if (n =? 56)%N then Some Decimal.D8
  else if (n =? 57)%N then Some Decimal.D9
  else None.

Fixpoint scan_digits (s : string) : Decimal.uint * string :=
  match s with
  | String c r =>
      match digit_of c with
      | Some d => let (u, rest) := scan_digits r in (d u, rest)
      | None => (Decimal.Nil, s)
      end
  | EmptyString => (Decimal.Nil, s)
  end.

(** After the digits of the integer part: a fraction or an exponent. *)
Definition starts_fraction (s : string) : bool :=
  match s with
  | String c _ => ((code c =? 46) || (code c =? 101) || (code c =? 69))%N
  | EmptyString => false
  end.

Definition parse_magnitude (s : string) : option (Decimal.uint * string) :=
  match scan_digits s with
  | (Decimal.Nil, _) => None
  | (Decimal.D0 Decimal.Nil, rest) =>
      if starts_fraction rest then None else Some (Decimal.D0 Decimal.Nil, rest)
  | (Decimal.D0 _, _) => None
  | (u, rest) => if starts_fraction rest then None else Some (u, rest)
  end.

Definition parse_number (s : string) : option (Z * string) :=
  match s with
  | String c r =>
      if (code c =? 45)%N then
        match parse_magnitude r with
        | Some (u, rest) => Some (Z.of_int (Decimal.Neg u), rest)
        | None => None
        end
      else
        match parse_magnitude s with
        | Some (u, rest) => Some (Z.of_int (Decimal.Pos u), rest)
        | None => None
        end
  | EmptyString => None
  end.

Definition hex_value (c : ascii) : option N :=
  let n := code c in
  if ((48 <=? n) && (n <=? 57))%N then Some (n - 48)%N
  else if ((97 <=? n) && (n <=? 102))%N then Some (n - 87)%N
  else if ((65 <=? n) && (n <=? 70))%N then Some (n - 55)%N
  else None.

Definition unicode_escape (h1 h2 h3 h4 : ascii) : option ascii :=
  match hex_value h1, hex_value h2, hex_value h3, hex_value h4 with
  | Some a, Some b, Some c, Some d =>
      if ((a =? 0) && (b =? 0))%N then Some (ascii_of_N (c * 16 + d)) else None
  | _, _, _, _ => None
  end.

Definition simple_escape (c : ascii) : option ascii :=
  let n := code c in
  if (n =? 34)%N then Some dquote
  else if (n =? 92)%N then Some backslash
  else if (n =? 47)%N then Some "/"%char
  else if (n =? 98)%N then Some "008"%char
  else if (n =? 102)%N then Some "012"%char
  else if (n =? 110)%N then Some "010"%char
  else if (n =? 114)%N then Some "013"%char
  else if (n =? 116)%N then Some "009"%char
  else None.

Definition cons_char (c : ascii) (r : option (string * string)) : option (string * string) :=
  match r with
  | Some (s, rest) => Some (String c s, rest)
  | None => None
  end.

(** The characters of a string literal, after its opening quote. *)
Fixpoint parse_chars (s : string) : option (string * string) :=
  match s with
  | EmptyString => None
  | String c r =>
      if (code c =? 34)%N then Some (EmptyString, r)
      else if (code c =? 92)%N then
        match r with
        | EmptyString => None
        | String e r' =>
            if (code e =? 117)%N then
              match r' with
              | String h1 (String h2 (String h3 (String h4 r''))) =>
                  match unicode_escape h1 h2 h3 h4 with
                  | Some u => cons_char u (parse_chars r'')
                  | None => None
                  end
              | _ => None
              end
            else
              match simple_escape e with
              | Some u => cons_char u (parse_chars r')
              | None => None
              end
        end
      else if (code c <? 32)%N then None
      else cons_char c (parse_chars r)
  end.

Fixpoint expect (lit s : string) : option string :=
  match lit with
  | EmptyString => Some s
  | String c lit' =>
      match s with
      | String d r => if Ascii.eqb c d then expect lit' r else None
      | EmptyString => None
      end
  end.

Definition head_is (c : ascii) (s : string) : bool :=
  match s with
  | String d _ => Ascii.eqb c d
  | EmptyString => false
  end.

Definition tail (s : string) : string :=
  match s with
  | String _ r => r
  | EmptyString => EmptyString
  end.

Fixpoint parse_value (fuel : nat) (s : string) : option (json * string) :=
  match fuel with
  | O => None
  | S f =>
      let t := skip_ws s in
      if head_is dquote t then
        match parse_chars (tail t) with
        | Some (str, rest) => Some (JStr str, rest)
        | None => None
        end
      else if head_is "[" t then
        if head_is "]" (skip_ws (tail t)) then Some (JArr [], tail (skip_ws (tail t)))
        else
          match parse_items f (tail t) with
          | Some (xs, rest) => Some (JArr xs, rest)
          | None => None
          end
      else if head_is "{" t then
        if head_is "}" (skip_ws (tail t)) then Some (JObj [], tail (skip_ws (tail t)))
        else
          match parse_members f (tail t) with
          | Some (ms, rest) => Some (JObj ms, rest)
          | None => None
          end
      else if head_is "n" t then
        match expect "null" t with
        | Some rest => Some (JNull, rest)
        | None => None
        end
      else if head_is "t" t then
        match expect "true" t with
        | Some rest => Some (JBool true, rest)
        | None => None
        end
      else if head_is "f" t then
        match expect "false" t with
        | Some rest => Some (JBool false, rest)
        | None => None
        end
      else
        match parse_number t with
        | Some (z, rest) => Some (JNum z, rest)
        | None => None
        end
  end
with parse_items (fuel : nat) (s : string) : option (list json * string) :=
  match fuel with
  | O => None
  | S f =>
      match parse_value f s with
      | Some (x, rest) =>
          let t := skip_ws rest in
          if head_is "," t then
            match parse_items f (tail t) with
            | Some (xs, rest') => Some (x :: xs, rest')
            | None => None
            end
          else if head_is "]" t then Some ([x], tail t)
          else None
      | None => None
      end
  end
with parse_members (fuel : nat) (s : string) : option (list (string * json) * string) :=
  match fuel with
  | O => None
  | S f =>
      let t := skip_ws s in
      if head_is dquote t then
        match parse_chars (tail t) with
        | Some (k, rest) =>
            if head_is ":" (skip_ws rest) then
              match parse_value f (tail (skip_ws rest)) with
              | Some (v, rest') =>
                  let t' := skip_ws rest' in
                  if head_is "," t' then
                    match parse_members f (tail t') with
                    | Some (ms, rest'') => Some ((k, v) :: ms, rest'')
                    | None => None
                    end
                  else if head_is "}" t' then Some ([(k, v)], tail t')
                  else None
              | None => None
              end
            else None
        | None => None
        end
      else None
  end.

Definition JSON_parse (s : string) : option json :=
  match parse_value (S (String.length s)) s with
  | Some (v, rest) =>
      match skip_ws rest with
      | EmptyString => Some v
      | String _ _ => None
      end
  | None => None
  end.

(** ** The texts on which [JSON.parse] throws *)

(** [is_json] recognises the whole JSON grammar, with the number literals
    that have a fraction or an exponent and with every [\u] escape of four
    hexadecimal digits: [JSON.parse] throws a SyntaxError exactly on the
    texts that [is_json] refuses. On a text that [is_json] accepts and
    [JSON_parse] refuses, [JSON.parse] returns a value that lies outside
    the modelled values. *)

Definition skip_int (s : string) : option string :=
  match scan_digits s with
  | (Decimal.Nil, _) => None
  | (Decimal.D0 Decimal.Nil, rest) => Some rest
  | (Decimal.D0 _, _) => None
  | (_, rest) => Some rest
  end.

(** One digit or more. *)
Definition skip_digits (s : string) : option string :=
  match scan_digits s with
  | (Decimal.Nil, _) => None
  | (_, rest) => Some rest
  end.

Definition skip_fraction (s : string) : option string :=
  match s with
  | String c r => if (code c =? 46)%N then skip_digits r else Some s
  | EmptyString => Some s
  end.

Definition skip_sign (s : string) : string :=
  match s with
  | String c r => if ((code c =? 43) || (code c =? 45))%N then r else s
  | EmptyString => s
  end.

Definition skip_exponent (s : string) : option string :=
  match s with
  | String c r =>
      if ((code c =? 101) || (code c =? 69))%N then skip_digits (skip_sign r)
      else Some s
  | EmptyString => Some s
  end.

Definition skip_minus (s : string) : string :=
  match s with
  | String c r => if (code c =? 45)%N then r else s
  | EmptyString => s
  end.

Definition skip_number (s : string) : option string :=
  match skip_int (skip_minus s) with
  | Some rest =>
      match skip_fraction rest with
      | Some rest' => skip_exponent rest'
      | None => None
      end
  | None => None
  end.

Definition is_hex (c : ascii) : bool :=
  match hex_value c with
  | Some _ => true
  | None => false
  end.

(** The characters of a string literal, after its opening quote. *)
Fixpoint skip_chars (s : string) : option string :=
  match s with
  | EmptyString => None
  | String c r =>
      if (code c =? 34)%N then Some r
      else if (code c =? 92)%N then
        match r with
        | EmptyString => None
        | String e r' =>
            if (code e =? 117)%N then
              match r' with
              | String h1 (String h2 (String h3 (String h4 r''))) =>
                  if is_hex h1 && is_hex h2 && is_hex h3 && is_hex h4
                  then skip_chars r'' else None
              | _ => None
              end
            else
              match simple_escape e with
              | Some _ => skip_chars r'
              | None => None
              end
        end
      else if (code c <? 32)%N then None
      else skip_chars r
  end.

Fixpoint skip_value (fuel : nat) (s : string) : option string :=
  match fuel with
  | O => None
  | S f =>
      let t := skip_ws s in
      if head_is dquote t then skip_chars (tail t)
      else if head_is "[" t then
        if head_is "]" (skip_ws (tail t)) then Some (tail (skip_ws (tail t)))
        else skip_items f (tail t)
      else if head_is "{" t then
        if head_is "}" (skip_ws (tail t)) then Some (tail (skip_ws (tail t)))
        else skip_members f (tail t)
      else if head_is "n" t then expect "null" t
      else if head_is "t" t then expect "true" t
      else if head_is "f" t then expect "false" t
      else skip_number t
  end
with skip_items (fuel : nat) (s : string) : option string :=
  match fuel with
  | O => None
  | S f =>
      match skip_value f s with
      | Some rest =>
          let t := skip_ws rest in
          if head_is "," t then skip_items f (tail t)
          else if head_is "]" t then Some (tail t)
          else None
      | None => None
      end
  end
with skip_members (fuel : nat) (s : string) : option string :=
  match fuel with
  | O => None
  | S f =>
      let t := skip_ws s in
      if head_is dquote t then
        match skip_chars (tail t) with
        | Some rest =>
            if head_is ":" (skip_ws rest) then
              match skip_value f (tail (skip_ws rest)) with
              | Some rest' =>
                  let t' := skip_ws rest' in
                  if head_is "," t' then skip_members f (tail t')
                  else if head_is "}" t' then Some (tail t')
                  else None
              | None => None
              end
            else None
        | None => None
        end
      else None
  end.

Definition is_json (s : string) : bool :=
  match skip_value (S (String.length s)) s with
  | Some rest =>
      match skip_ws rest with
      | EmptyString => true
      | String _ _ => false
      end
  | None => false
  end.

(** ** [Date] *)

(** [new Date(t).toISOString()] throws a RangeError when the time value is
    outside the range of [Date], 8.64e15 ms on either side of the epoch. *)
Definition valid_time (t : Z) : bool :=
  (-8640000000000000 <=? t) && (t <=? 8640000000000000).

(** ** Shapes of values and of their text *)

(** What may follow a number literal: no digit, and no fraction or
    exponent. *)
Definition ends_number (rest : string) : Prop :=
  match rest with
  | String c _ => digit_of c = None /\ starts_fraction rest = false
  | EmptyString => True
  end.

(** A value that is not an array or an object. *)
Definition flat (v : json) : Prop :=
  match v with
  | JArr _ | JObj _ => False
  | _ => True
  end.

Definition number_start (c : ascii) : bool :=
  match digit_of c with
  | Some _ => true
  | None => (code c =? 45)%N
  end.

(** The text of one member, and of the separator between members, of an
    object printed at the top level. *)
Definition member_text (m : string * json) : string :=
  quote (fst m) ++ ": " ++ stringify_at 2 (snd m).

Definition separator : string := "," ++ newline 2.

End JS.

(* ===================================================================== *)
(** * Process state, environment and the effect monad *)
(* ===================================================================== *)

Module Runtime.

(** ** Exceptions *)

Inductive exn : Type :=
| SyntaxError
| TypeError
| RangeError
| SystemError (message : string)
| HttpError (message : string) (response : option (Z * JS.json))
| Error (message : string)
| ServerAlreadyRunningError (port : Z).

Definition message_of (e : exn) : string :=
  match e with
  | SyntaxError => "Unexpected token in JSON"
  | TypeError => "Cannot read properties of null"
  | RangeError => "Invalid time value"
  | SystemError m => m
  | HttpError m _ => m
  | Error m => m
  | ServerAlreadyRunningError port =>
      "Server already running on port " ++ JS.number_to_string port
  end.

Inductive completion (A : Type) : Type :=
| Normal (a : A)
| Throw (e : exn).
Arguments Normal {A} a.
Arguments Throw {A} e.

(** ** The token directory on disk *)

Inductive path : Type := TOKEN_DIR | TOKEN_PATH.

(** [file] is the content of tokens.json, [None] when it does not exist.
    [can_write] and [can_read] say whether the operating system lets the
    process create or write, and read, under the token directory. *)
Record Disk : Type := {
  dir_exists : bool;
  file : option string;
  can_write : bool;
  can_read : bool
}.

(** ** Observable actions *)

Inductive token_request : Type :=
| RefreshGrant (refresh_token : string)
| CodeGrant (code : string).

Record api_request : Type := {
  req_method : string;
  req_endpoint : string;
  req_bearer : string;
  req_data : JS.jsval
}.

(** What [app.listen] does: it binds the port, or the server emits an
    [error] event (EADDRINUSE or another code), or the call itself throws. *)
Inductive listen_outcome : Type :=
| Listening
| AddrInUse
| ListenError (message : string)
| ListenThrows (message : string).

Inductive event : Type :=
| DiskExists (p : path)
| DiskMkdir
| DiskRead
| DiskWrite (data : string)
| TokenPost (q : token_request)
| ApiCall (q : api_request)
| ProbePort
| KillPortOwner
| Sleep
| OpenBrowser (url : string)
| Listen (outcome : listen_outcome)
| Respond (page : string).

(** ** The remote side *)

(** The data of a successful answer of the token endpoint. [refresh_token]
    is [None] when the answer has no such member. *)
Record token_response : Type := {
  access_token : string;
  expires_in : Z;
  refresh_token : option string
}.

Inductive token_reply : Type :=
| TokenOk (data : token_response)
| TokenFail (message : string).

Inductive api_reply : Type :=
| ApiOk (data : JS.json)
| ApiFail (message : string) (response : option (Z * JS.json)).

Record Remote : Type := {
  token_endpoint : token_request -> token_reply;
  api : api_request -> api_reply
}.

(** ** The module-level variables and what surrounds them *)

Inductive server_handle : Type := HttpServer (port : Z).

Inductive promise_state : Type := Unsettled | Fulfilled | Rejected (e : exn).

(** [promises] are the promises built by the executor of [startAuthServer],
    oldest first; [trace] is the list of actions performed, oldest first. *)
Record World : Type := {
  accessToken : option string;
  refreshToken : option string;
  tokenExpirationTime : Z;
  authServer : option server_handle;
  promises : list promise_state;
  disk : Disk;
  trace : list event
}.

Definition set_accessToken (v : option string) (w : World) : World :=
  {| accessToken := v; refreshToken := refreshToken w;
     tokenExpirationTime := tokenExpirationTime w; authServer := authServer w;
     promises := promises w; disk := disk w; trace := trace w |}.

Definition set_refreshToken (v : option string) (w : World) : World :=
  {| accessToken := accessToken w; refreshToken := v;
     tokenExpirationTime := tokenExpirationTime w; authServer := authServer w;
     promises := promises w; disk := disk w; trace := trace w |}.

Definition set_tokenExpirationTime (v : Z) (w : World) : World :=
  {| accessToken := accessToken w; refreshToken := refreshToken w;
     tokenExpirationTime := v; authServer := authServer w;
     promises := promises w; disk := disk w; trace := trace w |}.

Definition set_authServer (v : option server_handle) (w : World) : World :=
  {| accessToken := accessToken w; refreshToken := refreshToken w;
     tokenExpirationTime := tokenExpirationTime w; authServer := v;
     promises := promises w; disk := disk w; trace := trace w |}.

Definition set_promises (v : list promise_state) (w : World) : World :=
  {| accessToken := accessToken w; refreshToken := refreshToken w;
     tokenExpirationTime := tokenExpirationTime w; authServer := authServer w;
     promises := v; disk := disk w; trace := trace w |}.

Definition set_disk (v : Disk) (w : World) : World :=
  {| accessToken := accessToken w; refreshToken := refreshToken w;
     tokenExpirationTime := tokenExpirationTime w; authServer := authServer w;
     promises := promises w; disk := v; trace := trace w |}.

Definition log (e : event) (w : World) : World :=
  {| accessToken := accessToken w; refreshToken := refreshToken w;
     tokenExpirationTime := tokenExpirationTime w; authServer := authServer w;
     promises := promises w; disk := disk w; trace := trace w ++ [e] |}.

(** ** Computations that read and write the world and may throw *)

(** A statement that throws keeps the assignments made before it, so the
    world is returned beside the completion. *)
Definition M (A : Type) : Type := World -> completion A * World.

Definition ret {A : Type} (a : A) : M A := fun w => (Normal a, w).

Definition throw {A : Type} (e : exn) : M A := fun w => (Throw e, w).

Definition bind {A B : Type} (c : M A) (k : A -> M B) : M B :=
  fun w =>
    match c w with
    | (Normal a, w') => k a w'
    | (Throw e, w') => (Throw e, w')
    end.

Definition try_catch {A : Type} (c : M A) (handler : exn -> M A) : M A :=
  fun w =>
    match c w with
    | (Normal a, w') => (Normal a, w')
    | (Throw e, w') => handler e w'
    end.

Definition read {A : Type} (f : World -> A) : M A := fun w => (Normal (f w), w).

Definition update (f : World -> World) : M unit := fun w => (Normal tt, f w).

Definition emit (e : event) : M unit := update (log e).

Declare Scope js_scope.
Delimit Scope js_scope with js.
Notation "x <- c ;; k" := (bind c (fun x => k))
  (at level 61, c at next level, right associativity) : js_scope.
Notation "c ;; k" := (bind c (fun _ => k))
  (at level 61, right associativity) : js_scope.

Local Open Scope js_scope.

(** [if (cond) { body }] with no else branch. *)
Definition when (cond : bool) (body : M unit) : M unit :=
  if cond then body else ret tt.

(** A computation preserves a relation between the world before and the
    world after, whether it returns or throws. *)
Definition preserves (R : World -> World -> Prop) {A : Type} (c : M A) : Prop :=
  forall w, R w (snd (c w)).

(** ** [fs] *)

Definition existsSync (p : path) : M bool :=
  emit (DiskExists p) ;;
  d <- read disk ;;
  match p with
  | TOKEN_DIR => ret (dir_exists d)
  | TOKEN_PATH =>
      ret (match file d with Some _ => true | None => false end)
  end.

Definition mkdirSync : M unit :=
  emit DiskMkdir ;;
  d <- read disk ;;
  if can_write d then
    update (set_disk {| dir_exists := true; file := file d;
                        can_write := can_write d; can_read := can_read d |})
  else throw (SystemError "EACCES: permission denied, mkdir").

Definition writeFileSync (data : string) : M unit :=
  emit (DiskWrite data) ;;
  d <- read disk ;;
  if negb (dir_exists d) then
    throw (SystemError "ENOENT: no such file or directory, open")
  else if can_write d then
    update (set_disk {| dir_exists := dir_exists d; file := Some data;
                        can_write := can_write d; can_read := can_read d |})
  else throw (SystemError "EACCES: permission denied, open").

Definition readFileSync : M string :=
  emit DiskRead ;;
  d <- read disk ;;
  match file d with
  | None => throw (SystemError "ENOENT: no such file or directory, open")
  | Some content =>
      if can_read d then ret content
      else throw (SystemError "EACCES: permission denied, open")
  end.

(** ** [JSON], property access and [Date] inside the monad *)

(** [JSON.parse] on a text of the modelled fragment: the value, or the
    SyntaxError on a text that is not JSON. The facts below about what is
    read from a file take the file as not JSON ([JS.is_json] refuses it) or
    as parsed by [JS.JSON_parse], which leaves out the JSON texts outside
    the fragment. *)
Definition JSON_parse (s : string) : M JS.json :=
  match JS.JSON_parse s with
  | Some v => ret v
  | None => throw SyntaxError
  end.

(** [value.key]: a TypeError on [null], [undefined] on a value that is not
    an object or has no such member. *)
Definition prop (v : JS.json) (k : string) : M JS.jsval :=
  match v with
  | JS.JNull => throw TypeError
  | JS.JObj ms => ret (JS.lookup k ms)
  | _ => ret None
  end.

Definition toISOString (t : Z) : M unit :=
  if JS.valid_time t then ret tt else throw RangeError.

(** The variables are declared [string | null] and [number]. A value read
    from the file is stored at these types, which is exact for every file
    this program writes from such variables: a token is a string or null,
    and an expiry is an integer. A member of another type (a token that is
    not a string, an expiry that is a string or is missing) is outside the
    typed model, where it is read as [null], respectively as 0; the facts
    below about a record loaded from a file take the members at the declared
    types. A token variable that is undefined is [None] like null: both are
    falsy, and they differ only in print. The program prints a token that
    may be undefined in the record written by the callback route, which
    [Build.callback] takes into account, and in the test call of the auth
    tool after it loaded a file without accessToken member, which is
    outside the typed model. *)
Definition as_token (v : JS.jsval) : option string :=
  match v with
  | Some (JS.JStr s) => Some s
  | _ => None
  end.

Definition as_time (v : JS.jsval) : Z :=
  match v with
  | Some (JS.JNum z) => z
  | _ => 0
  end.

Definition token_value (t : option string) : JS.json :=
  match t with
  | Some s => JS.JStr s
  | None => JS.JNull
  end.

(** ToBoolean of a variable of type [string | null]. *)
Definition present (t : option string) : bool := JS.truthy (Some (token_value t)).

(** The object literal [{ accessToken, refreshToken, tokenExpirationTime }]. *)
Definition tokenData (a r : option string) (t : Z) : JS.json :=
  JS.JObj [("accessToken", token_value a);
           ("refreshToken", token_value r);
           ("tokenExpirationTime", JS.JNum t)].

(** The same literal while [refreshToken] is undefined, as the callback
    route leaves it when the answer of the token endpoint has no
    refresh_token member: [JSON.stringify] leaves out a member whose value
    is undefined. *)
Definition tokenData_without_refreshToken (a : option string) (t : Z) : JS.json :=
  JS.JObj [("accessToken", token_value a);
           ("tokenExpirationTime", JS.JNum t)].

(** A template literal prints [null] for a null token. *)
Definition interpolate (t : option string) : string :=
  match t with
  | Some s => s
  | None => "null"
  end.

(** ** [axios] *)

Definition axios_post_token (remote : Remote) (q : token_request) : M token_response :=
  emit (TokenPost q) ;;
  match token_endpoint remote q with
  | TokenOk data => ret data
  | TokenFail m => throw (HttpError m None)
  end.

Definition axios (remote : Remote) (q : api_request) : M JS.json :=
  emit (ApiCall q) ;;
  match api remote q with
  | ApiOk data => ret data
  | ApiFail m response => throw (HttpError m response)
  end.

End Runtime.

(* ===================================================================== *)
(** * Starting the authorization server: what both variants share *)
(* ===================================================================== *)

Module Auth.
Import Runtime.
Local Open Scope js_scope.

Definition PORT : Z := 8888.

Definition login_url : string := "http://127.0.0.1:8888/login".

(** How the machine answers during one call of [startAuthServer]:
    [port_in_use] is the answer of the first probe of the port,
    [kill_succeeds] whether the kill command exits with success,
    [still_in_use] the answer of the probe after the kill, [open_succeeds]
    whether [open] launches the browser. *)
Record Env : Type := {
  port_in_use : bool;
  kill_succeeds : bool;
  still_in_use : bool;
  open_succeeds : bool;
  listen_result : listen_outcome
}.

(** The promise a call of [startAuthServer] hands back, once the call has
    run as far as it can without the browser: already fulfilled, or the
    promise of the executor, which waits for the callback route. A rejected
    promise is a [Throw]. *)
Inductive auth_result : Type :=
| Resolved
| Awaiting (id : nat).

(** The two ways out of the port check. *)
Inductive flow : Type := Return | Continue.

Definition isPortInUse (answer : bool) : M bool :=
  emit ProbePort ;; ret answer.

Definition open (env : Env) (url : string) : M unit :=
  emit (OpenBrowser url) ;;
  if open_succeeds env then ret tt else throw (SystemError "spawn ENOENT").

Definition execAsync_kill (env : Env) : M unit :=
  emit KillPortOwner ;;
  if kill_succeeds env then ret tt else throw (SystemError "Command failed").

Definition new_promise (st : promise_state) : M nat :=
  ps <- read promises ;;
  update (set_promises (ps ++ [st])) ;;
  ret (List.length ps).

Fixpoint settle_at (id : nat) (st : promise_state) (ps : list promise_state)
  : list promise_state :=
  match ps, id with
  | [], _ => []
  | Unsettled :: rest, O => st :: rest
  | p :: rest, O => p :: rest
  | p :: rest, S id' => p :: settle_at id' st rest
  end.

(** [resolve()] and [reject(e)]: a promise settles once. *)
Definition settle (id : nat) (st : promise_state) : M unit :=
  ps <- read promises ;;
  update (set_promises (settle_at id st ps)).

(** The body of [new Promise((resolve, reject) => ...)] from the [try]
    around [app.listen] on. The listen callback opens the login page without
    awaiting the browser. *)
Definition executor (env : Env) : M auth_result :=
  emit (Listen (listen_result env)) ;;
  match listen_result env with
  | ListenThrows m =>
      new_promise (Rejected (SystemError m)) ;;
      throw (SystemError m)
  | Listening =>
      update (set_authServer (Some (HttpServer PORT))) ;;
      id <- new_promise Unsettled ;;
      emit (OpenBrowser login_url) ;;
      ret (Awaiting id)
  | AddrInUse =>
      update (set_authServer (Some (HttpServer PORT))) ;;
      new_promise (Rejected (ServerAlreadyRunningError PORT)) ;;
      throw (ServerAlreadyRunningError PORT)
  | ListenError m =>
      update (set_authServer (Some (HttpServer PORT))) ;;
      new_promise (Rejected (SystemError m)) ;;
      throw (SystemError m)
  end.

End Auth.

(* ===================================================================== *)
(** * [src/build/index.js] *)
(* ===================================================================== *)

Module Build.
Import Runtime Auth.
Local Open Scope js_scope.

Definition ensureTokenDirExists : M unit :=
  try_catch
    (ex <- existsSync TOKEN_DIR ;;
     when (negb ex) mkdirSync)
    (fun _ => ret tt).

Definition saveTokens : M unit :=
  try_catch
    (ensureTokenDirExists ;;
     a <- read accessToken ;;
     r <- read refreshToken ;;
     t <- read tokenExpirationTime ;;
     writeFileSync (JS.JSON_stringify (tokenData a r t)))
    (fun _ => ret tt).

(** The [try] block of [loadTokens]; the last log line formats the expiry
    with [toISOString]. *)
Definition loadTokens_try : M bool :=
  ex <- existsSync TOKEN_PATH ;;
  if negb ex then ret false else
  rawData <- readFileSync ;;
  if String.eqb (JS.trim rawData) "" then ret false else
  data <- JSON_parse rawData ;;
  a <- prop data "accessToken" ;;
  incomplete <- (if negb (JS.truthy a) then ret true
                 else r <- prop data "refreshToken" ;; ret (negb (JS.truthy r))) ;;
  if (incomplete : bool) then ret false else
  r <- prop data "refreshToken" ;;
  t <- prop data "tokenExpirationTime" ;;
  update (set_accessToken (as_token a)) ;;
  update (set_refreshToken (as_token r)) ;;
  update (set_tokenExpirationTime (as_time t)) ;;
  toISOString (as_time t) ;;
  ret true.

Definition loadTokens : M bool :=
  try_catch loadTokens_try (fun _ => ret false).

Definition clear_tokens : M unit :=
  update (set_accessToken None) ;;
  update (set_refreshToken None) ;;
  update (set_tokenExpirationTime 0).

(** The assignments after a successful answer of the token endpoint to a
    refresh request. *)
Definition store_refreshed (now : Z) (response : token_response) : M unit :=
  update (set_accessToken (Some (access_token response))) ;;
  update (set_tokenExpirationTime (now + expires_in response * 1000)) ;;
  when (present (refresh_token response))
       (update (set_refreshToken (refresh_token response))).

(** The head of [ensureToken]: with no token at all in memory, the file is
    consulted. *)
Definition preload : M unit :=
  a <- read accessToken ;;
  r <- read refreshToken ;;
  when (negb (present a) && negb (present r)) (loadTokens ;; ret tt).

Definition ensureToken (now : Z) (remote : Remote) : M (option string) :=
  preload ;;
  a <- read accessToken ;;
  t <- read tokenExpirationTime ;;
  if present a && (now <? t - 60000) then ret a else
  r <- read refreshToken ;;
  if present r then
    try_catch
      (response <- axios_post_token remote (RefreshGrant (interpolate r)) ;;
       store_refreshed now response ;;
       saveTokens ;;
       read accessToken)
      (fun _ =>
         clear_tokens ;;
         saveTokens ;;
         ret None)
  else ret None.

(** The inline loader at the head of [spotifyApiRequest]: it copies the
    three members without the completeness check of [loadTokens]. *)
Definition reload_inline : M unit :=
  try_catch
    (ex <- existsSync TOKEN_PATH ;;
     when ex
       (fileContent <- readFileSync ;;
        when (negb (String.eqb (JS.trim fileContent) ""))
          (data <- JSON_parse fileContent ;;
           a <- prop data "accessToken" ;;
           update (set_accessToken (as_token a)) ;;
           r <- prop data "refreshToken" ;;
           update (set_refreshToken (as_token r)) ;;
           t <- prop data "tokenExpirationTime" ;;
           update (set_tokenExpirationTime (as_time t)))))
    (fun _ => ret tt).

Definition save_inline : M unit :=
  try_catch
    (ex <- existsSync TOKEN_DIR ;;
     when (negb ex) mkdirSync ;;
     a <- read accessToken ;;
     r <- read refreshToken ;;
     t <- read tokenExpirationTime ;;
     writeFileSync (JS.JSON_stringify (tokenData a r t)))
    (fun _ => ret tt).

(** The refresh block of [spotifyApiRequest], entered when the token is
    within a minute of its expiry. *)
Definition refresh_inline (now : Z) (remote : Remote) : M unit :=
  r <- read refreshToken ;;
  if present r then
    try_catch
      (response <- axios_post_token remote (RefreshGrant (interpolate r)) ;;
       store_refreshed now response ;;
       t <- read tokenExpirationTime ;;
       toISOString t ;;
       save_inline)
      (fun _ =>
         clear_tokens ;;
         throw (Error "Authentication expired. Please authenticate again."))
  else
    update (set_accessToken None) ;;
    update (set_tokenExpirationTime 0) ;;
    throw (Error "Authentication expired. Please authenticate again.").

(** The [catch] around the API call. *)
Definition on_api_error (error : exn) : M JS.json :=
  match error with
  | HttpError _ (Some (status, _)) =>
      if status =? 401 then
        clear_tokens ;;
        throw (Error "Authorization expired. Please authenticate again.")
      else throw (Error ("Spotify API error: " ++ message_of error))
  | _ => throw (Error ("Spotify API error: " ++ message_of error))
  end.

Definition spotifyApiRequest (now : Z) (remote : Remote)
    (endpoint method : string) (data : JS.jsval) : M JS.json :=
  a <- read accessToken ;;
  r <- read refreshToken ;;
  when (negb (present a) || negb (present r)) reload_inline ;;
  a <- read accessToken ;;
  if negb (present a) then
    throw (Error "Not authenticated. Please authorize the app first.")
  else
  t <- read tokenExpirationTime ;;
  when (now >=? t - 60000) (refresh_inline now remote) ;;
  a <- read accessToken ;;
  try_catch
    (axios remote {| req_method := method; req_endpoint := endpoint;
                     req_bearer := interpolate a;
                     req_data := if JS.truthy data then data else None |})
    on_api_error.

(** The port check of [startAuthServer]: the process that holds the port is
    killed first; the login page of the other server is opened only when the
    kill fails or leaves the port bound. *)
Definition port_check (env : Env) : M flow :=
  portInUse <- isPortInUse (port_in_use env) ;;
  if (portInUse : bool) then
    try_catch
      (execAsync_kill env ;;
       emit Sleep ;;
       stillInUse <- isPortInUse (still_in_use env) ;;
       if (stillInUse : bool) then throw (ServerAlreadyRunningError PORT)
       else ret Continue)
      (fun _ =>
         try_catch
           (open env login_url ;; ret Return)
           (fun _ => throw (ServerAlreadyRunningError PORT)))
  else ret Continue.

Definition startAuthServer (env : Env) : M auth_result :=
  srv <- read authServer ;;
  match srv with
  | Some _ => open env login_url ;; ret Resolved
  | None =>
      fl <- port_check env ;;
      match fl with
      | Return => ret Resolved
      | Continue => executor env
      end
  end.

(** The handler of the callback route of the server started by the
    executor whose promise is [id]. After an answer without refresh_token
    member the variable [refreshToken] is undefined, which the record
    written to the file shows; in memory it is falsy like null. *)
Definition callback (id : nat) (now : Z) (remote : Remote) (code : option string)
  : M unit :=
  if negb (present code) then
    emit (Respond "Authentication failed: No code provided") ;;
    settle id (Rejected (Error "Authentication failed: No code provided"))
  else
    try_catch
      (response <- axios_post_token remote (CodeGrant (interpolate code)) ;;
       update (set_accessToken (Some (access_token response))) ;;
       update (set_refreshToken (refresh_token response)) ;;
       update (set_tokenExpirationTime (now + expires_in response * 1000)) ;;
       try_catch
         (ex <- existsSync TOKEN_DIR ;;
          when (negb ex) mkdirSync)
         (fun _ => ret tt) ;;
       try_catch
         (a <- read accessToken ;;
          r <- read refreshToken ;;
          t <- read tokenExpirationTime ;;
          writeFileSync
            (JS.JSON_stringify
               (match refresh_token response with
                | Some _ => tokenData a r t
                | None => tokenData_without_refreshToken a t
                end)) ;;
          existsSync TOKEN_PATH ;;
          ret tt)
         (fun _ => ret tt) ;;
       a <- read accessToken ;;
       try_catch
         (axios remote {| req_method := "GET"; req_endpoint := "/me";
                          req_bearer := interpolate a; req_data := None |} ;;
          ret tt)
         (fun _ => ret tt) ;;
       emit (Respond "Authentication successful! You can close this window now.") ;;
       settle id Fulfilled)
      (fun error =>
         emit (Respond ("Authentication failed: " ++ message_of error)) ;;
         settle id (Rejected error)).

End Build.

(* ===================================================================== *)
(** * [src/index.ts] *)
(* ===================================================================== *)

(** This variant keeps the tokens in memory only: it never touches the
    disk. *)
Module Src.
Import Runtime Auth.
Local Open Scope js_scope.

Definition ensureToken (now : Z) (remote : Remote) : M (option string) :=
  a <- read accessToken ;;
  t <- read tokenExpirationTime ;;
  if present a && (now <? t - 60000) then ret a else
  r <- read refreshToken ;;
  if present r then
    try_catch
      (response <- axios_post_token remote (RefreshGrant (interpolate r)) ;;
       update (set_accessToken (Some (access_token response))) ;;
       update (set_tokenExpirationTime (now + expires_in response * 1000)) ;;
       when (present (refresh_token response))
            (update (set_refreshToken (refresh_token response))) ;;
       read accessToken)
      (fun _ =>
         update (set_accessToken None) ;;
         update (set_refreshToken None) ;;
         update (set_tokenExpirationTime 0) ;;
         ret None)
  else ret None.

Definition spotifyApiRequest (now : Z) (remote : Remote)
    (endpoint method : string) (data : JS.jsval) : M JS.json :=
  token <- ensureToken now remote ;;
  if negb (present token) then
    throw (Error "Not authenticated. Please authorize the app first.")
  else
    try_catch
      (axios remote {| req_method := method; req_endpoint := endpoint;
                       req_bearer := interpolate token;
                       req_data := if JS.truthy data then data else None |})
      (fun error => throw (Error ("Spotify API error: " ++ message_of error))).

Definition port_check (env : Env) : M flow :=
  portInUse <- isPortInUse (port_in_use env) ;;
  if (portInUse : bool) then
    try_catch
      (open env login_url ;; ret Return)
      (fun _ => throw (ServerAlreadyRunningError PORT))
  else ret Continue.

Definition startAuthServer (env : Env) : M auth_result :=
  srv <- read authServer ;;
  match srv with
  | Some _ => open env login_url ;; ret Resolved
  | None =>
      fl <- port_check env ;;
      match fl with
      | Return => ret Resolved
      | Continue => executor env
      end
  end.

Definition callback (id : nat) (now : Z) (remote : Remote) (code : option string)
  : M unit :=
  if negb (present code) then
    emit (Respond "Authentication failed: No code provided") ;;
    settle id (Rejected (Error "Authentication failed: No code provided"))
  else
    try_catch
      (response <- axios_post_token remote (CodeGrant (interpolate code)) ;;
       update (set_accessToken (Some (access_token response))) ;;
       update (set_refreshToken (refresh_token response)) ;;
       update (set_tokenExpirationTime (now + expires_in response * 1000)) ;;
       emit (Respond "Authentication successful! You can close this window now.") ;;
       settle id Fulfilled)
      (fun error =>
         emit (Respond ("Authentication failed: " ++ message_of error)) ;;
         settle id (Rejected error)).

End Src.

(* ===================================================================== *)
(** * The process as a transition system *)
(* ===================================================================== *)

Module Process.
Import Runtime Auth.

Inductive variant : Type := BuildJs | IndexTs.

(** What can happen to the coordinator: a tool call asks to authenticate,
    or the browser hits the callback route of a server started earlier. *)
Inductive action : Type :=
| Authenticate (env : Env)
| CallbackHit (id : nat) (now : Z) (remote : Remote) (code : option string).

Definition startAuthServer (v : variant) : Env -> M auth_result :=
  match v with
  | BuildJs => Build.startAuthServer
  | IndexTs => Src.startAuthServer
  end.

Definition callback (v : variant) : nat -> Z -> Remote -> option string -> M unit :=
  match v with
  | BuildJs => Build.callback
  | IndexTs => Src.callback
  end.

Definition preload (v : variant) : M unit :=
  match v with
  | BuildJs => Build.preload
  | IndexTs => ret tt
  end.

Definition ensureToken (v : variant) : Z -> Remote -> M (option string) :=
  match v with
  | BuildJs => Build.ensureToken
  | IndexTs => Src.ensureToken
  end.

Definition spotifyApiRequest (v : variant)
  : Z -> Remote -> string -> string -> JS.jsval -> M JS.json :=
  match v with
  | BuildJs => Build.spotifyApiRequest
  | IndexTs => Src.spotifyApiRequest
  end.

Definition run (v : variant) (a : action) (w : World) : World :=
  match a with
  | Authenticate env => snd (startAuthServer v env w)
  | CallbackHit id now remote code => snd (callback v id now remote code w)
  end.


(** The token record held in memory. *)
Definition tokens (w : World) : option string * option string * Z :=
  (accessToken w, refreshToken w, tokenExpirationTime w).

(** A process that has just started on a machine whose disk is [d]. *)
Definition fresh_process (d : Disk) : World :=
  {| accessToken := None; refreshToken := None; tokenExpirationTime := 0;
     authServer := None; promises := []; disk := d; trace := [] |}.

(** The access token is not usable at [now]: it is missing or within a
    minute of its expiry. *)
Definition stale (now : Z) (w : World) : Prop :=
  present (accessToken w) && (now <? tokenExpirationTime w - 60000) = false.

(** What [loadTokens] sees in a parsed document. *)
Definition member (doc : JS.json) (k : string) : JS.jsval :=
  match doc with
  | JS.JObj ms => JS.lookup k ms
  | _ => None
  end.

(** The file cannot yield a token record: it is missing, empty, blank or
    not JSON, so that [JSON.parse] throws on it. *)
Inductive unusable (d : Disk) : Prop :=
| file_missing : file d = None -> unusable d
| file_empty : file d = Some EmptyString -> unusable d
| file_blank : forall c, file d = Some c -> JS.trim c = EmptyString -> unusable d
| file_malformed : forall c, file d = Some c -> JS.is_json c = false -> unusable d.

(** The files whose record the variables of the program hold at their
    declared types: the file cannot yield a record, or it is an object whose
    two tokens are strings or null and whose expiry is an integer. Every
    file that this program writes from such variables is of this kind. *)
Inductive typed_store (d : Disk) : Prop :=
| store_unusable : unusable d -> typed_store d
| store_record : forall c ms a r t,
    file d = Some c -> JS.JSON_parse c = Some (JS.JObj ms) ->
    JS.lookup "accessToken" ms = Some (token_value a) ->
    JS.lookup "refreshToken" ms = Some (token_value r) ->
    JS.lookup "tokenExpirationTime" ms = Some (JS.JNum t) ->
    typed_store d.

(** What [ensureToken] may take from the disk is within the declared types
    of the variables: the build variant looks at the file when it holds no
    token at all; index.ts never does. *)
Definition reads_typed (v : variant) (w : World) : Prop :=
  match v with
  | BuildJs =>
      present (accessToken w) = false -> present (refreshToken w) = false ->
      typed_store (disk w)
  | IndexTs => True
  end.

Definition is_listen (e : event) : bool :=
  match e with
  | Listen _ => true
  | _ => false
  end.

(** The calls of [app.listen], whatever came of them. *)
Definition listen_calls (w : World) : nat :=
  List.length (List.filter is_listen (trace w)).

Definition is_api_call (e : event) : bool :=
  match e with
  | ApiCall _ => true
  | _ => false
  end.


(** The disk is left as it was. *)
Definition same_disk (w w' : World) : Prop := disk w' = disk w.



(** The request that [spotifyApiRequest] sends with the token [tok]. *)
Definition request (method endpoint tok : string) (data : JS.jsval) : api_request :=
  {| req_method := method; req_endpoint := endpoint; req_bearer := tok;
     req_data := if JS.truthy data then data else None |}.

Definition is_unsettled (p : promise_state) : bool :=
  match p with
  | Unsettled => true
  | _ => false
  end.

(** The authorization operations still waiting for the callback. *)
Definition pending (w : World) : nat :=
  List.length (List.filter is_unsettled (promises w)).

Definition is_bound (e : event) : bool :=
  match e with
  | Listen Listening => true
  | _ => false
  end.

(** The listeners this process has bound. *)
Definition listeners (w : World) : nat :=
  List.length (List.filter is_bound (trace w)).

(** The coordinator is left as it was: same server, same promises, no call
    of [app.listen]. *)
Definition same_server (w w' : World) : Prop :=
  authServer w' = authServer w /\ promises w' = promises w
  /\ listen_calls w' = listen_calls w /\ listeners w' = listeners w.

(** What the callback route may do to the coordinator: settle a promise. *)
Definition settles_only (w w' : World) : Prop :=
  authServer w' = authServer w /\ listen_calls w' = listen_calls w
  /\ listeners w' = listeners w /\ (pending w' <= pending w)%nat.

(** At most one operation waits for the callback, at most one listener is
    bound, and neither exists before a server object is stored. *)
Definition invariant (w : World) : Prop :=
  (pending w <= 1)%nat /\ (listeners w <= 1)%nat
  /\ (authServer w = None -> pending w = O /\ listeners w = O).

(** A process starts with no server and no promise, and has not called
    [app.listen] yet. *)
Definition initial (w : World) : Prop :=
  authServer w = None /\ promises w = []
  /\ List.filter is_listen (trace w) = [].

(** The states of a running process: the coordinator acts, and any other
    code of the process runs in between, as long as it leaves the
    coordinator alone (the token manager and the request executor do). *)
Inductive reachable (v : variant) : World -> Prop :=
| reach_initial : forall w, initial w -> reachable v w
| reach_step : forall w a, reachable v w -> reachable v (run v a w)
| reach_other : forall w w', reachable v w -> same_server w w' -> reachable v w'.

End Process.

(* ===================================================================== *)
(** * Concrete machines, servers and token records *)
(* ===================================================================== *)

Module Scenario.
Import Runtime Auth Process.

Definition now0 : Z := 1700000000000.

(** A token directory that exists and can be read and written. *)
Definition disk_holding (content : option string) : Disk :=
  {| dir_exists := true; file := content; can_write := true; can_read := true |}.

(** The same directory when the process may read it but not write it. *)
Definition read_only (content : option string) : Disk :=
  {| dir_exists := true; file := content; can_write := false; can_read := true |}.

Definition saved (a r : option string) (t : Z) : option string :=
  Some (JS.JSON_stringify (tokenData a r t)).

Definition process_with (a r : option string) (t : Z) (d : Disk) : World :=
  {| accessToken := a; refreshToken := r; tokenExpirationTime := t;
     authServer := None; promises := []; disk := d; trace := [] |}.

(** A remote side that rejects every bearer token with status 401 and every
    grant at the token endpoint. *)
Definition rejecting : Remote :=
  {| token_endpoint := fun _ => TokenFail "Request failed with status code 400";
     api := fun _ => ApiFail "Request failed with status code 401"
                             (Some (401, JS.JNull)) |}.

(** A token endpoint that answers [{access_token: B, expires_in: 3600}],
    with no refresh token. *)
Definition renewing : Remote :=
  {| token_endpoint := fun _ =>
       TokenOk {| access_token := "B"; expires_in := 3600; refresh_token := None |};
     api := fun _ => ApiOk JS.JNull |}.

(** The port is free and [app.listen] binds it. *)
Definition port_free : Env :=
  {| port_in_use := false; kill_succeeds := false; still_in_use := false;
     open_succeeds := true; listen_result := Listening |}.

(** Another process holds the port; it answers on the login route and can
    be killed. *)
Definition port_taken : Env :=
  {| port_in_use := true; kill_succeeds := true; still_in_use := false;
     open_succeeds := true; listen_result := Listening |}.

(** Another process holds the port and cannot be killed; the browser cannot
    be launched either. *)
Definition port_stuck : Env :=
  {| port_in_use := true; kill_succeeds := false; still_in_use := true;
     open_succeeds := false; listen_result := AddrInUse |}.

(** Another process holds the port and cannot be killed, but the browser
    can be launched. *)
Definition port_shared : Env :=
  {| port_in_use := true; kill_succeeds := false; still_in_use := true;
     open_succeeds := true; listen_result := AddrInUse |}.

(** The port is free when it is probed, but [app.listen] reports
    EADDRINUSE. *)
Definition port_lost : Env :=
  {| port_in_use := false; kill_succeeds := false; still_in_use := false;
     open_succeeds := true; listen_result := AddrInUse |}.

(** A remote side that accepts every grant with a complete answer and
    answers every API call with the profile of the user. *)
Definition granting : Remote :=
  {| token_endpoint := fun _ =>
       TokenOk {| access_token := "B"; expires_in := 3600;
                  refresh_token := Some "S" |};
     api := fun _ => ApiOk (JS.JObj [("display_name", JS.JStr "Ada")]) |}.

(** A resource API that is down, behind a token endpoint that refuses
    every grant. *)
Definition unavailable : Remote :=
  {| token_endpoint := fun _ => TokenFail "Request failed with status code 400";
     api := fun _ => ApiFail "Request failed with status code 503"
                             (Some (503, JS.JNull)) |}.

End Scenario.

(* ===================================================================== *)
(** * What a run did: counting actions, comparing worlds *)
(* ===================================================================== *)

Module Observe.
Import Runtime Auth Process.

Definition count (p : event -> bool) (w : World) : nat :=
  List.length (List.filter p (trace w)).

Definition is_token_post (e : event) : bool :=
  match e with
  | TokenPost _ => true
  | _ => false
  end.

Definition is_disk_access (e : event) : bool :=
  match e with
  | DiskExists _ | DiskMkdir | DiskRead | DiskWrite _ => true
  | _ => false
  end.

Definition is_disk_write (e : event) : bool :=
  match e with
  | DiskMkdir | DiskWrite _ => true
  | _ => false
  end.

Definition is_network (e : event) : bool :=
  match e with
  | TokenPost _ | ApiCall _ => true
  | _ => false
  end.

Definition is_coordinator (e : event) : bool :=
  match e with
  | ProbePort | KillPortOwner | Sleep | OpenBrowser _ | Listen _ => true
  | _ => false
  end.

(** No action of the kind [p] was performed. *)
Definition same_count (p : event -> bool) (w w' : World) : Prop :=
  count p w' = count p w.

(** At most one action of the kind [p] was performed. *)
Definition one_more (p : event -> bool) (w w' : World) : Prop :=
  (count p w <= count p w' <= count p w + 1)%nat.

Definition same_tokens (w w' : World) : Prop := tokens w' = tokens w.

(** The disk was neither touched nor looked at. *)
Definition off_disk (w w' : World) : Prop :=
  disk w' = disk w /\ same_count is_disk_access w w'.

(** The file was not written and no directory was made. *)
Definition read_only_run (w w' : World) : Prop :=
  disk w' = disk w /\ same_count is_disk_write w w'.

(** The record that a successful answer of the token endpoint to a code
    grant puts in memory. *)
Definition granted (now : Z) (resp : token_response) : option string * option string * Z :=
  (Some (access_token resp), refresh_token resp, now + expires_in resp * 1000).

(** The record that the callback route of the build variant writes after
    that answer: without refreshToken member when the answer has none. *)
Definition written (now : Z) (resp : token_response) : JS.json :=
  match refresh_token resp with
  | Some r =>
      tokenData (Some (access_token resp)) (Some r) (now + expires_in resp * 1000)
  | None =>
      tokenData_without_refreshToken (Some (access_token resp))
        (now + expires_in resp * 1000)
  end.

(** An answer with a status other than 401, or no answer at all. *)
Definition not_a_rejection (response : option (Z * JS.json)) : Prop :=
  match response with
  | Some (status, _) => status <> 401
  | None => True
  end.

(** The worlds that [spotifyApiRequest] of the build variant passes
    through when it loads the record [a], [r], [t] from the file and when
    it forgets its tokens. *)
Definition reloaded (a r : option string) (t : Z) (w : World) : World :=
  set_tokenExpirationTime t
    (set_refreshToken r
       (set_accessToken a (log DiskRead (log (DiskExists TOKEN_PATH) w)))).

Definition forgotten (w : World) : World :=
  set_tokenExpirationTime 0 (set_refreshToken None (set_accessToken None w)).

(** The coordinator running a list of actions, first to last. *)
Definition run_all (v : variant) (actions : list action) (w : World) : World :=
  List.fold_left (fun w' a => run v a w') actions w.

(** The world after the code exchange of the callback route succeeded with
    [resp], before the record is written and the token is verified. *)
Definition exchanged (now : Z) (q : token_request) (resp : token_response) (w : World)
  : World :=
  set_tokenExpirationTime (now + expires_in resp * 1000)
    (set_refreshToken (refresh_token resp)
       (set_accessToken (Some (access_token resp)) (log (TokenPost q) w))).

End Observe.

(* ===================================================================== *)
(** * The auth-spotify tool of both variants *)
(* ===================================================================== *)

Module Tools.
Import Runtime Auth Process.
Local Open Scope js_scope.

(** ToString, as a template literal applies it to a value of an answer. *)
Fixpoint to_string (v : JS.json) : string :=
  match v with
  | JS.JNull => "null"
  | JS.JBool true => "true"
  | JS.JBool false => "false"
  | JS.JNum z => JS.number_to_string z
  | JS.JStr s => s
  | JS.JArr items =>
      JS.join ","
        (List.map (fun x => match x with
                            | JS.JNull => EmptyString
                            | _ => to_string x
                            end) items)
  | JS.JObj _ => "[object Object]"
  end.

Definition template (v : JS.jsval) : string :=
  match v with
  | Some j => to_string j
  | None => "undefined"
  end.

(** [await] on the promise of [startAuthServer]. While the handler waits
    for the callback, the rest of the process runs: [between] is what it
    does to the world. [false] says that the promise is still unsettled, so
    the handler has not resumed. *)
Definition await (between : World -> World) (r : auth_result) : M bool :=
  match r with
  | Resolved => ret true
  | Awaiting id =>
      update between ;;
      ps <- read promises ;;
      match List.nth_error ps id with
      | Some Fulfilled => ret true
      | Some (Rejected e) => throw e
      | _ => ret false
      end
  end.

(** The test call [GET /me] with the token in memory, and the display name
    of the answer as the message prints it. *)
Definition whoami (remote : Remote) : M string :=
  a <- read accessToken ;;
  response <- axios remote {| req_method := "GET"; req_endpoint := "/me";
                              req_bearer := interpolate a; req_data := None |} ;;
  name <- prop response "display_name" ;;
  ret (template name).

Definition already_text (name : string) : string :=
  "Already authenticated with Spotify as " ++ name ++ "!".

Definition success_text (name : string) : string :=
  "Successfully authenticated with Spotify as " ++ name ++ "!".

Definition build_busy_text (port : Z) : string :=
  "Another instance is already running on port " ++ JS.number_to_string port
  ++ ". If you're having authentication issues, please restart Claude or close any other applications using port "
  ++ JS.number_to_string port ++ ".".

Definition src_busy_text (port : Z) : string :=
  "Another instance is already running on port " ++ JS.number_to_string port
  ++ ". Attempted to connect to that instance. If you're having issues, please ensure no other processes are using port "
  ++ JS.number_to_string port ++ " or try again later.".

Definition failed_text (error : exn) : string :=
  "Authentication failed: " ++ message_of error.

(** The first block of the build handler: the token in memory is tested,
    or else the file is loaded (without the check of [loadTokens]) and the
    loaded token is tested. [Some text] is the early return. *)
Definition check_current (remote : Remote) : M (option string) :=
  try_catch
    (a <- read accessToken ;;
     if present a then
       try_catch
         (name <- whoami remote ;; ret (Some (already_text name)))
         (fun _ => ret None)
     else
       try_catch
         (ex <- existsSync TOKEN_PATH ;;
          if (ex : bool) then
            fileContent <- readFileSync ;;
            if negb (String.eqb fileContent "")
               && negb (String.eqb (JS.trim fileContent) "") then
              data <- JSON_parse fileContent ;;
              a' <- prop data "accessToken" ;;
              update (set_accessToken (as_token a')) ;;
              r <- prop data "refreshToken" ;;
              update (set_refreshToken (as_token r)) ;;
              t <- prop data "tokenExpirationTime" ;;
              update (set_tokenExpirationTime (as_time t)) ;;
              try_catch
                (name <- whoami remote ;; ret (Some (already_text name)))
                (fun _ => ret None)
            else ret None
          else ret None)
         (fun _ => ret None))
    (fun _ => ret None).

(** The [catch] of the build handler. *)
Definition build_on_error (remote : Remote) (error : exn) : M (option string) :=
  match error with
  | ServerAlreadyRunningError port =>
      again <- try_catch
                 (a <- read accessToken ;;
                  if present a then
                    name <- whoami remote ;; ret (Some (success_text name))
                  else ret None)
                 (fun _ => ret None) ;;
      match again with
      | Some text => ret (Some text)
      | None => ret (Some (build_busy_text port))
      end
  | _ => ret (Some (failed_text error))
  end.

(** The auth-spotify branch of the tool handler of build/index.js. [None]
    says that the handler is still waiting for the callback. *)
Definition build_auth_spotify (remote : Remote) (env : Env) (between : World -> World)
  : M (option string) :=
  try_catch
    (early <- check_current remote ;;
     match early with
     | Some text => ret (Some text)
     | None =>
         r <- Build.startAuthServer env ;;
         settled <- await between r ;;
         if (settled : bool) then
           a <- read accessToken ;;
           rt <- read refreshToken ;;
           if negb (present a) || negb (present rt) then
             throw (Error "Authentication failed: No tokens received")
           else
             try_catch
               (name <- whoami remote ;; ret (Some (success_text name)))
               (fun _ => throw (Error "Authentication succeeded but tokens are invalid"))
         else ret None
     end)
    (build_on_error remote).

(** The auth-spotify branch of the tool handler of index.ts. *)
Definition src_auth_spotify (env : Env) (between : World -> World) : M (option string) :=
  try_catch
    (r <- Src.startAuthServer env ;;
     settled <- await between r ;;
     if (settled : bool) then ret (Some "Successfully authenticated with Spotify!")
     else ret None)
    (fun error =>
       match error with
       | ServerAlreadyRunningError port => ret (Some (src_busy_text port))
       | _ => ret (Some (failed_text error))
       end).

(** The tool of either variant, and the text it gives when the port is
    held by a server it cannot reach. *)
Definition auth_spotify (v : variant) (remote : Remote) (env : Env)
    (between : World -> World) : M (option string) :=
  match v with
  | BuildJs => build_auth_spotify remote env between
  | IndexTs => src_auth_spotify env between
  end.

Definition busy_text (v : variant) : Z -> string :=
  match v with
  | BuildJs => build_busy_text
  | IndexTs => src_busy_text
  end.

End Tools.

(* ===================================================================== *)
(** * [src/errors.ts] *)
(* ===================================================================== *)

Module Errors.

(** The error classes of the file, and a plain [Error] for everything
    else that is thrown. A path of a validation issue is a list of keys. *)
Inductive app_error : Type :=
| SpotifyMCPError (message : string)
| AuthenticationError (message : string)
| APIError (message : string) (status : option Z)
| ValidationError (message : string) (errors : list (list string * string))
| ToolNotFoundError (toolName : string)
| PlaybackError (message : string)
| ServerAlreadyRunningError (port : Z)
| PlainError (message : string).

(** [this.name], as each constructor sets it. *)
Definition name (e : app_error) : string :=
  match e with
  | SpotifyMCPError _ => "SpotifyMCPError"
  | AuthenticationError _ => "AuthenticationError"
  | APIError _ _ => "APIError"
  | ValidationError _ _ => "ValidationError"
  | ToolNotFoundError _ => "ToolNotFoundError"
  | PlaybackError _ => "PlaybackError"
  | ServerAlreadyRunningError _ => "ServerAlreadyRunningError"
  | PlainError _ => "Error"
  end.

(** [this.message], as each constructor passes it to [super]. *)
Definition message (e : app_error) : string :=
  match e with
  | SpotifyMCPError m | AuthenticationError m | APIError m _
  | ValidationError m _ | PlaybackError m | PlainError m => m
  | ToolNotFoundError toolName => "Unknown tool: " ++ toolName
  | ServerAlreadyRunningError port =>
      "Server already running on port " ++ JS.number_to_string port
  end.

(** [String(error)]: the name, then the message when there is one. *)
Definition String_of (e : app_error) : string :=
  if String.eqb (message e) "" then name e
  else name e ++ ": " ++ message e.

Definition issue_text (issue : list string * string) : string :=
  JS.join "." (fst issue) ++ ": " ++ snd issue.

Definition formatError (e : app_error) : string :=
  match e with
  | ValidationError m (issue :: issues) =>
      m ++ ": " ++ JS.join ", " (List.map issue_text (issue :: issues))
  | APIError m (Some status) =>
      if negb (status =? 0) then
        "API Error (" ++ JS.number_to_string status ++ "): " ++ m
      else if negb (String.eqb m "") then m else String_of e
  | _ => if negb (String.eqb (message e) "") then message e else String_of e
  end.

End Errors.

(* ===================================================================== *)
(** * Facts about the platform model *)
(* ===================================================================== *)

Module JSFacts.
Import JS.

Lemma append_assoc (a b c : string) : ((a ++ b) ++ c = a ++ (b ++ c))%string.
Proof. induction a as [|x a IH]; simpl; [reflexivity | now rewrite IH]. Qed.

(** *** String literals *)

Lemma parse_chars_quote_char (c : ascii) (rest : string) :
  parse_chars (quote_char c ++ rest) = cons_char c (parse_chars rest).
Proof.
  destruct c as [[] [] [] [] [] [] [] []]; reflexivity.
Qed.

Lemma parse_chars_quote_body (s rest : string) :
  parse_chars (quote_body s ++ String dquote rest) = Some (s, rest).
Proof.
  induction s as [|c s IH]; simpl.
  - reflexivity.
  - rewrite append_assoc, parse_chars_quote_char, IH. reflexivity.
Qed.

Lemma quote_unfold (s rest : string) :
  (quote s ++ rest = String dquote (quote_body s ++ String dquote rest))%string.
Proof.
  unfold quote. simpl. now rewrite append_assoc.
Qed.

(** *** Number literals *)

Lemma scan_digits_digits (u : Decimal.uint) (rest : string) :
  ends_number rest -> scan_digits (digits u ++ rest) = (u, rest).
Proof.
  intros Hr. induction u; simpl; try (rewrite IHu; reflexivity).
  destruct rest as [|c r]; [reflexivity|].
  simpl. destruct Hr as [-> _]. reflexivity.
Qed.

Lemma to_uint_head (p : positive) :
  match Pos.to_uint p with
  | Decimal.Nil => False
  | Decimal.D0 _ => False
  | _ => True
  end.
Proof.
  pose proof (DecimalPos.Unsigned.to_uint_nonnil p) as Hnil.
  pose proof (DecimalPos.Unsigned.to_uint_nonzero p) as Hzero.
  assert (Hnorm : Decimal.unorm (Pos.to_uint p) = Pos.to_uint p).
  { rewrite <- (DecimalPos.Unsigned.to_of (Pos.to_uint p)).
    rewrite DecimalPos.Unsigned.of_to. reflexivity. }
  destruct (Pos.to_uint p) as [|u|u|u|u|u|u|u|u|u|u] eqn:E; try exact I.
  - congruence.
  - unfold Decimal.unorm in Hnorm.
    destruct (Decimal.nzhead (Decimal.D0 u)) eqn:En.
    + apply Hzero. symmetry. exact Hnorm.
    + exfalso. apply (DecimalFacts.nzhead_nonzero (Decimal.D0 u) u). congruence.
    + discriminate.
    + discriminate.
    + discriminate.
    + discriminate.
    + discriminate.
    + discriminate.
    + discriminate.
    + discriminate.
    + discriminate.
Qed.

Lemma ends_number_fraction (rest : string) :
  ends_number rest -> starts_fraction rest = false.
Proof. destruct rest; simpl; [reflexivity | intros [_ H]; exact H]. Qed.

Lemma parse_magnitude_digits (u : Decimal.uint) (rest : string) :
  ends_number rest ->
  match u with
  | Decimal.Nil => False
  | Decimal.D0 Decimal.Nil => True
  | Decimal.D0 _ => False
  | _ => True
  end ->
  parse_magnitude (digits u ++ rest) = Some (u, rest).
Proof.
  intros Hr Hu. unfold parse_magnitude.
  rewrite (scan_digits_digits u rest Hr), (ends_number_fraction rest Hr).
  destruct u as [|u|u|u|u|u|u|u|u|u|u]; try reflexivity; try contradiction.
  destruct u; try contradiction. reflexivity.
Qed.

Lemma parse_number_to_string (z : Z) (rest : string) :
  ends_number rest ->
  parse_number (number_to_string z ++ rest) = Some (z, rest).
Proof.
  intros Hr. unfold number_to_string. destruct z as [|p|p]; simpl Z.to_int.
  - change (digits (Decimal.D0 Decimal.Nil) ++ rest)%string
      with (String "0" (digits Decimal.Nil ++ rest)).
    unfold parse_number.
    change (code "0" =? 45)%N with false. cbv iota.
    change (String "0" (digits Decimal.Nil ++ rest))
      with (digits (Decimal.D0 Decimal.Nil) ++ rest)%string.
    rewrite parse_magnitude_digits by (exact Hr || exact I). reflexivity.
  - pose proof (to_uint_head p) as Hh.
    pose proof (DecimalZ.of_to (Zpos p)) as Hz. simpl Z.to_int in Hz.
    assert (Hm : parse_magnitude (digits (Pos.to_uint p) ++ rest)
                 = Some (Pos.to_uint p, rest)).
    { apply parse_magnitude_digits; [exact Hr|].
      destruct (Pos.to_uint p); try exact I; contradiction. }
    destruct (Pos.to_uint p) as [|u|u|u|u|u|u|u|u|u|u] eqn:E; try contradiction;
      simpl digits; simpl append; unfold parse_number;
      match goal with
      | |- context [(code ?c =? 45)%N] => change (code c =? 45)%N with false
      end; cbv iota;
      simpl digits in Hm; simpl append in Hm; rewrite Hm, Hz; reflexivity.
  - pose proof (to_uint_head p) as Hh.
    pose proof (DecimalZ.of_to (Zneg p)) as Hz. simpl Z.to_int in Hz.
    simpl append. unfold parse_number.
    change (code "-" =? 45)%N with true. cbv iota.
    rewrite parse_magnitude_digits, Hz; [reflexivity | exact Hr |].
    destruct (Pos.to_uint p); try exact I; contradiction.
Qed.

(** *** Values without nesting *)

Lemma parse_value_eq (f : nat) (s : string) :
  parse_value (S f) s =
  let t := skip_ws s in
  if head_is dquote t then
    match parse_chars (tail t) with
    | Some (str, rest) => Some (JStr str, rest)
    | None => None
    end
  else if head_is "[" t then
    if head_is "]" (skip_ws (tail t)) then Some (JArr [], tail (skip_ws (tail t)))
    else
      match parse_items f (tail t) with
      | Some (xs, rest) => Some (JArr xs, rest)
      | None => None
      end
  else if head_is "{" t then
    if head_is "}" (skip_ws (tail t)) then Some (JObj [], tail (skip_ws (tail t)))
    else
      match parse_members f (tail t) with
      | Some (ms, rest) => Some (JObj ms, rest)
      | None => None
      end
  else if head_is "n" t then
    match expect "null" t with
    | Some rest => Some (JNull, rest)
    | None => None
    end
  else if head_is "t" t then
    match expect "true" t with
    | Some rest => Some (JBool true, rest)
    | None => None
    end
  else if head_is "f" t then
    match expect "false" t with
    | Some rest => Some (JBool false, rest)
    | None => None
    end
  else
    match parse_number t with
    | Some (z, rest) => Some (JNum z, rest)
    | None => None
    end.
Proof. reflexivity. Qed.

Lemma parse_members_eq (f : nat) (s : string) :
  parse_members (S f) s =
  let t := skip_ws s in
  if head_is dquote t then
    match parse_chars (tail t) with
    | Some (k, rest) =>
        if head_is ":" (skip_ws rest) then
          match parse_value f (tail (skip_ws rest)) with
          | Some (v, rest') =>
              let t' := skip_ws rest' in
              if head_is "," t' then
                match parse_members f (tail t') with
                | Some (ms, rest'') => Some ((k, v) :: ms, rest'')
                | None => None
                end
              else if head_is "}" t' then Some ([(k, v)], tail t')
              else None
          | None => None
          end
        else None
    | None => None
    end
  else None.
Proof. reflexivity. Qed.

Lemma parse_value_number_start (f : nat) (c : ascii) (r : string) :
  number_start c = true ->
  parse_value (S f) (String c r) =
  match parse_number (String c r) with
  | Some (z, rest) => Some (JNum z, rest)
  | None => None
  end.
Proof.
  destruct c as [[] [] [] [] [] [] [] []]; intros H;
    try discriminate H; reflexivity.
Qed.

Lemma number_to_string_head (z : Z) :
  exists c r, number_to_string z = String c r /\ number_start c = true.
Proof.
  unfold number_to_string. destruct z as [|p|p]; simpl Z.to_int.
  - exists "0"%char, EmptyString. split; reflexivity.
  - pose proof (to_uint_head p) as Hh.
    destruct (Pos.to_uint p); try contradiction; simpl;
      eexists; eexists; split; reflexivity.
  - exists "-"%char, (digits (Pos.to_uint p)). split; reflexivity.
Qed.

Lemma parse_value_flat (f indent : nat) (v : json) (rest : string) :
  flat v -> ends_number rest ->
  parse_value (S f) (stringify_at indent v ++ rest) = Some (v, rest).
Proof.
  intros Hv Hr. destruct v as [|b|z|s|items|members]; try contradiction.
  - reflexivity.
  - destruct b; reflexivity.
  - simpl stringify_at.
    destruct (number_to_string_head z) as (c & r & E & Hc).
    pose proof (parse_number_to_string z rest Hr) as Hn.
    rewrite E in *. simpl append in *.
    rewrite (parse_value_number_start f c _ Hc), Hn. reflexivity.
  - simpl stringify_at. rewrite quote_unfold, parse_value_eq.
    change (skip_ws (String dquote (quote_body s ++ String dquote rest)))
      with (String dquote (quote_body s ++ String dquote rest)).
    cbv zeta. change (head_is dquote (String dquote (quote_body s ++ String dquote rest)))
      with true. cbv iota. simpl tail.
    rewrite parse_chars_quote_body. reflexivity.
Qed.

(** *** Objects whose members do not nest *)

Lemma skip_ws_spaces (n : nat) (s : string) : skip_ws (spaces n ++ s) = skip_ws s.
Proof. induction n as [|n IH]; simpl; [reflexivity | exact IH]. Qed.

Lemma skip_ws_newline (n : nat) (s : string) : skip_ws (newline n ++ s) = skip_ws s.
Proof. unfold newline. simpl. apply skip_ws_spaces. Qed.

Lemma parse_value_space (f : nat) (s : string) :
  parse_value f (String " " s) = parse_value f s.
Proof. destruct f; [reflexivity|]. rewrite !parse_value_eq. reflexivity. Qed.

Lemma parse_members_step (f : nat) (k : string) (v : json) (after : string) :
  flat v -> ends_number after ->
  parse_members (S (S f)) (newline 2 ++ member_text (k, v) ++ after) =
  if head_is "," (skip_ws after) then
    match parse_members (S f) (tail (skip_ws after)) with
    | Some (ms, rest) => Some ((k, v) :: ms, rest)
    | None => None
    end
  else if head_is "}" (skip_ws after) then Some ([(k, v)], tail (skip_ws after))
  else None.
Proof.
  intros Hv Ha. rewrite parse_members_eq. cbv zeta.
  rewrite skip_ws_newline. unfold member_text. simpl fst. simpl snd.
  rewrite !append_assoc, quote_unfold.
  change (skip_ws (String dquote ?x)) with (String dquote x).
  change (head_is dquote (String dquote ?x)) with true.
  cbv iota. simpl tail. rewrite parse_chars_quote_body.
  simpl append.
  change (skip_ws (String ":" ?x)) with (String ":" x).
  change (head_is ":" (String ":" ?x)) with true.
  cbv iota. simpl tail.
  rewrite parse_value_space, (parse_value_flat f 2 v after Hv Ha).
  reflexivity.
Qed.

Lemma ends_number_newline (n : nat) (s : string) : ends_number (newline n ++ s).
Proof. unfold newline. simpl. split; reflexivity. Qed.

Lemma ends_number_separator (s : string) : ends_number (separator ++ s).
Proof. unfold separator. simpl. split; reflexivity. Qed.

Lemma skip_ws_separator (s : string) :
  skip_ws (separator ++ s) = String "," (newline 2 ++ s).
Proof. reflexivity. Qed.

Lemma parse_members_flat (ms : list (string * json)) :
  ms <> [] -> Forall (fun m => flat (snd m)) ms ->
  forall (f : nat) (rest : string), (List.length ms <= f)%nat ->
  parse_members (S f)
    (newline 2 ++ join separator (List.map member_text ms)
       ++ newline 0 ++ String "}" rest) = Some (ms, rest).
Proof.
  induction ms as [|[k v] ms IH]; [congruence|].
  intros _ Hflat f rest Hf.
  inversion Hflat as [|m l Hv Hrest]; subst. simpl snd in Hv.
  destruct f as [|f]; [simpl in Hf; lia|].
  destruct ms as [|m' ms'].
  - simpl join.
    rewrite (parse_members_step f k v _ Hv (ends_number_newline 0 _)).
    rewrite skip_ws_newline. reflexivity.
  - change (join separator (List.map member_text ((k, v) :: m' :: ms')))
      with (member_text (k, v) ++ separator
              ++ join separator (List.map member_text (m' :: ms')))%string.
    rewrite !append_assoc.
    rewrite (parse_members_step f k v _ Hv (ends_number_separator _)).
    rewrite skip_ws_separator.
    change (head_is "," (String "," ?x)) with true. cbv iota.
    change (tail (String "," ?x)) with x.
    rewrite IH; [reflexivity | discriminate | exact Hrest | simpl in *; lia].
Qed.

Lemma length_append (a b : string) :
  String.length (a ++ b) = (String.length a + String.length b)%nat.
Proof. induction a as [|c a IH]; simpl; [reflexivity | now rewrite IH]. Qed.

Lemma length_member_text (m : string * json) : (1 <= String.length (member_text m))%nat.
Proof. unfold member_text, quote. simpl. lia. Qed.

Lemma length_join_members (ms : list (string * json)) :
  (List.length ms <= String.length (join separator (List.map member_text ms)))%nat.
Proof.
  induction ms as [|m ms IH]; [simpl; lia|].
  destruct ms as [|m' ms'].
  - simpl. pose proof (length_member_text m). lia.
  - change (join separator (List.map member_text (m :: m' :: ms')))
      with (member_text m ++ separator
              ++ join separator (List.map member_text (m' :: ms')))%string.
    rewrite !length_append. pose proof (length_member_text m).
    simpl List.length in *. lia.
Qed.

Lemma stringify_object (m : string * json) (ms : list (string * json)) :
  JSON_stringify (JObj (m :: ms)) =
  String "{" (newline 2 ++ join separator (List.map member_text (m :: ms))
                ++ newline 0 ++ String "}" EmptyString).
Proof. reflexivity. Qed.

Lemma skip_ws_member_text (m : string * json) (s : string) :
  head_is "}" (skip_ws (member_text m ++ s)) = false.
Proof. unfold member_text. rewrite !append_assoc, quote_unfold. reflexivity. Qed.

Lemma join_members_head (m : string * json) (ms : list (string * json)) (s : string) :
  head_is "}" (skip_ws (join separator (List.map member_text (m :: ms)) ++ s)) = false.
Proof.
  destruct ms as [|m' ms'].
  - simpl join. apply skip_ws_member_text.
  - change (join separator (List.map member_text (m :: m' :: ms')))
      with (member_text m ++ separator
              ++ join separator (List.map member_text (m' :: ms')))%string.
    rewrite append_assoc. apply skip_ws_member_text.
Qed.

(** [JSON.parse] reads back what [JSON.stringify] wrote for an object
    whose members are null, booleans, numbers or strings. *)
Lemma JSON_parse_stringify_flat (ms : list (string * json)) :
  ms <> [] -> Forall (fun m => flat (snd m)) ms ->
  JSON_parse (JSON_stringify (JObj ms)) = Some (JObj ms).
Proof.
  intros Hne Hflat. destruct ms as [|m ms]; [congruence|].
  rewrite stringify_object. unfold JSON_parse.
  set (body := (newline 2 ++ join separator (List.map member_text (m :: ms))
                  ++ newline 0 ++ String "}" EmptyString)%string).
  assert (Hlen : (List.length (m :: ms) < String.length body)%nat).
  { unfold body. rewrite !length_append.
    pose proof (length_join_members (m :: ms)) as Hj.
    change (String.length (newline 2)) with 3%nat.
    change (String.length (newline 0)) with 1%nat.
    lia. }
  change (String.length (String "{" body)) with (S (String.length body)).
  destruct (String.length body) as [|f] eqn:Ef; [lia|].
  rewrite parse_value_eq. cbv zeta.
  change (skip_ws (String "{" body)) with (String "{" body).
  change (head_is dquote (String "{" body)) with false.
  change (head_is "[" (String "{" body)) with false.
  change (head_is "{" (String "{" body)) with true.
  cbv iota. change (tail (String "{" body)) with body.
  assert (Hhead : head_is "}" (skip_ws body) = false).
  { unfold body. rewrite skip_ws_newline. apply join_members_head. }
  rewrite Hhead. unfold body.
  rewrite (parse_members_flat (m :: ms) Hne Hflat (S f) EmptyString) by lia.
  reflexivity.
Qed.

(** *** What [JSON_parse] accepts, [is_json] accepts *)

Lemma parse_magnitude_skip (s : string) (u : Decimal.uint) (rest : string) :
  parse_magnitude s = Some (u, rest) ->
  skip_int s = Some rest /\ starts_fraction rest = false.
Proof.
  unfold parse_magnitude, skip_int. destruct (scan_digits s) as [d r].
  destruct d as [|d|d|d|d|d|d|d|d|d|d]; try discriminate;
    try (destruct (starts_fraction r) eqn:Hf; intros H; [discriminate|];
         injection H as _ <-; split; [reflexivity | exact Hf]).
  destruct d; try discriminate.
  destruct (starts_fraction r) eqn:Hf; intros H; [discriminate|].
  injection H as _ <-. split; [reflexivity | exact Hf].
Qed.

Lemma skip_after_integer (rest : string) :
  starts_fraction rest = false ->
  skip_fraction rest = Some rest /\ skip_exponent rest = Some rest.
Proof.
  destruct rest as [|c r]; [split; reflexivity|]. unfold starts_fraction.
  intros H. apply Bool.orb_false_iff in H. destruct H as [H He].
  apply Bool.orb_false_iff in H. destruct H as [Hd Hl].
  unfold skip_fraction, skip_exponent. rewrite Hd, Hl, He. split; reflexivity.
Qed.

Lemma parse_number_skip (s : string) (z : Z) (rest : string) :
  parse_number s = Some (z, rest) -> skip_number s = Some rest.
Proof.
  assert (Hbody : forall body u, parse_magnitude body = Some (u, rest) ->
            match skip_int body with
            | Some rest0 =>
                match skip_fraction rest0 with
                | Some rest' => skip_exponent rest'
                | None => None
                end
            | None => None
            end = Some rest).
  { intros body u H. destruct (parse_magnitude_skip body u rest H) as [Hi Hf].
    destruct (skip_after_integer rest Hf) as [Hfr He]. rewrite Hi, Hfr. exact He. }
  unfold parse_number, skip_number, skip_minus. destruct s as [|c r]; [discriminate|].
  destruct (code c =? 45)%N.
  - destruct (parse_magnitude r) as [[u rest0]|] eqn:Hm; [|discriminate].
    intros H. injection H as _ <-. exact (Hbody r u Hm).
  - destruct (parse_magnitude (String c r)) as [[u rest0]|] eqn:Hm; [|discriminate].
    intros H. injection H as _ <-. exact (Hbody (String c r) u Hm).
Qed.

Lemma cons_char_Some (c : ascii) (x : option (string * string)) (str rest : string) :
  cons_char c x = Some (str, rest) -> exists str', x = Some (str', rest).
Proof.
  destruct x as [[s0 r0]|]; [|discriminate]. simpl. intros H.
  injection H as _ <-. exists s0. reflexivity.
Qed.

Lemma unicode_escape_hex (h1 h2 h3 h4 u : ascii) :
  unicode_escape h1 h2 h3 h4 = Some u ->
  is_hex h1 && is_hex h2 && is_hex h3 && is_hex h4 = true.
Proof.
  unfold unicode_escape, is_hex.
  destruct (hex_value h1), (hex_value h2), (hex_value h3), (hex_value h4);
    try discriminate; reflexivity.
Qed.

Lemma parse_chars_skip (n : nat) :
  forall s str rest,
    (String.length s <= n)%nat ->
    parse_chars s = Some (str, rest) -> skip_chars s = Some rest.
Proof.
  induction n as [|n IH]; intros s str rest Hlen H.
  - destruct s; [discriminate | simpl in Hlen; lia].
  - destruct s as [|c r]; [discriminate|]. simpl in H, Hlen. simpl.
    destruct (code c =? 34)%N; [injection H as _ <-; reflexivity|].
    destruct (code c =? 92)%N.
    + destruct r as [|e r']; [discriminate|].
      destruct (code e =? 117)%N.
      * destruct r' as [|h1 [|h2 [|h3 [|h4 r'']]]]; try discriminate.
        destruct (unicode_escape h1 h2 h3 h4) as [u|] eqn:Hu; [|discriminate].
        rewrite (unicode_escape_hex _ _ _ _ _ Hu).
        apply cons_char_Some in H. destruct H as (str' & H).
        apply (IH r'' str' rest); [simpl in Hlen; lia | exact H].
      * destruct (simple_escape e) as [u|]; [|discriminate].
        apply cons_char_Some in H. destruct H as (str' & H).
        apply (IH r' str' rest); [simpl in Hlen; lia | exact H].
    + destruct (code c <? 32)%N; [discriminate|].
      apply cons_char_Some in H. destruct H as (str' & H).
      apply (IH r str' rest); [lia | exact H].
Qed.

Lemma skip_value_eq (f : nat) (s : string) :
  skip_value (S f) s =
  let t := skip_ws s in
  if head_is dquote t then skip_chars (tail t)
  else if head_is "[" t then
    if head_is "]" (skip_ws (tail t)) then Some (tail (skip_ws (tail t)))
    else skip_items f (tail t)
  else if head_is "{" t then
    if head_is "}" (skip_ws (tail t)) then Some (tail (skip_ws (tail t)))
    else skip_members f (tail t)
  else if head_is "n" t then expect "null" t
  else if head_is "t" t then expect "true" t
  else if head_is "f" t then expect "false" t
  else skip_number t.
Proof. reflexivity. Qed.

Lemma parse_items_eq (f : nat) (s : string) :
  parse_items (S f) s =
  match parse_value f s with
  | Some (x, rest) =>
      let t := skip_ws rest in
      if head_is "," t then
        match parse_items f (tail t) with
        | Some (xs, rest') => Some (x :: xs, rest')
        | None => None
        end
      else if head_is "]" t then Some ([x], tail t)
      else None
  | None => None
  end.
Proof. reflexivity. Qed.

Lemma skip_items_eq (f : nat) (s : string) :
  skip_items (S f) s =
  match skip_value f s with
  | Some rest =>
      let t := skip_ws rest in
      if head_is "," t then skip_items f (tail t)
      else if head_is "]" t then Some (tail t)
      else None
  | None => None
  end.
Proof. reflexivity. Qed.

Lemma skip_members_eq (f : nat) (s : string) :
  skip_members (S f) s =
  let t := skip_ws s in
  if head_is dquote t then
    match skip_chars (tail t) with
    | Some rest =>
        if head_is ":" (skip_ws rest) then
          match skip_value f (tail (skip_ws rest)) with
          | Some rest' =>
              let t' := skip_ws rest' in
              if head_is "," t' then skip_members f (tail t')
              else if head_is "}" t' then Some (tail t')
              else None
          | None => None
          end
        else None
    | None => None
    end
  else None.
Proof. reflexivity. Qed.

Lemma parse_skip (f : nat) :
  (forall s v rest, parse_value f s = Some (v, rest) -> skip_value f s = Some rest)
  /\ (forall s xs rest, parse_items f s = Some (xs, rest) -> skip_items f s = Some rest)
  /\ (forall s ms rest,
        parse_members f s = Some (ms, rest) -> skip_members f s = Some rest).
Proof.
  induction f as [|f (IHv & IHi & IHm)];
    [split; [|split]; intros; discriminate|].
  split; [|split].
  - intros s v rest. rewrite parse_value_eq, skip_value_eq. cbv zeta.
    set (t := skip_ws s).
    destruct (head_is dquote t).
    { destruct (parse_chars (tail t)) as [[str r0]|] eqn:Hc; [|discriminate].
      intros H. injection H as _ <-.
      exact (parse_chars_skip _ _ _ _ (Nat.le_refl _) Hc). }
    destruct (head_is "[" t).
    { destruct (head_is "]" (skip_ws (tail t))).
      - intros H. injection H as _ <-. reflexivity.
      - destruct (parse_items f (tail t)) as [[xs r0]|] eqn:Hi; [|discriminate].
        intros H. injection H as _ <-. exact (IHi _ _ _ Hi). }
    destruct (head_is "{" t).
    { destruct (head_is "}" (skip_ws (tail t))).
      - intros H. injection H as _ <-. reflexivity.
      - destruct (parse_members f (tail t)) as [[ms r0]|] eqn:Hm; [|discriminate].
        intros H. injection H as _ <-. exact (IHm _ _ _ Hm). }
    destruct (head_is "n" t).
    { destruct (expect "null" t); [|discriminate].
      intros H. injection H as _ <-. reflexivity. }
    destruct (head_is "t" t).
    { destruct (expect "true" t); [|discriminate].
      intros H. injection H as _ <-. reflexivity. }
    destruct (head_is "f" t).
    { destruct (expect "false" t); [|discriminate].
      intros H. injection H as _ <-. reflexivity. }
    destruct (parse_number t) as [[z r0]|] eqn:Hn; [|discriminate].
    intros H. injection H as _ <-. exact (parse_number_skip _ _ _ Hn).
  - intros s xs rest. rewrite parse_items_eq, skip_items_eq.
    destruct (parse_value f s) as [[x r0]|] eqn:Hv; [|discriminate].
    rewrite (IHv _ _ _ Hv). cbv zeta.
    destruct (head_is "," (skip_ws r0)).
    { destruct (parse_items f (tail (skip_ws r0))) as [[xs' r1]|] eqn:Hi; [|discriminate].
      intros H. injection H as _ <-. exact (IHi _ _ _ Hi). }
    destruct (head_is "]" (skip_ws r0)); [|discriminate].
    intros H. injection H as _ <-. reflexivity.
  - intros s ms rest. rewrite parse_members_eq, skip_members_eq. cbv zeta.
    destruct (head_is dquote (skip_ws s)); [|discriminate].
    destruct (parse_chars (tail (skip_ws s))) as [[k r0]|] eqn:Hc; [|discriminate].
    rewrite (parse_chars_skip _ _ _ _ (Nat.le_refl _) Hc).
    destruct (head_is ":" (skip_ws r0)); [|discriminate].
    destruct (parse_value f (tail (skip_ws r0))) as [[v r1]|] eqn:Hv; [|discriminate].
    rewrite (IHv _ _ _ Hv).
    destruct (head_is "," (skip_ws r1)).
    { destruct (parse_members f (tail (skip_ws r1))) as [[ms' r2]|] eqn:Hm; [|discriminate].
      intros H. injection H as _ <-. exact (IHm _ _ _ Hm). }
    destruct (head_is "}" (skip_ws r1)); [|discriminate].
    intros H. injection H as _ <-. reflexivity.
Qed.

(** A text that [JSON_parse] turns into a value is JSON; so on a text that
    is not JSON, [JSON_parse] gives nothing, as [JSON.parse] throws. *)
Lemma JSON_parse_is_json (s : string) (v : json) :
  JSON_parse s = Some v -> is_json s = true.
Proof.
  unfold JSON_parse, is_json.
  destruct (parse_value (S (String.length s)) s) as [[v0 rest]|] eqn:Hp; [|discriminate].
  rewrite (proj1 (parse_skip _) _ _ _ Hp).
  destruct (skip_ws rest); [reflexivity | discriminate].
Qed.

Lemma not_json_refused (s : string) : is_json s = false -> JSON_parse s = None.
Proof.
  intros H. destruct (JSON_parse s) as [v|] eqn:Hp; [|reflexivity].
  rewrite (JSON_parse_is_json s v Hp) in H. discriminate.
Qed.

End JSFacts.

(* ===================================================================== *)
(** * Framing: what a computation leaves alone *)
(* ===================================================================== *)

Module FrameFacts.
Import Runtime Auth.
Local Open Scope js_scope.

Section Frame.

Variable R : World -> World -> Prop.
Hypothesis R_refl : forall w, R w w.
Hypothesis R_trans : forall w1 w2 w3, R w1 w2 -> R w2 w3 -> R w1 w3.

Lemma preserves_ret {A : Type} (a : A) : preserves R (ret a).
Proof. intros w. apply R_refl. Qed.

Lemma preserves_throw {A : Type} (e : exn) : preserves R (@throw A e).
Proof. intros w. apply R_refl. Qed.

Lemma preserves_read {A : Type} (f : World -> A) : preserves R (read f).
Proof. intros w. apply R_refl. Qed.

Lemma preserves_update (f : World -> World) :
  (forall w, R w (f w)) -> preserves R (update f).
Proof. intros H w. apply H. Qed.

Lemma preserves_bind {A B : Type} (c : M A) (k : A -> M B) :
  preserves R c -> (forall a, preserves R (k a)) -> preserves R (bind c k).
Proof.
  intros Hc Hk w. unfold bind. specialize (Hc w).
  destruct (c w) as [[a|e] w1]; simpl in *.
  - eapply R_trans; [exact Hc | apply Hk].
  - exact Hc.
Qed.

Lemma preserves_try_catch {A : Type} (c : M A) (h : exn -> M A) :
  preserves R c -> (forall e, preserves R (h e)) -> preserves R (try_catch c h).
Proof.
  intros Hc Hh w. unfold try_catch. specialize (Hc w).
  destruct (c w) as [[a|e] w1]; simpl in *.
  - exact Hc.
  - eapply R_trans; [exact Hc | apply Hh].
Qed.

Lemma preserves_when (b : bool) (c : M unit) :
  preserves R c -> preserves R (when b c).
Proof. intros Hc. destruct b; simpl; [exact Hc | apply preserves_ret]. Qed.

End Frame.

(** Splits a computation into its primitive steps; what remains are the
    assignments and the logged actions. *)
Ltac frame_split Hrefl Htrans :=
  repeat
    match goal with
    | |- preserves _ (ret _) => apply (preserves_ret _ Hrefl)
    | |- preserves _ (throw _) => apply (preserves_throw _ Hrefl)
    | |- preserves _ (read _) => apply (preserves_read _ Hrefl)
    | |- preserves _ (when _ _) => apply (preserves_when _ Hrefl)
    | |- preserves _ (bind _ _) => apply (preserves_bind _ Htrans); [|intros ?]
    | |- preserves _ (try_catch _ _) => apply (preserves_try_catch _ Htrans); [|intros ?]
    | |- preserves _ (emit _) => unfold emit
    | |- preserves _ (update _) => apply preserves_update; intros ?
    | |- preserves _ (if ?b then _ else _) => destruct b
    | |- preserves _ (match ?x with _ => _ end) => destruct x
    end.

Ltac frame_unfold :=
  unfold existsSync, readFileSync, mkdirSync, writeFileSync, JSON_parse, prop,
    toISOString, axios_post_token, axios, emit, isPortInUse, open, execAsync_kill,
    new_promise, settle.

End FrameFacts.

(* ===================================================================== *)
(** * Facts about the token store and the token manager *)
(* ===================================================================== *)

Module TokenFacts.
Import Runtime Auth Process FrameFacts.
Local Open Scope js_scope.

Lemma present_Some (s : string) : present (Some s) = true <-> s <> "".
Proof.
  unfold present. simpl. destruct (String.eqb_spec s ""); simpl; split; congruence.
Qed.

Lemma present_nonempty (s : string) : s <> "" -> present (Some s) = true.
Proof. apply present_Some. Qed.

Lemma present_None : present None = false.
Proof. reflexivity. Qed.

(** Unfolding of the monad operations on a symbolic world. *)
Ltac step :=
  unfold bind, read, update, ret, throw, when, try_catch, emit; simpl.

Lemma ensureToken_fresh (v : variant) (now : Z) (remote : Remote) (w : World) (tok : string) :
  accessToken w = Some tok -> tok <> "" -> now + 60000 < tokenExpirationTime w ->
  ensureToken v now remote w = (Normal (Some tok), w).
Proof.
  intros Ha Htok Hexp.
  assert (Hp : present (accessToken w) = true) by (rewrite Ha; now apply present_nonempty).
  assert (Hlt : (now <? tokenExpirationTime w - 60000) = true) by (apply Z.ltb_lt; lia).
  destruct v; unfold ensureToken, Build.ensureToken, Build.preload, Src.ensureToken; step;
    rewrite ?Hp; simpl; rewrite ?Hp, ?Hlt; simpl; rewrite Ha; reflexivity.
Qed.

(** *** The token store *)

Lemma trim_keeps_head (c : ascii) (s : string) :
  JS.is_trim_space c = false -> String.eqb (JS.trim (String c s)) "" = false.
Proof.
  intros Hc. unfold JS.trim. simpl. rewrite Hc. simpl.
  destruct (JS.trimEnd s); [rewrite Hc|]; reflexivity.
Qed.

Lemma trim_tokenData (a r : option string) (t : Z) :
  String.eqb (JS.trim (JS.JSON_stringify (tokenData a r t))) "" = false.
Proof.
  unfold tokenData. rewrite JSFacts.stringify_object. apply trim_keeps_head. reflexivity.
Qed.

Lemma parse_tokenData (a r : option string) (t : Z) :
  JS.JSON_parse (JS.JSON_stringify (tokenData a r t)) = Some (tokenData a r t).
Proof.
  apply JSFacts.JSON_parse_stringify_flat; [discriminate|].
  repeat constructor; simpl; destruct a, r; exact I.
Qed.

#[local] Opaque JS.JSON_parse JS.JSON_stringify.

Lemma loadTokens_unusable (w : World) :
  unusable (disk w) ->
  exists w', Build.loadTokens w = (Normal false, w')
             /\ tokens w' = tokens w /\ disk w' = disk w.
Proof.
  intros Hu.
  destruct w as [a r t srv ps [dx f cw cr] tr]. simpl in Hu.
  unfold Build.loadTokens, Build.loadTokens_try, existsSync, readFileSync, JSON_parse.
  step.
  destruct Hu as [Hf | Hf | c Hf Hc | c Hf Hc];
    try apply JSFacts.not_json_refused in Hc; simpl in Hf; subst f; simpl.
  - eexists; repeat split.
  - destruct cr; simpl; eexists; repeat split.
  - destruct cr; simpl; [rewrite Hc; simpl|]; eexists; repeat split.
  - destruct cr; simpl; [|eexists; repeat split].
    destruct (String.eqb (JS.trim c) ""); simpl; [eexists; repeat split|].
    rewrite Hc. simpl. eexists; repeat split.
Qed.

Lemma loadTokens_incomplete (w : World) (c : string) (doc : JS.json) :
  file (disk w) = Some c -> JS.JSON_parse c = Some doc ->
  JS.truthy (member doc "accessToken") = false
  \/ JS.truthy (member doc "refreshToken") = false ->
  exists w', Build.loadTokens w = (Normal false, w')
             /\ tokens w' = tokens w /\ disk w' = disk w.
Proof.
  intros Hf Hc Hm.
  destruct w as [a r t srv ps [dx f cw cr] tr]. simpl in Hf. subst f.
  unfold Build.loadTokens, Build.loadTokens_try, existsSync, readFileSync, JSON_parse.
  step.
  destruct cr; simpl; [|eexists; repeat split].
  destruct (String.eqb (JS.trim c) ""); simpl; [eexists; repeat split|].
  rewrite Hc. simpl.
  destruct doc as [|b|z|str|items|ms]; simpl in Hm |- *;
    try (eexists; repeat split; fail).
  destruct (JS.truthy (JS.lookup "accessToken" ms)) eqn:Ea; simpl;
    [|eexists; repeat split].
  destruct Hm as [Hm | Hm]; [discriminate|].
  rewrite Hm. simpl. eexists; repeat split.
Qed.

Lemma loadTokens_complete (w : World) (c a r : string) (t : Z) :
  file (disk w) = Some c -> can_read (disk w) = true ->
  String.eqb (JS.trim c) "" = false ->
  JS.JSON_parse c = Some (tokenData (Some a) (Some r) t) ->
  a <> "" -> r <> "" ->
  exists w', Build.loadTokens w = (Normal (JS.valid_time t), w')
             /\ tokens w' = (Some a, Some r, t) /\ disk w' = disk w.
Proof.
  intros Hf Hr Htrim Hc Ha Hrt.
  apply present_nonempty in Ha. apply present_nonempty in Hrt.
  unfold present in Ha, Hrt. simpl in Ha, Hrt.
  destruct w as [a0 r0 t0 srv ps [dx f cw cr] tr]. simpl in Hf, Hr. subst f cr.
  unfold Build.loadTokens, Build.loadTokens_try, existsSync, readFileSync, JSON_parse,
    toISOString.
  step. rewrite Htrim. simpl. rewrite Hc. simpl.
  rewrite Ha, Hrt. simpl.
  destruct (JS.valid_time t); simpl; eexists; repeat split.
Qed.

Lemma loadTokens_total (w : World) :
  exists b w', Build.loadTokens w = (Normal b, w').
Proof.
  unfold Build.loadTokens, try_catch.
  destruct (Build.loadTokens_try w) as [[b|e] w']; eauto.
  unfold ret. eauto.
Qed.

Lemma saveTokens_writable (w : World) :
  can_write (disk w) = true ->
  exists w', Build.saveTokens w = (Normal tt, w')
             /\ tokens w' = tokens w
             /\ file (disk w') =
                Some (JS.JSON_stringify
                        (tokenData (accessToken w) (refreshToken w) (tokenExpirationTime w)))
             /\ can_read (disk w') = can_read (disk w)
             /\ can_write (disk w') = true.
Proof.
  intros Hw. destruct w as [a r t srv ps [dx f cw cr] tr]. simpl in Hw. subst cw.
  unfold Build.saveTokens, Build.ensureTokenDirExists, existsSync, mkdirSync, writeFileSync.
  step. destruct dx; simpl; eexists; repeat split.
Qed.

Lemma saveTokens_readonly (w : World) :
  can_write (disk w) = false ->
  exists w', Build.saveTokens w = (Normal tt, w')
             /\ tokens w' = tokens w /\ disk w' = disk w.
Proof.
  intros Hw. destruct w as [a r t srv ps [dx f cw cr] tr]. simpl in Hw. subst cw.
  unfold Build.saveTokens, Build.ensureTokenDirExists, existsSync, mkdirSync, writeFileSync.
  step. destruct dx; simpl; eexists; repeat split.
Qed.

Lemma saveTokens_total (w : World) :
  exists w', Build.saveTokens w = (Normal tt, w') /\ tokens w' = tokens w.
Proof.
  destruct (can_write (disk w)) eqn:Hw.
  - destruct (saveTokens_writable w Hw) as (w' & H & Ht & _). eauto.
  - destruct (saveTokens_readonly w Hw) as (w' & H & Ht & _). eauto.
Qed.

Lemma preload_skipped (w : World) :
  present (accessToken w) || present (refreshToken w) = true ->
  Build.preload w = (Normal tt, w).
Proof.
  intros H. unfold Build.preload. step.
  destruct (present (accessToken w)), (present (refreshToken w));
    try discriminate; reflexivity.
Qed.

Lemma same_disk_refl (w : World) : same_disk w w.
Proof. reflexivity. Qed.

Lemma same_disk_trans (w1 w2 w3 : World) :
  same_disk w1 w2 -> same_disk w2 w3 -> same_disk w1 w3.
Proof. unfold same_disk. congruence. Qed.

Lemma loadTokens_same_disk : preserves same_disk Build.loadTokens.
Proof.
  unfold Build.loadTokens, Build.loadTokens_try. frame_unfold.
  frame_split same_disk_refl same_disk_trans; reflexivity.
Qed.

Lemma preload_total (w : World) :
  exists w', Build.preload w = (Normal tt, w') /\ disk w' = disk w.
Proof.
  unfold Build.preload. step.
  destruct (negb (present (accessToken w)) && negb (present (refreshToken w)));
    [|unfold ret; eauto].
  destruct (loadTokens_total w) as (b & w' & H). rewrite H.
  exists w'. split; [reflexivity|].
  pose proof (loadTokens_same_disk w) as Hd. rewrite H in Hd. exact Hd.
Qed.

Lemma save_then_load (w : World) (a r : string) :
  accessToken w = Some a -> refreshToken w = Some r -> a <> "" -> r <> "" ->
  can_write (disk w) = true -> can_read (disk w) = true ->
  exists w2,
    Build.loadTokens (fresh_process (disk (snd (Build.saveTokens w))))
    = (Normal (JS.valid_time (tokenExpirationTime w)), w2)
    /\ tokens w2 = tokens w.
Proof.
  intros Ha Hr Hane Hrne Hw Hrd.
  destruct (saveTokens_writable w Hw) as (w1 & Hs & _ & Hf & Hcr & _).
  rewrite Hs. simpl snd. rewrite Ha, Hr in Hf.
  destruct (loadTokens_complete (fresh_process (disk w1))
              (JS.JSON_stringify (tokenData (Some a) (Some r) (tokenExpirationTime w)))
              a r (tokenExpirationTime w))
    as (w2 & Hl & Ht & _); simpl;
    try assumption; try congruence;
    try apply trim_tokenData; try apply parse_tokenData.
  exists w2. split; [exact Hl|]. unfold tokens at 2. rewrite Ha, Hr. exact Ht.
Qed.

Lemma ensureToken_without_file (now : Z) (remote : Remote) (w : World) :
  unusable (disk w) -> accessToken w = None -> refreshToken w = None ->
  exists w', Build.ensureToken now remote w = (Normal None, w')
             /\ tokens w' = tokens w /\ disk w' = disk w.
Proof.
  intros Hu Ha Hr.
  destruct (loadTokens_unusable w Hu) as (w1 & Hl & Ht & Hd).
  unfold Build.ensureToken, Build.preload. step.
  rewrite Ha, Hr. simpl. rewrite Hl. simpl.
  unfold tokens in Ht. rewrite Ha, Hr in Ht.
  injection Ht as Ha1 Hr1 Ht1. rewrite Ha1. simpl. rewrite Hr1. simpl.
  exists w1. repeat split; try assumption.
  unfold tokens. congruence.
Qed.

(** *** The refresh exchange *)

Ltac use_saveTokens :=
  match goal with
  | |- context [Build.saveTokens ?x] =>
      let w3 := fresh "w3" in
      let Hs := fresh "Hs" in
      let Ht := fresh "Ht" in
      destruct (saveTokens_total x) as (w3 & Hs & Ht); rewrite Hs; simpl
  end.

Lemma build_refresh_succeeds (now : Z) (remote : Remote) (w w1 : World)
    (r : string) (resp : token_response) :
  Build.preload w = (Normal tt, w1) ->
  refreshToken w1 = Some r -> r <> "" -> stale now w1 ->
  token_endpoint remote (RefreshGrant r) = TokenOk resp ->
  exists w', Build.ensureToken now remote w = (Normal (Some (access_token resp)), w')
             /\ tokens w' =
                (Some (access_token resp),
                 (if present (refresh_token resp) then refresh_token resp else Some r),
                 now + expires_in resp * 1000).
Proof.
  intros Hpre Hr Hne Hstale Hok.
  assert (Hp : present (refreshToken w1) = true) by (rewrite Hr; now apply present_nonempty).
  unfold stale in Hstale.
  unfold Build.ensureToken. unfold bind at 1. rewrite Hpre.
  unfold Build.store_refreshed, axios_post_token. step.
  rewrite Hstale, Hp, Hr. simpl. rewrite Hok. simpl.
  destruct (present (refresh_token resp)) eqn:Hn; simpl;
    use_saveTokens; unfold tokens in Ht; simpl in Ht;
    exists w3; (split; [congruence|]); unfold tokens; rewrite Ht, ?Hr; reflexivity.
Qed.

Lemma src_refresh_succeeds (now : Z) (remote : Remote) (w : World)
    (r : string) (resp : token_response) :
  refreshToken w = Some r -> r <> "" -> stale now w ->
  token_endpoint remote (RefreshGrant r) = TokenOk resp ->
  exists w', Src.ensureToken now remote w = (Normal (Some (access_token resp)), w')
             /\ tokens w' =
                (Some (access_token resp),
                 (if present (refresh_token resp) then refresh_token resp else Some r),
                 now + expires_in resp * 1000).
Proof.
  intros Hr Hne Hstale Hok.
  assert (Hp : present (refreshToken w) = true) by (rewrite Hr; now apply present_nonempty).
  unfold stale in Hstale.
  unfold Src.ensureToken, axios_post_token. step.
  rewrite Hstale, Hp, Hr. simpl. rewrite Hok. simpl.
  destruct (present (refresh_token resp)) eqn:Hn; simpl;
    eexists; (split; [reflexivity|]); unfold tokens; simpl; rewrite ?Hr; reflexivity.
Qed.

Lemma build_refresh_fails (now : Z) (remote : Remote) (w w1 : World)
    (r msg : string) :
  Build.preload w = (Normal tt, w1) ->
  refreshToken w1 = Some r -> r <> "" -> stale now w1 ->
  token_endpoint remote (RefreshGrant r) = TokenFail msg ->
  exists w', Build.ensureToken now remote w = (Normal None, w')
             /\ tokens w' = (None, None, 0)
             /\ (can_write (disk w1) = true ->
                 file (disk w') = Some (JS.JSON_stringify (tokenData None None 0)))
             /\ (can_write (disk w1) = false -> disk w' = disk w1).
Proof.
  intros Hpre Hr Hne Hstale Hfail.
  assert (Hp : present (refreshToken w1) = true) by (rewrite Hr; now apply present_nonempty).
  unfold stale in Hstale.
  unfold Build.ensureToken. unfold bind at 1. rewrite Hpre.
  unfold Build.store_refreshed, Build.clear_tokens, axios_post_token. step.
  rewrite Hstale, Hp, Hr. simpl. rewrite Hfail. simpl.
  match goal with
  | |- context [Build.saveTokens ?x] => set (wc := x)
  end.
  destruct (can_write (disk w1)) eqn:Hw.
  - destruct (saveTokens_writable wc Hw) as (w3 & Hs & Ht & Hf & _).
    rewrite Hs. simpl. exists w3.
    split; [reflexivity|]. split; [exact Ht|]. split; [intros _; exact Hf | discriminate].
  - destruct (saveTokens_readonly wc Hw) as (w3 & Hs & Ht & Hd).
    rewrite Hs. simpl. exists w3.
    split; [reflexivity|]. split; [exact Ht|]. split; [discriminate | intros _; exact Hd].
Qed.

Lemma src_refresh_fails (now : Z) (remote : Remote) (w : World) (r msg : string) :
  refreshToken w = Some r -> r <> "" -> stale now w ->
  token_endpoint remote (RefreshGrant r) = TokenFail msg ->
  exists w', Src.ensureToken now remote w = (Normal None, w')
             /\ tokens w' = (None, None, 0) /\ disk w' = disk w.
Proof.
  intros Hr Hne Hstale Hfail.
  assert (Hp : present (refreshToken w) = true) by (rewrite Hr; now apply present_nonempty).
  unfold stale in Hstale.
  unfold Src.ensureToken, axios_post_token. step.
  rewrite Hstale, Hp, Hr. simpl. rewrite Hfail. simpl.
  eexists; repeat split.
Qed.

(** *** The request executor *)














Lemma build_rejected (now : Z) (remote : Remote) (endpoint method : string)
    (data : JS.jsval) (w : World) (tok r msg : string) (body : JS.json) :
  accessToken w = Some tok -> tok <> "" ->
  refreshToken w = Some r -> r <> "" ->
  now + 60000 < tokenExpirationTime w ->
  api remote (request method endpoint tok data) = ApiFail msg (Some (401, body)) ->
  Build.spotifyApiRequest now remote endpoint method data w =
  (Throw (Error "Authorization expired. Please authenticate again."),
   set_tokenExpirationTime 0
     (set_refreshToken None
        (set_accessToken None (log (ApiCall (request method endpoint tok data)) w)))).
Proof.
  intros Ha Htok Hr Hrne Hexp Hapi.
  assert (Hpa : present (accessToken w) = true) by (rewrite Ha; now apply present_nonempty).
  assert (Hpr : present (refreshToken w) = true) by (rewrite Hr; now apply present_nonempty).
  assert (Hge : (now >=? tokenExpirationTime w - 60000) = false) by (rewrite Z.geb_leb; apply Z.leb_gt; lia).
  unfold Build.spotifyApiRequest, Build.on_api_error, Build.clear_tokens, axios. step.
  rewrite Hpa, Hpr. simpl. rewrite Hpa. simpl. rewrite Hge. simpl.
  rewrite Ha. simpl. unfold request in Hapi. rewrite Hapi. reflexivity.
Qed.


(** After a 401 the build variant forgets the token in memory only: as long
    as the file holds the record, the next [ensureToken] brings the
    rejected token back. *)
Lemma rejected_token_comes_back (now : Z) (remote : Remote) (endpoint method : string)
    (data : JS.jsval) (w : World) (a r msg : string) (body : JS.json) :
  accessToken w = Some a -> a <> "" ->
  refreshToken w = Some r -> r <> "" ->
  now + 60000 < tokenExpirationTime w ->
  file (disk w)
  = Some (JS.JSON_stringify (tokenData (Some a) (Some r) (tokenExpirationTime w))) ->
  can_read (disk w) = true ->
  api remote (request method endpoint a data) = ApiFail msg (Some (401, body)) ->
  let w1 := snd (Build.spotifyApiRequest now remote endpoint method data w) in
  tokens w1 = (None, None, 0) /\ disk w1 = disk w
  /\ exists w2, Build.ensureToken now remote w1 = (Normal (Some a), w2)
                /\ tokens w2 = tokens w.
Proof.
  intros Ha Hane Hr Hrne Hexp Hfile Hread Hapi w1.
  subst w1.
  rewrite (build_rejected now remote endpoint method data w a r msg body
             Ha Hane Hr Hrne Hexp Hapi).
  simpl snd.
  set (w1 := set_tokenExpirationTime 0
               (set_refreshToken None
                  (set_accessToken None
                     (log (ApiCall (request method endpoint a data)) w)))).
  split; [reflexivity|]. split; [reflexivity|].
  destruct (loadTokens_complete w1
              (JS.JSON_stringify (tokenData (Some a) (Some r) (tokenExpirationTime w)))
              a r (tokenExpirationTime w))
    as (w2 & Hl & Ht & _);
    try assumption; try apply trim_tokenData; try apply parse_tokenData.
  exists w2.
  unfold tokens in Ht. injection Ht as Ha2 Hr2 Ht2.
  assert (Hlt : (now <? tokenExpirationTime w2 - 60000) = true)
    by (rewrite Ht2; apply Z.ltb_lt; lia).
  unfold Build.ensureToken, Build.preload. step.
  rewrite Hl. simpl. rewrite Ha2, Hlt.
  rewrite (present_nonempty a Hane). simpl.
  split; [reflexivity|]. unfold tokens. congruence.
Qed.

End TokenFacts.

(* ===================================================================== *)
(** * Facts about the authorization server *)
(* ===================================================================== *)

Module AuthFacts.
Import Runtime Auth Process FrameFacts.
Local Open Scope js_scope.

Ltac step :=
  unfold bind, read, update, ret, throw, when, try_catch, emit; simpl.

Lemma listen_calls_log (e : event) (w : World) :
  listen_calls (log e w) = (listen_calls w + if is_listen e then 1 else 0)%nat.
Proof.
  unfold listen_calls. simpl. rewrite List.filter_app, List.length_app. simpl.
  destruct (is_listen e); reflexivity.
Qed.

Lemma listeners_log (e : event) (w : World) :
  listeners (log e w) = (listeners w + if is_bound e then 1 else 0)%nat.
Proof.
  unfold listeners. simpl. rewrite List.filter_app, List.length_app. simpl.
  destruct (is_bound e); reflexivity.
Qed.

Lemma same_server_refl (w : World) : same_server w w.
Proof. repeat split. Qed.

Lemma same_server_trans (w1 w2 w3 : World) :
  same_server w1 w2 -> same_server w2 w3 -> same_server w1 w3.
Proof. unfold same_server. intuition congruence. Qed.

Lemma same_server_log (e : event) (w : World) :
  is_listen e = false -> same_server w (log e w).
Proof.
  intros He. unfold same_server. rewrite listen_calls_log, listeners_log, He.
  assert (Hb : is_bound e = false) by (destruct e; try reflexivity; discriminate).
  rewrite Hb. repeat split; lia.
Qed.

Ltac same_server_step :=
  first [ apply same_server_log; reflexivity | repeat split ].

Lemma build_port_check_frame (env : Env) : preserves same_server (Build.port_check env).
Proof.
  unfold Build.port_check. frame_unfold.
  frame_split same_server_refl same_server_trans; same_server_step.
Qed.

Lemma src_port_check_frame (env : Env) : preserves same_server (Src.port_check env).
Proof.
  unfold Src.port_check. frame_unfold.
  frame_split same_server_refl same_server_trans; same_server_step.
Qed.

(** *** A request while a server object is stored *)

Lemma startAuthServer_reentrant (v : variant) (env : Env) (w : World) (h : server_handle) :
  authServer w = Some h ->
  startAuthServer v env w =
  ((if open_succeeds env then Normal Resolved else Throw (SystemError "spawn ENOENT")),
   log (OpenBrowser login_url) w).
Proof.
  intros Hs. destruct v; simpl; unfold Build.startAuthServer, Src.startAuthServer, open;
    step; rewrite Hs; simpl; destruct (open_succeeds env); reflexivity.
Qed.

(** *** The port is held by another process *)

Lemma src_contention (env : Env) (w : World) :
  authServer w = None -> port_in_use env = true ->
  Src.startAuthServer env w =
  ((if open_succeeds env then Normal Resolved
    else Throw (ServerAlreadyRunningError PORT)),
   log (OpenBrowser login_url) (log ProbePort w)).
Proof.
  intros Hs Hp. unfold Src.startAuthServer, Src.port_check, isPortInUse, open. step.
  rewrite Hs, Hp. simpl. destruct (open_succeeds env); reflexivity.
Qed.

Lemma build_contention (env : Env) (w : World) :
  authServer w = None -> port_in_use env = true ->
  kill_succeeds env = false \/ still_in_use env = true ->
  Build.startAuthServer env w =
  ((if open_succeeds env then Normal Resolved
    else Throw (ServerAlreadyRunningError PORT)),
   log (OpenBrowser login_url)
     (if kill_succeeds env
      then log ProbePort (log Sleep (log KillPortOwner (log ProbePort w)))
      else log KillPortOwner (log ProbePort w))).
Proof.
  intros Hs Hp Hk.
  unfold Build.startAuthServer, Build.port_check, isPortInUse, open, execAsync_kill. step.
  rewrite Hs, Hp. simpl.
  destruct (kill_succeeds env); simpl.
  - destruct Hk as [Hk | Hk]; [discriminate|]. rewrite Hk. simpl.
    destruct (open_succeeds env); reflexivity.
  - destruct (open_succeeds env); reflexivity.
Qed.

Lemma contention_leaves_no_state (v : variant) (env : Env) (w : World) :
  authServer w = None -> port_in_use env = true ->
  v = IndexTs \/ kill_succeeds env = false \/ still_in_use env = true ->
  exists w',
    startAuthServer v env w =
    ((if open_succeeds env then Normal Resolved
      else Throw (ServerAlreadyRunningError PORT)), w')
    /\ listen_calls w' = listen_calls w /\ authServer w' = None
    /\ promises w' = promises w /\ tokens w' = tokens w /\ disk w' = disk w.
Proof.
  intros Hs Hp Hv. destruct v; simpl.
  - destruct Hv as [Hv | Hv]; [discriminate|].
    rewrite (build_contention env w Hs Hp Hv). eexists. split; [reflexivity|].
    destruct (kill_succeeds env); rewrite !listen_calls_log; simpl;
      repeat split; try lia; exact Hs.
  - rewrite (src_contention env w Hs Hp). eexists. split; [reflexivity|].
    rewrite !listen_calls_log; simpl. repeat split; try lia; exact Hs.
Qed.

(** *** The coordinator as a whole *)

Lemma settle_at_pending (id : nat) (st : promise_state) (ps : list promise_state) :
  (List.length (List.filter is_unsettled (settle_at id st ps))
   <= List.length (List.filter is_unsettled ps))%nat.
Proof.
  revert id. induction ps as [|p ps IH]; intros id; [destruct id; simpl; lia|].
  destruct id as [|id]; simpl.
  - destruct p; simpl; destruct (is_unsettled st); simpl; lia.
  - specialize (IH id). destruct p; simpl; lia.
Qed.

Lemma settles_only_refl (w : World) : settles_only w w.
Proof. unfold settles_only. repeat split. lia. Qed.

Lemma settles_only_trans (w1 w2 w3 : World) :
  settles_only w1 w2 -> settles_only w2 w3 -> settles_only w1 w3.
Proof.
  unfold settles_only. intros (A1 & B1 & C1 & D1) (A2 & B2 & C2 & D2).
  repeat split; try congruence; lia.
Qed.

Lemma settles_only_log (e : event) (w : World) :
  is_listen e = false -> settles_only w (log e w).
Proof.
  intros He. unfold settles_only. rewrite listen_calls_log, listeners_log, He.
  assert (Hb : is_bound e = false) by (destruct e; try reflexivity; discriminate).
  rewrite Hb. unfold pending. simpl. repeat split; lia.
Qed.

Lemma settle_frame (id : nat) (st : promise_state) : preserves settles_only (settle id st).
Proof.
  intros w. unfold settle. step. unfold settles_only, pending. simpl.
  repeat split. apply settle_at_pending.
Qed.

Ltac settles_only_step :=
  first [ apply settle_frame
        | apply settles_only_log; reflexivity
        | unfold settles_only, pending, listeners, listen_calls; simpl;
          repeat split; lia ].

Lemma callback_frame (v : variant) (id : nat) (now : Z) (remote : Remote)
    (code : option string) :
  preserves settles_only (callback v id now remote code).
Proof.
  destruct v; simpl; unfold Build.callback, Src.callback;
    unfold existsSync, mkdirSync, writeFileSync, axios_post_token, axios;
    frame_split settles_only_refl settles_only_trans; settles_only_step.
Qed.

Lemma pending_new (st : promise_state) (w : World) :
  pending (set_promises (promises w ++ [st]) w)
  = (pending w + if is_unsettled st then 1 else 0)%nat.
Proof.
  unfold pending. simpl. rewrite List.filter_app, List.length_app. simpl.
  destruct (is_unsettled st); reflexivity.
Qed.

Lemma executor_invariant (env : Env) (w : World) :
  authServer w = None -> invariant w -> invariant (snd (executor env w)).
Proof.
  intros Hs (Hp & Hl & Hnone). destruct (Hnone Hs) as [Hp0 Hl0].
  unfold executor, new_promise. step.
  destruct (listen_result env); simpl; unfold invariant;
    unfold pending, listeners in *; simpl;
    rewrite !List.filter_app, !List.length_app; simpl;
    repeat split; try lia; try discriminate; intros _; lia.
Qed.

Lemma authenticate_invariant (v : variant) (env : Env) (w : World) :
  invariant w -> invariant (snd (startAuthServer v env w)).
Proof.
  intros Hinv. destruct (authServer w) as [h|] eqn:Hs.
  - rewrite (startAuthServer_reentrant v env w h Hs). simpl.
    destruct Hinv as (Hp & Hl & Hnone). unfold invariant.
    rewrite listeners_log. simpl. unfold pending in *. simpl.
    split; [lia|]. split; [lia|]. intros Hn. congruence.
  - assert (Hcheck : forall check : M flow,
               preserves same_server check ->
               invariant
                 (snd (bind check
                         (fun fl => match fl with
                                    | Return => ret Resolved
                                    | Continue => executor env
                                    end) w))).
    { intros check Hframe. unfold bind. specialize (Hframe w).
      destruct (check w) as [[fl|e] w1]; simpl in *.
      - assert (Hinv1 : invariant w1).
        { destruct Hframe as (A & B & C & D). destruct Hinv as (Hp & Hl & Hnone).
          unfold invariant, pending in *. rewrite A, B, D. auto. }
        destruct fl; [exact Hinv1|].
        apply executor_invariant; [|exact Hinv1].
        destruct Hframe as (A & _). congruence.
      - destruct Hframe as (A & B & C & D). destruct Hinv as (Hp & Hl & Hnone).
        unfold invariant, pending in *. rewrite A, B, D. auto. }
    destruct v; simpl; unfold Build.startAuthServer, Src.startAuthServer;
      unfold bind at 1; unfold read; rewrite Hs.
    + apply Hcheck, build_port_check_frame.
    + apply Hcheck, src_port_check_frame.
Qed.

Lemma callback_invariant (v : variant) (id : nat) (now : Z) (remote : Remote)
    (code : option string) (w : World) :
  invariant w -> invariant (snd (callback v id now remote code w)).
Proof.
  intros (Hp & Hl & Hnone).
  destruct (callback_frame v id now remote code w) as (A & B & C & D).
  unfold invariant. rewrite A, C.
  split; [lia|]. split; [lia|]. intros Hs. destruct (Hnone Hs). lia.
Qed.

Lemma bound_is_listen (tr : list event) :
  List.filter is_listen tr = [] -> List.filter is_bound tr = [].
Proof.
  induction tr as [|e tr IH]; [reflexivity|]. simpl.
  destruct e; simpl; try exact IH; discriminate.
Qed.

Lemma initial_invariant (w : World) : initial w -> invariant w.
Proof.
  intros (Hs & Hp & Ht). unfold invariant, pending, listeners.
  rewrite Hp, (bound_is_listen _ Ht). simpl. repeat split; lia.
Qed.

Lemma same_server_invariant (w w' : World) :
  same_server w w' -> invariant w -> invariant w'.
Proof.
  intros (A & B & C & D) (Hp & Hl & Hnone).
  unfold invariant, pending in *. rewrite A, B, D. auto.
Qed.

Lemma reachable_invariant (v : variant) (w : World) : reachable v w -> invariant w.
Proof.
  induction 1 as [w Hi | w a Hr IH | w w' Hr IH Hsame].
  - apply initial_invariant. exact Hi.
  - destruct a as [env | id now remote code]; simpl.
    + apply authenticate_invariant. exact IH.
    + apply callback_invariant. exact IH.
  - exact (same_server_invariant w w' Hsame IH).
Qed.

(** The token store, the token manager and the request executor leave the
    coordinator alone. *)
Lemma token_code_same_server (v : variant) (now : Z) (remote : Remote)
    (endpoint method : string) (data : JS.jsval) :
  preserves same_server Build.loadTokens
  /\ preserves same_server Build.saveTokens
  /\ preserves same_server (ensureToken v now remote)
  /\ preserves same_server (spotifyApiRequest v now remote endpoint method data).
Proof.
  split; [|split; [|split]]; try destruct v; simpl;
    unfold Build.spotifyApiRequest, Src.spotifyApiRequest, Build.on_api_error,
      Build.refresh_inline, Build.reload_inline, Build.save_inline,
      Build.ensureToken, Src.ensureToken, Build.preload, Build.store_refreshed,
      Build.clear_tokens, Build.saveTokens, Build.ensureTokenDirExists,
      Build.loadTokens, Build.loadTokens_try;
    frame_unfold;
    frame_split same_server_refl same_server_trans; same_server_step.
Qed.

End AuthFacts.

(* ===================================================================== *)
(** * Facts about counts of actions *)
(* ===================================================================== *)

Module CountFacts.
Import Runtime Auth Process Observe FrameFacts.
Local Open Scope js_scope.

Ltac step :=
  unfold bind, read, update, ret, throw, when, try_catch, emit; simpl.

Lemma count_log (p : event -> bool) (e : event) (w : World) :
  count p (log e w) = (count p w + if p e then 1 else 0)%nat.
Proof.
  unfold count. simpl. rewrite List.filter_app, List.length_app. simpl.
  destruct (p e); reflexivity.
Qed.

Lemma same_count_refl (p : event -> bool) (w : World) : same_count p w w.
Proof. reflexivity. Qed.

Lemma same_count_trans (p : event -> bool) (w1 w2 w3 : World) :
  same_count p w1 w2 -> same_count p w2 w3 -> same_count p w1 w3.
Proof. unfold same_count. congruence. Qed.

Lemma same_tokens_refl (w : World) : same_tokens w w.
Proof. reflexivity. Qed.

Lemma same_tokens_trans (w1 w2 w3 : World) :
  same_tokens w1 w2 -> same_tokens w2 w3 -> same_tokens w1 w3.
Proof. unfold same_tokens. congruence. Qed.

Lemma off_disk_refl (w : World) : off_disk w w.
Proof. split; reflexivity. Qed.

Lemma off_disk_trans (w1 w2 w3 : World) :
  off_disk w1 w2 -> off_disk w2 w3 -> off_disk w1 w3.
Proof. unfold off_disk, same_count. intuition congruence. Qed.

Lemma read_only_run_refl (w : World) : read_only_run w w.
Proof. split; reflexivity. Qed.

Lemma read_only_run_trans (w1 w2 w3 : World) :
  read_only_run w1 w2 -> read_only_run w2 w3 -> read_only_run w1 w3.
Proof. unfold read_only_run, same_count. intuition congruence. Qed.

(** A logged action of another kind, or an assignment, keeps the count. *)
Ltac same_count_step :=
  unfold same_count;
  first [ reflexivity | rewrite count_log; simpl; lia ].

Ltac off_disk_step :=
  unfold off_disk, read_only_run, same_count;
  split; first [ reflexivity | rewrite count_log; simpl; lia ].

Ltac unfold_token_code :=
  unfold spotifyApiRequest, ensureToken,
    Build.spotifyApiRequest, Src.spotifyApiRequest, Build.on_api_error,
    Build.refresh_inline, Build.reload_inline, Build.save_inline,
    Build.ensureToken, Src.ensureToken, Build.preload, Build.store_refreshed,
    Build.clear_tokens, Build.saveTokens, Build.ensureTokenDirExists,
    Build.loadTokens, Build.loadTokens_try.

Ltac unfold_auth_code :=
  unfold startAuthServer, callback,
    Build.startAuthServer, Src.startAuthServer, Build.port_check, Src.port_check,
    Build.callback, Src.callback, executor.

(** *** Generic composition for "at most one" *)

Lemma same_count_is_one_more (p : event -> bool) (w w' : World) :
  same_count p w w' -> one_more p w w'.
Proof. unfold same_count, one_more. lia. Qed.

Lemma one_more_prefix (p : event -> bool) {A B : Type} (c : M A) (k : A -> M B) :
  preserves (same_count p) c -> (forall a, preserves (one_more p) (k a)) ->
  preserves (one_more p) (bind c k).
Proof.
  intros Hc Hk w. unfold bind. specialize (Hc w).
  destruct (c w) as [[a|e] w1]; simpl in *.
  - specialize (Hk a w1). unfold same_count, one_more in *. lia.
  - apply same_count_is_one_more. exact Hc.
Qed.

Lemma one_more_suffix (p : event -> bool) {A B : Type} (c : M A) (k : A -> M B) :
  preserves (one_more p) c -> (forall a, preserves (same_count p) (k a)) ->
  preserves (one_more p) (bind c k).
Proof.
  intros Hc Hk w. unfold bind. specialize (Hc w).
  destruct (c w) as [[a|e] w1]; simpl in *.
  - specialize (Hk a w1). unfold same_count, one_more in *. lia.
  - exact Hc.
Qed.

Lemma one_more_of_same (p : event -> bool) {A : Type} (c : M A) :
  preserves (same_count p) c -> preserves (one_more p) c.
Proof. intros H w. apply same_count_is_one_more, H. Qed.

(** One request to the token endpoint, then code that sends none. *)
Lemma one_token_post {A : Type} (remote : Remote) (q : token_request)
    (k : token_response -> M A) (h : exn -> M A) :
  (forall a, preserves (same_count is_token_post) (k a)) ->
  (forall e, preserves (same_count is_token_post) (h e)) ->
  preserves (one_more is_token_post)
    (try_catch (bind (axios_post_token remote q) k) h).
Proof.
  intros Hk Hh w. unfold try_catch, bind, axios_post_token. step.
  assert (Hlog : count is_token_post (log (TokenPost q) w)
                 = (count is_token_post w + 1)%nat)
    by (rewrite count_log; reflexivity).
  destruct (token_endpoint remote q) as [data|m]; simpl.
  - specialize (Hk data (log (TokenPost q) w)).
    destruct (k data (log (TokenPost q) w)) as [[a|e] w1]; simpl in *.
    + unfold same_count, one_more in *. lia.
    + specialize (Hh e w1). unfold same_count, one_more in *. lia.
  - specialize (Hh (HttpError m None) (log (TokenPost q) w)).
    unfold same_count, one_more in *. lia.
Qed.

(** *** The token code and the network *)

Lemma token_store_no_post :
  preserves (same_count is_token_post) Build.loadTokens
  /\ preserves (same_count is_token_post) Build.saveTokens
  /\ preserves (same_count is_token_post) Build.preload
  /\ preserves (same_count is_token_post) Build.reload_inline.
Proof.
  split; [|split; [|split]]; unfold_token_code; frame_unfold;
    frame_split (same_count_refl is_token_post) (same_count_trans is_token_post);
    same_count_step.
Qed.

Lemma token_store_no_network (v : variant) :
  preserves (same_count is_network) Build.loadTokens
  /\ preserves (same_count is_network) Build.saveTokens
  /\ preserves (same_count is_network) (preload v).
Proof.
  split; [|split]; try destruct v; simpl; unfold_token_code; frame_unfold;
    frame_split (same_count_refl is_network) (same_count_trans is_network);
    same_count_step.
Qed.

Lemma ensureToken_no_api_call (v : variant) (now : Z) (remote : Remote) :
  preserves (same_count is_api_call) (ensureToken v now remote).
Proof.
  destruct v; unfold_token_code; frame_unfold;
    frame_split (same_count_refl is_api_call) (same_count_trans is_api_call);
    same_count_step.
Qed.

Ltac no_post :=
  unfold_token_code; frame_unfold;
  frame_split (same_count_refl is_token_post) (same_count_trans is_token_post);
  same_count_step.

Lemma ensureToken_one_post (v : variant) (now : Z) (remote : Remote) :
  preserves (one_more is_token_post) (ensureToken v now remote).
Proof.
  destruct v; simpl.
  - unfold Build.ensureToken.
    apply one_more_prefix; [apply token_store_no_post|intros _].
    apply one_more_prefix; [no_post|intros a].
    apply one_more_prefix; [no_post|intros t].
    destruct (present a && (now <? t - 60000)); [apply one_more_of_same; no_post|].
    apply one_more_prefix; [no_post|intros r].
    destruct (present r); [|apply one_more_of_same; no_post].
    apply one_token_post; intros ?; no_post.
  - unfold Src.ensureToken.
    apply one_more_prefix; [no_post|intros a].
    apply one_more_prefix; [no_post|intros t].
    destruct (present a && (now <? t - 60000)); [apply one_more_of_same; no_post|].
    apply one_more_prefix; [no_post|intros r].
    destruct (present r); [|apply one_more_of_same; no_post].
    apply one_token_post; intros ?; no_post.
Qed.

Lemma refresh_inline_one_post (now : Z) (remote : Remote) :
  preserves (one_more is_token_post) (Build.refresh_inline now remote).
Proof.
  unfold Build.refresh_inline.
  apply one_more_prefix; [no_post|intros r].
  destruct (present r); [|apply one_more_of_same; no_post].
  apply one_token_post; intros ?; no_post.
Qed.

Lemma spotifyApiRequest_one_post (v : variant) (now : Z) (remote : Remote)
    (endpoint method : string) (data : JS.jsval) :
  preserves (one_more is_token_post) (spotifyApiRequest v now remote endpoint method data).
Proof.
  destruct v; simpl.
  - unfold Build.spotifyApiRequest.
    apply one_more_prefix; [no_post|intros a].
    apply one_more_prefix; [no_post|intros r].
    apply one_more_prefix;
      [apply (preserves_when _ (same_count_refl is_token_post)), token_store_no_post
      |intros _].
    apply one_more_prefix; [no_post|intros a'].
    destruct (negb (present a')); [apply one_more_of_same; no_post|].
    apply one_more_prefix; [no_post|intros t].
    apply one_more_suffix.
    + destruct (now >=? t - 60000); simpl;
        [apply refresh_inline_one_post | apply one_more_of_same; no_post].
    + intros _. no_post.
  - unfold Src.spotifyApiRequest.
    apply one_more_suffix; [apply (ensureToken_one_post IndexTs)|intros token].
    no_post.
Qed.

(** *** The index.ts variant and the disk *)

Lemma src_off_disk (now : Z) (remote : Remote) (endpoint method : string)
    (data : JS.jsval) (env : Env) (id : nat) (code : option string) :
  preserves off_disk (Src.ensureToken now remote)
  /\ preserves off_disk (Src.spotifyApiRequest now remote endpoint method data)
  /\ preserves off_disk (Src.startAuthServer env)
  /\ preserves off_disk (Src.callback id now remote code).
Proof.
  split; [|split; [|split]]; unfold_token_code; unfold_auth_code; frame_unfold;
    frame_split off_disk_refl off_disk_trans; off_disk_step.
Qed.

(** *** The coordinator, the tokens and the network *)

Lemma startAuthServer_same_tokens (v : variant) (env : Env) :
  preserves same_tokens (startAuthServer v env).
Proof.
  destruct v; unfold_auth_code; frame_unfold;
    frame_split same_tokens_refl same_tokens_trans; reflexivity.
Qed.

Lemma startAuthServer_off_disk (v : variant) (env : Env) :
  preserves off_disk (startAuthServer v env).
Proof.
  destruct v; unfold_auth_code; frame_unfold;
    frame_split off_disk_refl off_disk_trans; off_disk_step.
Qed.

Lemma startAuthServer_no_network (v : variant) (env : Env) :
  preserves (same_count is_network) (startAuthServer v env).
Proof.
  destruct v; unfold_auth_code; frame_unfold;
    frame_split (same_count_refl is_network) (same_count_trans is_network);
    same_count_step.
Qed.

Lemma token_code_no_coordinator (v : variant) (now : Z) (remote : Remote)
    (endpoint method : string) (data : JS.jsval) :
  preserves (same_count is_coordinator) Build.loadTokens
  /\ preserves (same_count is_coordinator) Build.saveTokens
  /\ preserves (same_count is_coordinator) (ensureToken v now remote)
  /\ preserves (same_count is_coordinator)
       (spotifyApiRequest v now remote endpoint method data).
Proof.
  split; [|split; [|split]]; try destruct v; unfold_token_code; frame_unfold;
    frame_split (same_count_refl is_coordinator) (same_count_trans is_coordinator);
    same_count_step.
Qed.

Lemma loadTokens_read_only : preserves read_only_run Build.loadTokens.
Proof.
  unfold_token_code; frame_unfold;
    frame_split read_only_run_refl read_only_run_trans; off_disk_step.
Qed.

End CountFacts.

(* ===================================================================== *)
(** * Facts about the paths of the request executor *)
(* ===================================================================== *)

Module PathFacts.
Import Runtime Auth Process Observe FrameFacts CountFacts.
Local Open Scope js_scope.

#[local] Opaque JS.JSON_parse JS.JSON_stringify.

(** *** [ensureToken] with nothing to refresh with *)

Lemma ensureToken_nothing_to_refresh (v : variant) (now : Z) (remote : Remote) (w : World) :
  present (refreshToken (snd (preload v w))) = false ->
  stale now (snd (preload v w)) ->
  ensureToken v now remote w = (Normal None, snd (preload v w)).
Proof.
  destruct v; simpl; intros Hr Hs; unfold stale in Hs.
  - destruct (TokenFacts.preload_total w) as (w1 & Hpre & _).
    rewrite Hpre in *. simpl in *.
    unfold Build.ensureToken. unfold bind at 1. rewrite Hpre. step.
    rewrite Hs. simpl. rewrite Hr. reflexivity.
  - unfold Src.ensureToken. step. rewrite Hs. simpl. rewrite Hr. reflexivity.
Qed.

(** *** The call itself, with a fresh token in memory *)

Lemma build_fresh_call (now : Z) (remote : Remote) (endpoint method : string)
    (data : JS.jsval) (w : World) (tok r : string) :
  accessToken w = Some tok -> tok <> "" ->
  refreshToken w = Some r -> r <> "" ->
  now + 60000 < tokenExpirationTime w ->
  Build.spotifyApiRequest now remote endpoint method data w
  = try_catch (axios remote (request method endpoint tok data)) Build.on_api_error w.
Proof.
  intros Ha Htok Hr Hrne Hexp.
  assert (Hpa : present (accessToken w) = true)
    by (rewrite Ha; now apply TokenFacts.present_nonempty).
  assert (Hpr : present (refreshToken w) = true)
    by (rewrite Hr; now apply TokenFacts.present_nonempty).
  assert (Hge : (now >=? tokenExpirationTime w - 60000) = false)
    by (rewrite Z.geb_leb; apply Z.leb_gt; lia).
  unfold Build.spotifyApiRequest. step.
  rewrite Hpa, Hpr. simpl. rewrite Hpa. simpl. rewrite Hge. simpl.
  rewrite Ha. reflexivity.
Qed.

Lemma src_fresh_call (now : Z) (remote : Remote) (endpoint method : string)
    (data : JS.jsval) (w : World) (tok : string) :
  accessToken w = Some tok -> tok <> "" ->
  now + 60000 < tokenExpirationTime w ->
  Src.spotifyApiRequest now remote endpoint method data w
  = try_catch (axios remote (request method endpoint tok data))
      (fun error => throw (Error ("Spotify API error: " ++ message_of error))) w.
Proof.
  intros Ha Htok Hexp.
  unfold Src.spotifyApiRequest. unfold bind at 1.
  pose proof (TokenFacts.ensureToken_fresh IndexTs now remote w tok Ha Htok Hexp) as He.
  simpl in He. rewrite He.
  rewrite (TokenFacts.present_nonempty tok Htok). reflexivity.
Qed.

Lemma fresh_call_succeeds (v : variant) (now : Z) (remote : Remote)
    (endpoint method : string) (data : JS.jsval) (w : World) (tok r : string)
    (d : JS.json) :
  accessToken w = Some tok -> tok <> "" ->
  refreshToken w = Some r -> r <> "" ->
  now + 60000 < tokenExpirationTime w ->
  api remote (request method endpoint tok data) = ApiOk d ->
  spotifyApiRequest v now remote endpoint method data w
  = (Normal d, log (ApiCall (request method endpoint tok data)) w).
Proof.
  intros Ha Htok Hr Hrne Hexp Hapi. destruct v; simpl.
  - rewrite (build_fresh_call now remote endpoint method data w tok r) by assumption.
    unfold axios. step. rewrite Hapi. reflexivity.
  - rewrite (src_fresh_call now remote endpoint method data w tok) by assumption.
    unfold axios. step. rewrite Hapi. reflexivity.
Qed.

Lemma fresh_call_fails (v : variant) (now : Z) (remote : Remote)
    (endpoint method : string) (data : JS.jsval) (w : World) (tok r msg : string)
    (response : option (Z * JS.json)) :
  accessToken w = Some tok -> tok <> "" ->
  refreshToken w = Some r -> r <> "" ->
  now + 60000 < tokenExpirationTime w ->
  api remote (request method endpoint tok data) = ApiFail msg response ->
  not_a_rejection response ->
  spotifyApiRequest v now remote endpoint method data w
  = (Throw (Error ("Spotify API error: " ++ msg)),
     log (ApiCall (request method endpoint tok data)) w).
Proof.
  intros Ha Htok Hr Hrne Hexp Hapi Hnot. destruct v; simpl.
  - rewrite (build_fresh_call now remote endpoint method data w tok r) by assumption.
    unfold axios, Build.on_api_error. step. rewrite Hapi. simpl.
    destruct response as [[status body]|]; [|reflexivity].
    simpl in Hnot. apply Z.eqb_neq in Hnot. rewrite Hnot. reflexivity.
  - rewrite (src_fresh_call now remote endpoint method data w tok) by assumption.
    unfold axios. step. rewrite Hapi. reflexivity.
Qed.

(** *** The inline loader *)

Lemma reload_inline_unusable (w : World) :
  unusable (disk w) ->
  exists w', Build.reload_inline w = (Normal tt, w')
             /\ tokens w' = tokens w /\ disk w' = disk w
             /\ authServer w' = authServer w
             /\ same_count is_network w w'.
Proof.
  intros Hu.
  destruct w as [a r t srv ps [dx f cw cr] tr]. simpl in Hu.
  unfold Build.reload_inline, existsSync, readFileSync, JSON_parse. step.
  assert (Hcount : forall tr', (forall e, In e tr' -> is_network e = false) ->
            List.length (List.filter is_network (tr ++ tr'))
            = List.length (List.filter is_network tr)).
  { intros tr' Hall. rewrite List.filter_app, List.length_app.
    assert (E : List.filter is_network tr' = []).
    { induction tr' as [|e tr' IH]; [reflexivity|]. simpl.
      rewrite (Hall e (or_introl eq_refl)). apply IH.
      intros e' He'. apply Hall. now right. }
    rewrite E. simpl. lia. }
  destruct Hu as [Hf | Hf | c Hf Hc | c Hf Hc];
    try apply JSFacts.not_json_refused in Hc; simpl in Hf; subst f; simpl.
  - eexists. repeat split. unfold same_count, count. simpl.
    rewrite List.filter_app, List.length_app. simpl. lia.
  - destruct cr; simpl; eexists; repeat split; unfold same_count, count; simpl;
      rewrite <- ?List.app_assoc; apply Hcount; simpl; intros e [<-|[<-|[]]]; reflexivity.
  - destruct cr; simpl; [rewrite Hc; simpl|]; eexists; repeat split;
      unfold same_count, count; simpl;
      rewrite <- ?List.app_assoc; apply Hcount; simpl; intros e [<-|[<-|[]]]; reflexivity.
  - destruct cr; simpl.
    + destruct (String.eqb (JS.trim c) ""); simpl; [|rewrite Hc; simpl];
        eexists; repeat split; unfold same_count, count; simpl;
        rewrite <- ?List.app_assoc; apply Hcount; simpl;
        intros e [<-|[<-|[]]]; reflexivity.
    + eexists; repeat split; unfold same_count, count; simpl;
        rewrite <- ?List.app_assoc; apply Hcount; simpl;
        intros e [<-|[<-|[]]]; reflexivity.
Qed.

Lemma reload_inline_loads (w : World) (a r : option string) (t : Z) :
  file (disk w) = Some (JS.JSON_stringify (tokenData a r t)) ->
  can_read (disk w) = true ->
  Build.reload_inline w = (Normal tt, reloaded a r t w).
Proof.
  intros Hf Hr.
  destruct w as [a0 r0 t0 srv ps [dx f cw cr] tr]. simpl in Hf, Hr. subst f cr.
  unfold Build.reload_inline, existsSync, readFileSync, JSON_parse. step.
  rewrite TokenFacts.trim_tokenData. simpl.
  rewrite TokenFacts.parse_tokenData. simpl.
  destruct a, r; reflexivity.
Qed.

(** *** Not authenticated *)

Lemma build_not_authenticated (now : Z) (remote : Remote) (endpoint method : string)
    (data : JS.jsval) (w : World) :
  present (accessToken w) = false -> unusable (disk w) ->
  exists w',
    Build.spotifyApiRequest now remote endpoint method data w
    = (Throw (Error "Not authenticated. Please authorize the app first."), w')
    /\ tokens w' = tokens w /\ disk w' = disk w
    /\ same_count is_network w w'.
Proof.
  intros Ha Hu.
  destruct (reload_inline_unusable w Hu) as (w' & Hre & Ht & Hd & _ & Hn).
  unfold Build.spotifyApiRequest. step. rewrite Ha. simpl. rewrite Hre. simpl.
  assert (Ha' : accessToken w' = accessToken w) by (unfold tokens in Ht; congruence).
  rewrite Ha', Ha. simpl. exists w'. repeat split; assumption.
Qed.

Lemma src_not_authenticated (now : Z) (remote : Remote) (endpoint method : string)
    (data : JS.jsval) (w : World) :
  present (accessToken w) = false -> present (refreshToken w) = false ->
  Src.spotifyApiRequest now remote endpoint method data w
  = (Throw (Error "Not authenticated. Please authorize the app first."), w).
Proof.
  intros Ha Hr. unfold Src.spotifyApiRequest, Src.ensureToken. step.
  rewrite Ha. simpl. rewrite Hr. reflexivity.
Qed.

(** *** The inline refresh *)

Lemma save_inline_spec (w : World) :
  exists w', Build.save_inline w = (Normal tt, w')
             /\ tokens w' = tokens w
             /\ disk w' =
                (if can_write (disk w) then
                   {| dir_exists := true;
                      file := Some (JS.JSON_stringify
                                      (tokenData (accessToken w) (refreshToken w)
                                         (tokenExpirationTime w)));
                      can_write := true; can_read := can_read (disk w) |}
                 else disk w).
Proof.
  destruct w as [a r t srv ps [dx f cw cr] tr].
  unfold Build.save_inline, existsSync, mkdirSync, writeFileSync. step.
  destruct dx, cw; simpl; eexists; repeat split.
Qed.

Lemma build_refresh_then_call (now : Z) (remote : Remote) (endpoint method : string)
    (data : JS.jsval) (w : World) (tok r : string) (resp : token_response) :
  accessToken w = Some tok -> tok <> "" ->
  refreshToken w = Some r -> r <> "" ->
  tokenExpirationTime w - 60000 <= now ->
  token_endpoint remote (RefreshGrant r) = TokenOk resp ->
  JS.valid_time (now + expires_in resp * 1000) = true ->
  exists w3,
    Build.spotifyApiRequest now remote endpoint method data w
    = try_catch (axios remote (request method endpoint (access_token resp) data))
        Build.on_api_error w3
    /\ tokens w3 =
       (Some (access_token resp),
        (if present (refresh_token resp) then refresh_token resp else Some r),
        now + expires_in resp * 1000)
    /\ disk w3 =
       (if can_write (disk w) then
          {| dir_exists := true;
             file := Some (JS.JSON_stringify
                             (tokenData (Some (access_token resp))
                                (if present (refresh_token resp)
                                 then refresh_token resp else Some r)
                                (now + expires_in resp * 1000)));
             can_write := true; can_read := can_read (disk w) |}
        else disk w).
Proof.
  intros Ha Htok Hr Hrne Hexp Hok Hvalid.
  assert (Hpa : present (accessToken w) = true)
    by (rewrite Ha; now apply TokenFacts.present_nonempty).
  assert (Hpr : present (refreshToken w) = true)
    by (rewrite Hr; now apply TokenFacts.present_nonempty).
  assert (Hge : (now >=? tokenExpirationTime w - 60000) = true)
    by (rewrite Z.geb_leb; apply Z.leb_le; lia).
  unfold Build.spotifyApiRequest, Build.refresh_inline, Build.store_refreshed,
    axios_post_token, toISOString. step.
  rewrite Hpa, Hpr. simpl. rewrite Hpa. simpl. rewrite Hge. simpl.
  rewrite Hpr, Hr. simpl. rewrite Hok. simpl.
  destruct (present (refresh_token resp)) eqn:Hn; simpl; rewrite Hvalid; simpl;
    match goal with
    | |- context [Build.save_inline ?x] =>
        destruct (save_inline_spec x) as (w3 & Hs & Ht & Hd); rewrite Hs; simpl
    end;
    unfold tokens in Ht; simpl in Ht; simpl in Hd;
    injection Ht as Ha3 Hr3 Ht3; rewrite Ha3;
    exists w3; (split; [reflexivity|]);
    (split; [unfold tokens; rewrite Ha3, Hr3, Ht3, ?Hr; reflexivity|]);
    rewrite ?Hr in Hd; exact Hd.
Qed.

Lemma build_refresh_fails_inline (now : Z) (remote : Remote) (endpoint method : string)
    (data : JS.jsval) (w : World) (tok r msg : string) :
  accessToken w = Some tok -> tok <> "" ->
  refreshToken w = Some r -> r <> "" ->
  tokenExpirationTime w - 60000 <= now ->
  token_endpoint remote (RefreshGrant r) = TokenFail msg ->
  Build.spotifyApiRequest now remote endpoint method data w
  = (Throw (Error "Authentication expired. Please authenticate again."),
     forgotten (log (TokenPost (RefreshGrant r)) w)).
Proof.
  intros Ha Htok Hr Hrne Hexp Hfail.
  assert (Hpa : present (accessToken w) = true)
    by (rewrite Ha; now apply TokenFacts.present_nonempty).
  assert (Hpr : present (refreshToken w) = true)
    by (rewrite Hr; now apply TokenFacts.present_nonempty).
  assert (Hge : (now >=? tokenExpirationTime w - 60000) = true)
    by (rewrite Z.geb_leb; apply Z.leb_le; lia).
  unfold Build.spotifyApiRequest, Build.refresh_inline, Build.store_refreshed,
    Build.clear_tokens, axios_post_token, toISOString. step.
  rewrite Hpa, Hpr. simpl. rewrite Hpa. simpl. rewrite Hge. simpl.
  rewrite Hpr, Hr. simpl. rewrite Hfail. reflexivity.
Qed.

Lemma build_refresh_out_of_range (now : Z) (remote : Remote) (endpoint method : string)
    (data : JS.jsval) (w : World) (tok r : string) (resp : token_response) :
  accessToken w = Some tok -> tok <> "" ->
  refreshToken w = Some r -> r <> "" ->
  tokenExpirationTime w - 60000 <= now ->
  token_endpoint remote (RefreshGrant r) = TokenOk resp ->
  JS.valid_time (now + expires_in resp * 1000) = false ->
  Build.spotifyApiRequest now remote endpoint method data w
  = (Throw (Error "Authentication expired. Please authenticate again."),
     forgotten (log (TokenPost (RefreshGrant r)) w)).
Proof.
  intros Ha Htok Hr Hrne Hexp Hok Hinvalid.
  assert (Hpa : present (accessToken w) = true)
    by (rewrite Ha; now apply TokenFacts.present_nonempty).
  assert (Hpr : present (refreshToken w) = true)
    by (rewrite Hr; now apply TokenFacts.present_nonempty).
  assert (Hge : (now >=? tokenExpirationTime w - 60000) = true)
    by (rewrite Z.geb_leb; apply Z.leb_le; lia).
  unfold Build.spotifyApiRequest, Build.refresh_inline, Build.store_refreshed,
    Build.clear_tokens, axios_post_token, toISOString. step.
  rewrite Hpa, Hpr. simpl. rewrite Hpa. simpl. rewrite Hge. simpl.
  rewrite Hpr, Hr. simpl. rewrite Hok. simpl.
  destruct (present (refresh_token resp)); simpl; rewrite Hinvalid; reflexivity.
Qed.

Lemma build_expired_without_refresh (now : Z) (remote : Remote)
    (endpoint method : string) (data : JS.jsval) (w : World) (tok : string) :
  accessToken w = Some tok -> tok <> "" ->
  present (refreshToken w) = false -> unusable (disk w) ->
  tokenExpirationTime w - 60000 <= now ->
  exists w',
    Build.spotifyApiRequest now remote endpoint method data w
    = (Throw (Error "Authentication expired. Please authenticate again."), w')
    /\ tokens w' = (None, refreshToken w, 0)
    /\ disk w' = disk w /\ same_count is_network w w'.
Proof.
  intros Ha Htok Hr Hu Hexp.
  assert (Hpa : present (accessToken w) = true)
    by (rewrite Ha; now apply TokenFacts.present_nonempty).
  destruct (reload_inline_unusable w Hu) as (w1 & Hre & Ht & Hd & _ & Hn).
  unfold tokens in Ht. injection Ht as Ha1 Hr1 Ht1.
  assert (Hge : (now >=? tokenExpirationTime w1 - 60000) = true)
    by (rewrite Ht1, Z.geb_leb; apply Z.leb_le; lia).
  unfold Build.spotifyApiRequest, Build.refresh_inline. step.
  rewrite Hpa, Hr. simpl. rewrite Hre. simpl.
  rewrite Ha1, Hpa. simpl. rewrite Hge. simpl. rewrite Hr1, Hr. simpl.
  eexists. split; [reflexivity|]. unfold tokens. simpl. rewrite Hr1.
  repeat split; assumption.
Qed.

(** *** A record that only the inline loader accepts *)

Lemma inline_loader_uses_incomplete_record (now : Z) (remote : Remote)
    (endpoint method : string) (data : JS.jsval) (w : World) (a : string) (t : Z) :
  accessToken w = None -> refreshToken w = None ->
  file (disk w) = Some (JS.JSON_stringify (tokenData (Some a) None t)) ->
  can_read (disk w) = true -> a <> "" -> now + 60000 < t ->
  (exists w1, Build.loadTokens w = (Normal false, w1) /\ tokens w1 = tokens w)
  /\ Build.spotifyApiRequest now remote endpoint method data w
     = try_catch (axios remote (request method endpoint a data)) Build.on_api_error
         (reloaded (Some a) None t w).
Proof.
  intros Ha Hr Hf Hread Hane Hfresh. split.
  - destruct (TokenFacts.loadTokens_incomplete w
                (JS.JSON_stringify (tokenData (Some a) None t))
                (tokenData (Some a) None t) Hf (TokenFacts.parse_tokenData _ _ _))
      as (w1 & Hl & Ht & _); [right; reflexivity|].
    exists w1. split; assumption.
  - assert (Hge : (now >=? t - 60000) = false)
      by (rewrite Z.geb_leb; apply Z.leb_gt; lia).
    unfold Build.spotifyApiRequest. step. rewrite Ha. simpl.
    rewrite (reload_inline_loads w (Some a) None t Hf Hread). simpl.
    rewrite (TokenFacts.present_nonempty a Hane). simpl. rewrite Hge. reflexivity.
Qed.

(** *** The head of [ensureToken] and the writer of the store *)

Lemma preload_keeps (v : variant) (w : World) :
  present (accessToken w) = true \/ v = IndexTs \/ unusable (disk w) ->
  tokens (snd (preload v w)) = tokens w /\ disk (snd (preload v w)) = disk w.
Proof.
  intros Hcase. destruct v; simpl; [|split; reflexivity].
  destruct Hcase as [Ha | [Hv | Hu]]; [|discriminate|].
  - rewrite TokenFacts.preload_skipped; [split; reflexivity|].
    rewrite Ha. reflexivity.
  - destruct (TokenFacts.loadTokens_unusable w Hu) as (w1 & Hl & Ht & Hd).
    unfold Build.preload. step.
    destruct (negb (present (accessToken w)) && negb (present (refreshToken w)));
      simpl; [rewrite Hl; simpl; split; assumption | split; reflexivity].
Qed.

Lemma saveTokens_spec (w : World) :
  exists w', Build.saveTokens w = (Normal tt, w')
             /\ tokens w' = tokens w
             /\ disk w' =
                (if can_write (disk w) then
                   {| dir_exists := true;
                      file := Some (JS.JSON_stringify
                                      (tokenData (accessToken w) (refreshToken w)
                                         (tokenExpirationTime w)));
                      can_write := true; can_read := can_read (disk w) |}
                 else disk w).
Proof.
  destruct w as [a r t srv ps [dx f cw cr] tr].
  unfold Build.saveTokens, Build.ensureTokenDirExists, existsSync, mkdirSync,
    writeFileSync. step.
  destruct dx, cw; simpl; eexists; repeat split.
Qed.

End PathFacts.

(* ===================================================================== *)
(** * Facts about the callback route and the life of the server object *)
(* ===================================================================== *)

Module CallbackFacts.
Import Runtime Auth Process Observe FrameFacts CountFacts.
Local Open Scope js_scope.

Ltac step :=
  unfold bind, read, update, ret, throw, when, try_catch, emit; simpl.

(** *** Promises settle once *)

Lemma settle_at_settles (id : nat) (st : promise_state) (ps : list promise_state) :
  List.nth_error ps id = Some Unsettled ->
  List.nth_error (settle_at id st ps) id = Some st.
Proof.
  revert id. induction ps as [|q ps IH]; intros id Hid.
  - destruct id; discriminate.
  - destruct id as [|id]; simpl in Hid.
    + injection Hid as ->. reflexivity.
    + assert (Hstep : settle_at (S id) st (q :: ps) = q :: settle_at id st ps)
        by (destruct q; reflexivity).
      rewrite Hstep. simpl. apply IH. exact Hid.
Qed.

(** *** The server object stays *)

Lemma run_with_server (v : variant) (a : action) (w : World) :
  authServer w <> None -> settles_only w (run v a w).
Proof.
  intros Hs. destruct a as [env | id now remote code]; simpl.
  - destruct (authServer w) as [h|] eqn:Hh; [|contradiction].
    rewrite (AuthFacts.startAuthServer_reentrant v env w h Hh). simpl.
    apply AuthFacts.settles_only_log. reflexivity.
  - apply AuthFacts.callback_frame.
Qed.

Lemma run_all_with_server (v : variant) (actions : list action) (w : World) :
  authServer w <> None -> settles_only w (run_all v actions w).
Proof.
  revert w. induction actions as [|a actions IH]; intros w Hs.
  - apply AuthFacts.settles_only_refl.
  - simpl. pose proof (run_with_server v a w Hs) as Hstep.
    apply (AuthFacts.settles_only_trans _ _ _ Hstep). apply IH.
    destruct Hstep as (Heq & _). congruence.
Qed.

(** *** A request on a free port *)

Lemma startAuthServer_listens (v : variant) (env : Env) (w : World) :
  authServer w = None -> port_in_use env = false -> listen_result env = Listening ->
  startAuthServer v env w
  = (Normal (Awaiting (List.length (promises w))),
     log (OpenBrowser login_url)
       (set_promises (promises w ++ [Unsettled])
          (set_authServer (Some (HttpServer PORT))
             (log (Listen Listening) (log ProbePort w))))).
Proof.
  intros Hs Hp Hl. destruct v; unfold_auth_code; unfold isPortInUse, new_promise;
    step; rewrite Hs, Hp; simpl; rewrite Hl; reflexivity.
Qed.

Lemma startAuthServer_listen_fails (v : variant) (env : Env) (w : World) (error : exn) :
  authServer w = None -> port_in_use env = false ->
  (listen_result env = AddrInUse /\ error = ServerAlreadyRunningError PORT)
  \/ (exists m, listen_result env = ListenError m /\ error = SystemError m) ->
  startAuthServer v env w
  = (Throw error,
     set_promises (promises w ++ [Rejected error])
       (set_authServer (Some (HttpServer PORT))
          (log (Listen (listen_result env)) (log ProbePort w)))).
Proof.
  intros Hs Hp Hl. destruct v; unfold_auth_code; unfold isPortInUse, new_promise;
    step; rewrite Hs, Hp; simpl;
    destruct Hl as [[Hl ->] | (m & Hl & ->)]; rewrite Hl; reflexivity.
Qed.

(** *** What the callback route does *)

Lemma callback_without_code (v : variant) (id : nat) (now : Z) (remote : Remote)
    (code : option string) (w : World) :
  present code = false ->
  callback v id now remote code w
  = (Normal tt,
     set_promises
       (settle_at id (Rejected (Error "Authentication failed: No code provided"))
          (promises w))
       (log (Respond "Authentication failed: No code provided") w)).
Proof.
  intros Hc. destruct v; simpl; unfold Build.callback, Src.callback, settle;
    rewrite Hc; reflexivity.
Qed.

Lemma callback_exchange_fails (v : variant) (id : nat) (now : Z) (remote : Remote)
    (c msg : string) (w : World) :
  c <> "" -> token_endpoint remote (CodeGrant c) = TokenFail msg ->
  callback v id now remote (Some c) w
  = (Normal tt,
     set_promises (settle_at id (Rejected (HttpError msg None)) (promises w))
       (log (Respond ("Authentication failed: " ++ msg))
          (log (TokenPost (CodeGrant c)) w))).
Proof.
  intros Hc Hf. pose proof (TokenFacts.present_nonempty c Hc) as Hp.
  destruct v; simpl; unfold Build.callback, Src.callback, settle, axios_post_token;
    rewrite Hp; step; rewrite Hf; reflexivity.
Qed.

Lemma src_callback_accepts (id : nat) (now : Z) (remote : Remote) (c : string)
    (resp : token_response) (w : World) :
  c <> "" -> token_endpoint remote (CodeGrant c) = TokenOk resp ->
  Src.callback id now remote (Some c) w
  = (Normal tt,
     set_promises (settle_at id Fulfilled (promises w))
       (log (Respond "Authentication successful! You can close this window now.")
          (exchanged now (CodeGrant c) resp w))).
Proof.
  intros Hc Hok. pose proof (TokenFacts.present_nonempty c Hc) as Hp.
  unfold Src.callback, settle, axios_post_token.
  rewrite Hp. step. rewrite Hok. reflexivity.
Qed.

Lemma build_callback_accepts (id : nat) (now : Z) (remote : Remote) (c : string)
    (resp : token_response) (w : World) :
  c <> "" -> token_endpoint remote (CodeGrant c) = TokenOk resp ->
  exists w',
    Build.callback id now remote (Some c) w = (Normal tt, w')
    /\ tokens w' = granted now resp
    /\ promises w' = settle_at id Fulfilled (promises w)
    /\ authServer w' = authServer w
    /\ disk w' =
       (if can_write (disk w) then
          {| dir_exists := true;
             file := Some (JS.JSON_stringify (written now resp));
             can_write := true; can_read := can_read (disk w) |}
        else disk w).
Proof.
  intros Hc Hok. pose proof (TokenFacts.present_nonempty c Hc) as Hp.
  destruct w as [a r t srv ps [dx f cw cr] tr].
  unfold Build.callback, settle, axios_post_token, axios, existsSync, mkdirSync,
    writeFileSync.
  rewrite Hp. step. rewrite Hok. simpl.
  destruct dx, cw; simpl;
    match goal with
    | |- context [api remote ?q] => destruct (api remote q)
    end; simpl;
    eexists; (split; [reflexivity|]); simpl;
    repeat split; unfold written; destruct (refresh_token resp); reflexivity.
Qed.

(** *** The record written by the callback route *)

Lemma callback_record_loads (id : nat) (now : Z) (remote : Remote) (c r : string)
    (resp : token_response) (w : World) :
  c <> "" -> token_endpoint remote (CodeGrant c) = TokenOk resp ->
  access_token resp <> "" -> refresh_token resp = Some r -> r <> "" ->
  can_write (disk w) = true -> can_read (disk w) = true ->
  exists w2,
    Build.loadTokens
      (fresh_process (disk (snd (Build.callback id now remote (Some c) w))))
    = (Normal (JS.valid_time (now + expires_in resp * 1000)), w2)
    /\ tokens w2 = granted now resp.
Proof.
  intros Hc Hok Ha Hr Hrne Hw Hread.
  destruct (build_callback_accepts id now remote c resp w Hc Hok)
    as (w1 & Hcb & _ & _ & _ & Hd).
  rewrite Hcb. simpl. rewrite Hw in Hd. unfold written in Hd. rewrite Hr in Hd.
  destruct (TokenFacts.loadTokens_complete (fresh_process (disk w1))
              (JS.JSON_stringify
                 (tokenData (Some (access_token resp)) (Some r)
                    (now + expires_in resp * 1000)))
              (access_token resp) r (now + expires_in resp * 1000))
    as (w2 & Hl & Ht & _).
  - simpl. rewrite Hd. reflexivity.
  - simpl. rewrite Hd. exact Hread.
  - apply TokenFacts.trim_tokenData.
  - apply TokenFacts.parse_tokenData.
  - exact Ha.
  - exact Hrne.
  - exists w2. split; [exact Hl|]. unfold granted. rewrite Hr. exact Ht.
Qed.

End CallbackFacts.

(* ===================================================================== *)
(** * Facts about the auth-spotify tool *)
(* ===================================================================== *)

Module ToolFacts.
Import Runtime Auth Process Observe FrameFacts CountFacts Tools.
Local Open Scope js_scope.

Ltac step :=
  unfold bind, read, update, ret, throw, when, try_catch, emit; simpl.

(** *** Handlers that turn every error into a text *)

Lemma try_catch_returns {A : Type} (c : M A) (h : exn -> M A) :
  (forall e w, exists r w', h e w = (Normal r, w')) ->
  forall w, exists r w', try_catch c h w = (Normal r, w').
Proof.
  intros Hh w. unfold try_catch. destruct (c w) as [[a|e] w1].
  - exists a, w1. reflexivity.
  - apply Hh.
Qed.

Lemma build_on_error_returns (remote : Remote) (error : exn) (w : World) :
  exists r w', build_on_error remote error w = (Normal r, w').
Proof.
  destruct error; simpl; try (eexists; eexists; reflexivity).
  unfold bind at 1.
  match goal with
  | |- context [try_catch ?c ?h w] =>
      destruct (try_catch_returns c h
                  (fun e w0 => ex_intro _ None (ex_intro _ w0 eq_refl)) w)
        as (again & w1 & Hagain); rewrite Hagain
  end.
  destruct again; eexists; eexists; reflexivity.
Qed.

Lemma build_auth_spotify_returns (remote : Remote) (env : Env)
    (between : World -> World) (w : World) :
  exists r w', build_auth_spotify remote env between w = (Normal r, w').
Proof.
  unfold build_auth_spotify. apply try_catch_returns.
  apply build_on_error_returns.
Qed.

Lemma src_auth_spotify_returns (env : Env) (between : World -> World) (w : World) :
  exists r w', src_auth_spotify env between w = (Normal r, w').
Proof.
  unfold src_auth_spotify. apply try_catch_returns.
  intros e w0. destruct e; eexists; eexists; reflexivity.
Qed.

(** *** A request that does not start a server *)

Lemma startAuthServer_resolved (v : variant) (env : Env) (w : World) :
  authServer w <> None
  \/ (port_in_use env = true
      /\ (v = IndexTs \/ kill_succeeds env = false \/ still_in_use env = true)) ->
  exists w',
    startAuthServer v env w
    = ((if open_succeeds env then Normal Resolved
        else Throw (match authServer w with
                    | Some _ => SystemError "spawn ENOENT"
                    | None => ServerAlreadyRunningError PORT
                    end)), w')
    /\ tokens w' = tokens w /\ disk w' = disk w
    /\ authServer w' = authServer w /\ promises w' = promises w
    /\ listen_calls w' = listen_calls w
    /\ same_count is_network w w'.
Proof.
  intros Hcase.
  pose proof (startAuthServer_same_tokens v env w) as Ht.
  pose proof (startAuthServer_no_network v env w) as Hn.
  destruct (authServer w) as [h|] eqn:Hs.
  - rewrite (AuthFacts.startAuthServer_reentrant v env w h Hs) in *.
    eexists. split; [destruct (open_succeeds env); reflexivity|].
    simpl in *. rewrite AuthFacts.listen_calls_log. simpl.
    repeat split; try assumption; lia.
  - destruct Hcase as [Hcase | [Hp Hk]]; [contradiction|].
    destruct (AuthFacts.contention_leaves_no_state v env w Hs Hp Hk)
      as (w' & Hrun & Hl & Hs' & Hps & _ & Hd).
    rewrite Hrun in *. exists w'. simpl in *.
    repeat split; assumption || congruence.
Qed.

(** *** The test call *)

Lemma whoami_answers (remote : Remote) (w : World) (tok : string) (d : JS.json) :
  accessToken w = Some tok ->
  api remote {| req_method := "GET"; req_endpoint := "/me";
                req_bearer := tok; req_data := None |} = ApiOk d ->
  d <> JS.JNull ->
  whoami remote w
  = (Normal (template (member d "display_name")),
     log (ApiCall {| req_method := "GET"; req_endpoint := "/me";
                     req_bearer := tok; req_data := None |}) w).
Proof.
  intros Ha Hok Hd. unfold whoami, axios, prop. step. rewrite Ha. simpl.
  rewrite Hok. simpl. destruct d; try reflexivity. contradiction.
Qed.

(** *** The first block of the build handler *)

Ltac disk_only :=
  do 5 (split; [reflexivity|]);
  let p := fresh "p" in
  let Hp := fresh "Hp" in
  intros p Hp; unfold same_count, count; simpl;
  rewrite ?List.filter_app, ?List.length_app; simpl;
  rewrite ?(Hp DiskRead eq_refl), ?(Hp (DiskExists TOKEN_PATH) eq_refl); simpl; lia.

Lemma check_current_unusable (remote : Remote) (w : World) :
  present (accessToken w) = false -> unusable (disk w) ->
  exists w',
    check_current remote w = (Normal None, w')
    /\ tokens w' = tokens w /\ disk w' = disk w
    /\ authServer w' = authServer w /\ promises w' = promises w
    /\ forall p, (forall e, is_disk_access e = true -> p e = false) ->
                 same_count p w w'.
Proof.
  intros Ha Hu.
  destruct w as [a r t srv ps [dx f cw cr] tr]. simpl in Ha, Hu.
  unfold check_current, existsSync, readFileSync, JSON_parse. step.
  rewrite Ha. simpl.
  destruct Hu as [Hf | Hf | c Hf Hc | c Hf Hc];
    try apply JSFacts.not_json_refused in Hc; simpl in Hf; subst f; simpl.
  - eexists. disk_only.
  - destruct cr; simpl; eexists; disk_only.
  - destruct cr; simpl;
      [rewrite Hc; simpl; rewrite Bool.andb_false_r; simpl|];
      eexists; disk_only.
  - destruct cr; simpl.
    + destruct (negb (String.eqb c "") && negb (String.eqb (JS.trim c) ""));
        simpl; [rewrite Hc; simpl|]; eexists; disk_only.
    + eexists; disk_only.
Qed.

(** *** The handlers when no server is started *)

Lemma src_auth_without_server (env : Env) (between : World -> World) (w : World) :
  authServer w <> None \/ port_in_use env = true -> open_succeeds env = true ->
  exists w',
    src_auth_spotify env between w
    = (Normal (Some "Successfully authenticated with Spotify!"), w')
    /\ tokens w' = tokens w /\ listen_calls w' = listen_calls w
    /\ promises w' = promises w /\ same_count is_network w w'.
Proof.
  intros Hcase Hopen.
  destruct (startAuthServer_resolved IndexTs env w) as (w' & Hrun & Ht & _ & _ & Hp & Hl & Hn).
  { destruct Hcase as [Hs | Hp]; [left; exact Hs | right; split; [exact Hp | left; reflexivity]]. }
  simpl in Hrun. rewrite Hopen in Hrun.
  unfold src_auth_spotify, await. step. rewrite Hrun. simpl.
  exists w'. repeat split; assumption.
Qed.

Lemma build_auth_without_tokens (remote : Remote) (env : Env)
    (between : World -> World) (w : World) :
  present (accessToken w) = false -> unusable (disk w) ->
  authServer w <> None
  \/ (port_in_use env = true /\ (kill_succeeds env = false \/ still_in_use env = true)) ->
  open_succeeds env = true ->
  exists w',
    build_auth_spotify remote env between w
    = (Normal (Some (failed_text (Error "Authentication failed: No tokens received"))), w')
    /\ tokens w' = tokens w /\ listen_calls w' = listen_calls w
    /\ promises w' = promises w /\ same_count is_network w w'.
Proof.
  intros Ha Hu Hcase Hopen.
  destruct (check_current_unusable remote w Ha Hu)
    as (w1 & Hcc & Ht1 & Hd1 & Hs1 & Hp1 & Hc1).
  destruct (startAuthServer_resolved BuildJs env w1)
    as (w2 & Hrun & Ht2 & _ & _ & Hp2 & Hl2 & Hn2).
  { rewrite Hs1. destruct Hcase as [Hs | [Hp Hk]];
      [left; exact Hs | right; split; [exact Hp | right; exact Hk]]. }
  simpl in Hrun. rewrite Hopen in Hrun.
  assert (Ha2 : accessToken w2 = accessToken w)
    by (unfold tokens in Ht1, Ht2; congruence).
  unfold build_auth_spotify, await. step. rewrite Hcc. simpl. rewrite Hrun. simpl.
  rewrite Ha2, Ha. simpl.
  exists w2. split; [reflexivity|].
  split; [congruence|]. split.
  { rewrite Hl2. apply (Hc1 is_listen). intros e He. destruct e; try reflexivity; discriminate. }
  split; [congruence|].
  apply (same_count_trans is_network w w1 w2); [|exact Hn2].
  apply Hc1. intros e He. destruct e; try reflexivity; discriminate.
Qed.

(** *** The port is held and the browser cannot be launched *)

Lemma src_auth_busy (env : Env) (between : World -> World) (w : World) :
  authServer w = None -> port_in_use env = true -> open_succeeds env = false ->
  exists w',
    src_auth_spotify env between w = (Normal (Some (src_busy_text PORT)), w')
    /\ tokens w' = tokens w /\ listen_calls w' = listen_calls w.
Proof.
  intros Hs Hp Hopen.
  destruct (startAuthServer_resolved IndexTs env w) as (w' & Hrun & Ht & _ & _ & _ & Hl & _).
  { right. split; [exact Hp | left; reflexivity]. }
  simpl in Hrun. rewrite Hopen, Hs in Hrun.
  unfold src_auth_spotify, await. step. rewrite Hrun. simpl.
  exists w'. repeat split; assumption.
Qed.

Lemma build_auth_busy (remote : Remote) (env : Env) (between : World -> World)
    (w : World) :
  present (accessToken w) = false -> unusable (disk w) ->
  authServer w = None -> port_in_use env = true ->
  kill_succeeds env = false \/ still_in_use env = true ->
  open_succeeds env = false ->
  exists w',
    build_auth_spotify remote env between w = (Normal (Some (build_busy_text PORT)), w')
    /\ tokens w' = tokens w /\ listen_calls w' = listen_calls w
    /\ same_count is_network w w'.
Proof.
  intros Ha Hu Hs Hp Hk Hopen.
  destruct (check_current_unusable remote w Ha Hu)
    as (w1 & Hcc & Ht1 & Hd1 & Hs1 & Hp1 & Hc1).
  destruct (startAuthServer_resolved BuildJs env w1)
    as (w2 & Hrun & Ht2 & _ & _ & Hp2 & Hl2 & Hn2).
  { right. split; [exact Hp | right; exact Hk]. }
  simpl in Hrun. rewrite Hopen, Hs1, Hs in Hrun.
  assert (Ha2 : accessToken w2 = accessToken w)
    by (unfold tokens in Ht1, Ht2; congruence).
  unfold build_auth_spotify, build_on_error, await. step. rewrite Hcc. simpl.
  rewrite Hrun. simpl. rewrite Ha2, Ha. simpl.
  exists w2. split; [reflexivity|].
  split; [congruence|]. split.
  { rewrite Hl2. apply (Hc1 is_listen). intros e He. destruct e; try reflexivity; discriminate. }
  apply (same_count_trans is_network w w1 w2); [|exact Hn2].
  apply Hc1. intros e He. destruct e; try reflexivity; discriminate.
Qed.

(** *** The token in memory still works *)

Lemma build_auth_already (remote : Remote) (env : Env) (between : World -> World)
    (w : World) (tok : string) (d : JS.json) :
  accessToken w = Some tok -> tok <> "" ->
  api remote {| req_method := "GET"; req_endpoint := "/me";
                req_bearer := tok; req_data := None |} = ApiOk d ->
  d <> JS.JNull ->
  build_auth_spotify remote env between w
  = (Normal (Some (already_text (template (member d "display_name")))),
     log (ApiCall {| req_method := "GET"; req_endpoint := "/me";
                     req_bearer := tok; req_data := None |}) w).
Proof.
  intros Ha Htok Hok Hd.
  pose proof (whoami_answers remote w tok d Ha Hok Hd) as Hwho.
  unfold build_auth_spotify, check_current. step.
  rewrite Ha, (TokenFacts.present_nonempty tok Htok). simpl.
  rewrite Hwho. reflexivity.
Qed.

(** *** A login through the tool *)

Lemma fulfilled_at_end (ps : list promise_state) (st : promise_state) :
  List.nth_error (settle_at (List.length ps) st (ps ++ [Unsettled])) (List.length ps)
  = Some st.
Proof.
  apply CallbackFacts.settle_at_settles.
  rewrite List.nth_error_app2, Nat.sub_diag; [reflexivity | lia].
Qed.

Lemma src_auth_login (env : Env) (now : Z) (remote : Remote) (c : string)
    (resp : token_response) (w : World) :
  authServer w = None -> port_in_use env = false -> listen_result env = Listening ->
  c <> "" -> token_endpoint remote (CodeGrant c) = TokenOk resp ->
  exists w',
    src_auth_spotify env
      (fun w1 => snd (Src.callback (List.length (promises w)) now remote (Some c) w1)) w
    = (Normal (Some "Successfully authenticated with Spotify!"), w')
    /\ tokens w' = granted now resp /\ disk w' = disk w.
Proof.
  intros Hs Hp Hl Hc Hok.
  pose proof (CallbackFacts.startAuthServer_listens IndexTs env w Hs Hp Hl) as Hrun.
  simpl in Hrun.
  unfold src_auth_spotify, await. step. rewrite Hrun. simpl.
  rewrite (CallbackFacts.src_callback_accepts _ now remote c resp _ Hc Hok). simpl.
  rewrite fulfilled_at_end. simpl.
  eexists. split; [reflexivity|]. split; reflexivity.
Qed.

Lemma src_auth_login_refused (env : Env) (now : Z) (remote : Remote) (c msg : string)
    (w : World) :
  authServer w = None -> port_in_use env = false -> listen_result env = Listening ->
  c <> "" -> token_endpoint remote (CodeGrant c) = TokenFail msg ->
  exists w',
    src_auth_spotify env
      (fun w1 => snd (Src.callback (List.length (promises w)) now remote (Some c) w1)) w
    = (Normal (Some ("Authentication failed: " ++ msg)), w')
    /\ tokens w' = tokens w /\ authServer w' = Some (HttpServer PORT).
Proof.
  intros Hs Hp Hl Hc Hf.
  pose proof (CallbackFacts.startAuthServer_listens IndexTs env w Hs Hp Hl) as Hrun.
  simpl in Hrun.
  unfold src_auth_spotify, await. step. rewrite Hrun. simpl.
  pose proof (CallbackFacts.callback_exchange_fails IndexTs (List.length (promises w))
                now remote c msg) as Hcb.
  simpl in Hcb. rewrite (Hcb _ Hc Hf). simpl.
  rewrite fulfilled_at_end. simpl.
  eexists. split; [reflexivity|]. split; reflexivity.
Qed.

Lemma build_auth_login (env : Env) (now : Z) (remote : Remote) (c : string)
    (resp : token_response) (w : World) :
  present (accessToken w) = false -> unusable (disk w) ->
  authServer w = None -> port_in_use env = false -> listen_result env = Listening ->
  c <> "" -> token_endpoint remote (CodeGrant c) = TokenOk resp ->
  access_token resp <> "" ->
  exists w',
    build_auth_spotify remote env
      (fun w1 => snd (Build.callback (List.length (promises w)) now remote (Some c) w1)) w
    = (Normal
         (Some
            (if present (refresh_token resp) then
               match api remote {| req_method := "GET"; req_endpoint := "/me";
                                   req_bearer := access_token resp;
                                   req_data := None |} with
               | ApiOk (JS.JNull) | ApiFail _ _ =>
                   failed_text (Error "Authentication succeeded but tokens are invalid")
               | ApiOk d => success_text (template (member d "display_name"))
               end
             else failed_text (Error "Authentication failed: No tokens received"))), w')
    /\ tokens w' = granted now resp.
Proof.
  intros Ha Hu Hs Hp Hl Hc Hok Hacc.
  destruct (check_current_unusable remote w Ha Hu)
    as (w1 & Hcc & Ht1 & Hd1 & Hs1 & Hp1 & Hc1).
  rewrite <- Hs1 in Hs.
  pose proof (CallbackFacts.startAuthServer_listens BuildJs env w1 Hs Hp Hl) as Hrun.
  simpl in Hrun. rewrite Hp1 in Hrun.
  unfold build_auth_spotify, await. step. rewrite Hcc. simpl. rewrite Hrun. simpl.
  match goal with
  | |- context [Build.callback ?id now remote (Some c) ?x] =>
      destruct (CallbackFacts.build_callback_accepts id now remote c resp x Hc Hok)
        as (w3 & Hcb & Ht3 & Hp3 & _)
  end.
  rewrite Hcb. simpl. rewrite Hp3. simpl. rewrite fulfilled_at_end. simpl.
  unfold tokens, granted in Ht3. injection Ht3 as Ha3 Hr3 Hx3.
  rewrite Ha3, Hr3, (TokenFacts.present_nonempty _ Hacc). simpl.
  destruct (present (refresh_token resp)); simpl.
  - unfold whoami, axios, prop. step. rewrite Ha3. simpl.
    destruct (api remote _) as [d | m r']; simpl.
    + destruct d; simpl; eexists; (split; [reflexivity|]);
        unfold tokens, granted; simpl; congruence.
    + eexists; (split; [reflexivity|]); unfold tokens, granted; simpl; congruence.
  - eexists; (split; [reflexivity|]); unfold tokens, granted; simpl; congruence.
Qed.

End ToolFacts.

(* ===================================================================== *)
(** * Facts about [formatError] *)
(* ===================================================================== *)

Module ErrorFacts.
Import Errors.

Lemma append_empty (a : string) : (a ++ "")%string = a.
Proof. induction a as [|c a IH]; simpl; [reflexivity | rewrite IH; reflexivity]. Qed.

Lemma append_nonempty (a b : string) : b <> "" -> (a ++ b)%string <> "".
Proof. intros Hb. destruct a; simpl; [exact Hb | discriminate]. Qed.

Lemma name_nonempty (e : app_error) : name e <> "".
Proof. destruct e; discriminate. Qed.

Lemma String_of_nonempty (e : app_error) : String_of e <> "".
Proof.
  unfold String_of. destruct (String.eqb (message e) "").
  - apply name_nonempty.
  - destruct e; discriminate.
Qed.

Lemma fallback_nonempty (e : app_error) :
  (if negb (String.eqb (message e) "") then message e else String_of e) <> "".
Proof.
  destruct (String.eqb (message e) "") eqn:Hm; simpl.
  - apply String_of_nonempty.
  - apply String.eqb_neq. exact Hm.
Qed.

Lemma formatError_nonempty (e : app_error) : formatError e <> "".
Proof.
  pose proof (fallback_nonempty e) as Hfall.
  destruct e as [m | m | m status | m errors | t | m | port | m]; try exact Hfall.
  - destruct status as [status|]; [|exact Hfall]. simpl.
    destruct (status =? 0); simpl; [exact Hfall | discriminate].
  - destruct errors as [|issue issues]; [exact Hfall|].
    unfold formatError. apply append_nonempty. discriminate.
Qed.

Lemma fallback_has_message (e : app_error) :
  exists pre post,
    (if negb (String.eqb (message e) "") then message e else String_of e)
    = (pre ++ message e ++ post)%string.
Proof.
  destruct (String.eqb (message e) "") eqn:Hm; simpl.
  - apply String.eqb_eq in Hm. exists (String_of e), "". rewrite Hm. simpl.
    symmetry. apply append_empty.
  - exists "", "". simpl. symmetry. apply append_empty.
Qed.

Lemma formatError_has_message (e : app_error) :
  exists pre post, formatError e = (pre ++ message e ++ post)%string.
Proof.
  pose proof (fallback_has_message e) as Hfall.
  destruct e as [m | m | m status | m errors | t | m | port | m]; try exact Hfall.
  - destruct status as [status|]; [|exact Hfall]. simpl.
    destruct (status =? 0); simpl; [exact Hfall|].
    exists ("API Error (" ++ JS.number_to_string status ++ "): ")%string, "".
    rewrite append_empty, !JSFacts.append_assoc. reflexivity.
  - destruct errors as [|issue issues]; [exact Hfall|].
    exists "". eexists. unfold formatError. simpl message. reflexivity.
Qed.

End ErrorFacts.

(* ===================================================================== *)
(** * The properties of the design document *)
(* ===================================================================== *)

Import Runtime Auth Process Scenario.

(** ** Token manager *)

(** C5. A token record whose access token is held in memory and whose
    expiry lies more than 60 seconds ahead: [ensureToken] returns that
    token and leaves the world exactly as it was, so no request is sent and
    the disk is neither read nor written. Both variants. *)
Theorem C5_fresh_token_without_io
    (v : variant) (now : Z) (remote : Remote) (w : World) (tok : string) :
  accessToken w = Some tok -> tok <> "" ->
  now + 60000 < tokenExpirationTime w ->
  ensureToken v now remote w = (Normal (Some tok), w).
Proof. apply TokenFacts.ensureToken_fresh. Qed.

Lemma C5_witness :
  ensureToken BuildJs now0 rejecting
    (process_with (Some "A") (Some "R") (now0 + 3600000) (disk_holding None))
  = (Normal (Some "A"),
     process_with (Some "A") (Some "R") (now0 + 3600000) (disk_holding None)).
Proof.
  apply (C5_fresh_token_without_io BuildJs now0 rejecting
           (process_with (Some "A") (Some "R") (now0 + 3600000) (disk_holding None)) "A").
  - reflexivity.
  - discriminate.
  - vm_compute. reflexivity.
Defined.

(** C3. When [ensureToken] performs the refresh exchange (after the optional
    look at the file, a refresh token [r] is at hand and the access token
    is missing or within a minute of its expiry) and the token endpoint
    answers with success, the call returns the access token of the answer
    and the record in memory holds that access token, the expiry
    [now + expires_in * 1000], and the refresh token of the answer when the
    answer carries one (a non-empty string, as the code tests it), the
    previous refresh token [r] otherwise. Both variants; where the build
    variant looks at the file, the file holds a record of the declared
    types or none. In particular, from A, R, now-1000 and the answer B, 3600
    without refresh token the record becomes B, R, now+3600000. *)
Theorem C3_refresh_success_record :
  (forall (v : variant) (now : Z) (remote : Remote) (w : World)
          (r : string) (resp : token_response),
      let w1 := snd (preload v w) in
      reads_typed v w ->
      refreshToken w1 = Some r -> r <> "" -> stale now w1 ->
      token_endpoint remote (RefreshGrant r) = TokenOk resp ->
      exists w',
        ensureToken v now remote w = (Normal (Some (access_token resp)), w')
        /\ tokens w' =
           (Some (access_token resp),
            (if present (refresh_token resp) then refresh_token resp else Some r),
            now + expires_in resp * 1000))
  /\
  (forall (v : variant) (now : Z) (d : Disk),
      exists w',
        ensureToken v now renewing (process_with (Some "A") (Some "R") (now - 1000) d)
        = (Normal (Some "B"), w')
        /\ tokens w' = (Some "B", Some "R", now + 3600000)).
Proof.
  assert (General :
    forall (v : variant) (now : Z) (remote : Remote) (w : World)
           (r : string) (resp : token_response),
      let w1 := snd (preload v w) in
      reads_typed v w ->
      refreshToken w1 = Some r -> r <> "" -> stale now w1 ->
      token_endpoint remote (RefreshGrant r) = TokenOk resp ->
      exists w',
        ensureToken v now remote w = (Normal (Some (access_token resp)), w')
        /\ tokens w' =
           (Some (access_token resp),
            (if present (refresh_token resp) then refresh_token resp else Some r),
            now + expires_in resp * 1000)).
  { intros v now remote w r resp w1 _ Hr Hne Hstale Hok. destruct v; simpl in *.
    - destruct (TokenFacts.preload_total w) as (w2 & Hpre & _).
      subst w1. rewrite Hpre in *. simpl in *.
      exact (TokenFacts.build_refresh_succeeds now remote w w2 r resp
               Hpre Hr Hne Hstale Hok).
    - exact (TokenFacts.src_refresh_succeeds now remote w r resp Hr Hne Hstale Hok). }
  split; [exact General|].
  intros v now d.
  destruct (General v now renewing (process_with (Some "A") (Some "R") (now - 1000) d)
              "R" {| access_token := "B"; expires_in := 3600; refresh_token := None |})
    as (w' & Hrun & Htok).
  - destruct v; [intros H; discriminate H | exact I].
  - destruct v; reflexivity.
  - discriminate.
  - assert (Hs : stale now (process_with (Some "A") (Some "R") (now - 1000) d)).
    { unfold stale. simpl. apply Z.ltb_ge. lia. }
    destruct v; exact Hs.
  - reflexivity.
  - exists w'. split; [exact Hrun|]. rewrite Htok. reflexivity.
Qed.

Lemma C3_witness :
  (exists w',
     ensureToken BuildJs now0 renewing
       (process_with (Some "A") (Some "R") (now0 - 1000) (disk_holding None))
     = (Normal (Some "B"), w')
     /\ tokens w' = (Some "B", Some "R", now0 + 3600 * 1000))
  /\
  (exists w',
     ensureToken BuildJs now0 renewing
       (fresh_process (disk_holding (saved (Some "A") (Some "R") (now0 - 1000))))
     = (Normal (Some "B"), w')
     /\ tokens w' = (Some "B", Some "R", now0 + 3600 * 1000)).
Proof.
  split.
  - apply (proj1 C3_refresh_success_record BuildJs now0 renewing
             (process_with (Some "A") (Some "R") (now0 - 1000) (disk_holding None))
             "R" {| access_token := "B"; expires_in := 3600; refresh_token := None |}).
    + intros H. discriminate H.
    + reflexivity.
    + discriminate.
    + vm_compute. reflexivity.
    + reflexivity.
  - apply (proj1 C3_refresh_success_record BuildJs now0 renewing
             (fresh_process (disk_holding (saved (Some "A") (Some "R") (now0 - 1000))))
             "R" {| access_token := "B"; expires_in := 3600; refresh_token := None |}).
    + intros _ _.
      apply (store_record _
               (JS.JSON_stringify (tokenData (Some "A") (Some "R") (now0 - 1000)))
               [("accessToken", JS.JStr "A"); ("refreshToken", JS.JStr "R");
                ("tokenExpirationTime", JS.JNum (now0 - 1000))]
               (Some "A") (Some "R") (now0 - 1000)).
      * reflexivity.
      * vm_compute. reflexivity.
      * reflexivity.
      * reflexivity.
      * reflexivity.
    + vm_compute. reflexivity.
    + discriminate.
    + vm_compute. reflexivity.
    + reflexivity.
Defined.

(** C4, as the code has it. When the refresh exchange of [ensureToken]
    fails, the call returns null and the three fields in memory are reset
    (null, null, 0), in both variants. The build variant then writes the
    reset record to the store: the file holds it whenever the write is
    permitted; a refused write is swallowed by [saveTokens] and leaves the
    disk as it was. The index.ts variant has no store and leaves the disk
    alone. Where the build variant looks at the file first, the file holds
    a record of the declared types or none. *)
Theorem C4_refresh_failure_resets_record
    (v : variant) (now : Z) (remote : Remote) (w : World) (r msg : string) :
  let w1 := snd (preload v w) in
  reads_typed v w ->
  refreshToken w1 = Some r -> r <> "" -> stale now w1 ->
  token_endpoint remote (RefreshGrant r) = TokenFail msg ->
  exists w',
    ensureToken v now remote w = (Normal None, w')
    /\ tokens w' = (None, None, 0)
    /\ match v with
       | BuildJs =>
           (can_write (disk w) = true ->
            file (disk w') = Some (JS.JSON_stringify (tokenData None None 0)))
           /\ (can_write (disk w) = false -> disk w' = disk w)
       | IndexTs => disk w' = disk w
       end.
Proof.
  intros w1 _ Hr Hne Hstale Hfail. destruct v; simpl in *.
  - destruct (TokenFacts.preload_total w) as (w2 & Hpre & Hd).
    subst w1. rewrite Hpre in *. simpl in *.
    destruct (TokenFacts.build_refresh_fails now remote w w2 r msg
                Hpre Hr Hne Hstale Hfail) as (w' & Hrun & Htok & Hwr & Hro).
    exists w'. rewrite <- Hd.
    split; [exact Hrun|]. split; [exact Htok|]. split; assumption.
  - exact (TokenFacts.src_refresh_fails now remote w r msg Hr Hne Hstale Hfail).
Qed.

Lemma C4_witness :
  (exists w',
     ensureToken BuildJs now0 rejecting
       (process_with (Some "A") (Some "R") (now0 - 1000) (disk_holding None))
     = (Normal None, w')
     /\ tokens w' = (None, None, 0)
     /\ (can_write (disk_holding None) = true ->
         file (disk w') = Some (JS.JSON_stringify (tokenData None None 0)))
     /\ (can_write (disk_holding None) = false -> disk w' = disk_holding None))
  /\
  (exists w',
     ensureToken BuildJs now0 rejecting
       (fresh_process (disk_holding (saved (Some "A") (Some "R") (now0 - 1000))))
     = (Normal None, w')
     /\ tokens w' = (None, None, 0)
     /\ (can_write (disk_holding (saved (Some "A") (Some "R") (now0 - 1000))) = true ->
         file (disk w') = Some (JS.JSON_stringify (tokenData None None 0)))
     /\ (can_write (disk_holding (saved (Some "A") (Some "R") (now0 - 1000))) = false ->
         disk w' = disk_holding (saved (Some "A") (Some "R") (now0 - 1000)))).
Proof.
  split.
  - apply (C4_refresh_failure_resets_record BuildJs now0 rejecting
             (process_with (Some "A") (Some "R") (now0 - 1000) (disk_holding None))
             "R" "Request failed with status code 400").
    + intros H. discriminate H.
    + reflexivity.
    + discriminate.
    + vm_compute. reflexivity.
    + reflexivity.
  - apply (C4_refresh_failure_resets_record BuildJs now0 rejecting
             (fresh_process (disk_holding (saved (Some "A") (Some "R") (now0 - 1000))))
             "R" "Request failed with status code 400").
    + intros _ _.
      apply (store_record _
               (JS.JSON_stringify (tokenData (Some "A") (Some "R") (now0 - 1000)))
               [("accessToken", JS.JStr "A"); ("refreshToken", JS.JStr "R");
                ("tokenExpirationTime", JS.JNum (now0 - 1000))]
               (Some "A") (Some "R") (now0 - 1000)).
      * reflexivity.
      * vm_compute. reflexivity.
      * reflexivity.
      * reflexivity.
      * reflexivity.
    + vm_compute. reflexivity.
    + discriminate.
    + vm_compute. reflexivity.
    + reflexivity.
Defined.

(** C4, as stated, fails on a store that refuses the write: the refresh
    fails, memory is reset, and the file still holds the record A, R. *)
Lemma C4_counterexample_read_only_store :
  let w0 := process_with (Some "A") (Some "R") (now0 - 1000)
              (read_only (saved (Some "A") (Some "R") (now0 - 1000))) in
  let w1 := snd (Build.ensureToken now0 rejecting w0) in
  tokens w1 = (None, None, 0)
  /\ file (disk w1) = saved (Some "A") (Some "R") (now0 - 1000)
  /\ file (disk w1) <> saved None None 0.
Proof.
  vm_compute. repeat split. discriminate.
Qed.

(** ** Request executor *)

(** C1. The code at the input where the claim fails. The token A is
    fresh and the store holds the same record; the API answers 401. The
    executor resets the three fields in memory and signals the expired
    authorization, but writes nothing: the disk is as before. The next
    [ensureToken] finds no token in memory, loads the file and returns the
    rejected token A without any refresh; the next [spotifyApiRequest]
    reloads the file as well and sends the rejected token again. *)
Theorem C1_rejected_token_reloaded_from_store :
  let w0 := process_with (Some "A") (Some "R") (now0 + 3600000)
              (disk_holding (saved (Some "A") (Some "R") (now0 + 3600000))) in
  let call := Build.spotifyApiRequest now0 rejecting "/me" "GET" None w0 in
  let next := Build.ensureToken now0 rejecting (snd call) in
  let again := Build.spotifyApiRequest now0 rejecting "/me" "GET" None (snd call) in
  fst call = Throw (Error "Authorization expired. Please authenticate again.")
  /\ tokens (snd call) = (None, None, 0)
  /\ disk (snd call) = disk w0
  /\ fst next = Normal (Some "A")
  /\ trace (snd next) =
     [ApiCall (request "GET" "/me" "A" None); DiskExists TOKEN_PATH; DiskRead]
  /\ trace (snd again) =
     [ApiCall (request "GET" "/me" "A" None); DiskExists TOKEN_PATH; DiskRead;
      ApiCall (request "GET" "/me" "A" None)].
Proof.
  vm_compute. repeat split.
Qed.




(** ** Token store *)

(** C6, as the code has it. A record whose access token and refresh token
    are both non-empty strings, saved on a disk that accepts the write and
    can be read: [loadTokens] in a fresh process leaves in memory a record
    equal to the saved one, field for field. It reports success when the
    expiry is a time that [Date] can print, and reports false (with the
    record loaded all the same) otherwise. *)
Theorem C6_roundtrip_of_complete_records (w : World) (a r : string) :
  accessToken w = Some a -> refreshToken w = Some r -> a <> "" -> r <> "" ->
  can_write (disk w) = true -> can_read (disk w) = true ->
  exists w2,
    Build.loadTokens (fresh_process (disk (snd (Build.saveTokens w))))
    = (Normal (JS.valid_time (tokenExpirationTime w)), w2)
    /\ tokens w2 = tokens w.
Proof. apply TokenFacts.save_then_load. Qed.

Lemma C6_witness :
  exists w2,
    Build.loadTokens
      (fresh_process
         (disk (snd (Build.saveTokens
                       (process_with (Some "A") (Some "R") now0 (disk_holding None))))))
    = (Normal true, w2)
    /\ tokens w2 = (Some "A", Some "R", now0).
Proof.
  apply (C6_roundtrip_of_complete_records
           (process_with (Some "A") (Some "R") now0 (disk_holding None)) "A" "R").
  - reflexivity.
  - reflexivity.
  - discriminate.
  - discriminate.
  - reflexivity.
  - reflexivity.
Defined.

(** C6, as stated, fails for a record without refresh token: it is written
    as it is, and the fresh process refuses it, so nothing is loaded. *)
Lemma C6_counterexample_null_refresh_token :
  let w0 := process_with (Some "A") None 5 (disk_holding None) in
  let w1 := snd (Build.saveTokens w0) in
  let load := Build.loadTokens (fresh_process (disk w1)) in
  file (disk w1) = saved (Some "A") None 5
  /\ fst load = Normal false
  /\ tokens (snd load) = (None, None, 0)
  /\ tokens (snd load) <> tokens w0.
Proof.
  vm_compute. repeat split. discriminate.
Qed.

(** C7. Against a missing file, an empty file, a blank file and a file
    that is not JSON, [loadTokens] returns false: it does not throw, and it
    leaves the record in memory and the disk as they were. With no token
    in memory, [ensureToken] then returns null, which asks the caller to
    authenticate again. *)
Theorem C7_load_tolerates_unusable_file (w : World) :
  unusable (disk w) ->
  (exists w', Build.loadTokens w = (Normal false, w')
              /\ tokens w' = tokens w /\ disk w' = disk w)
  /\ (accessToken w = None -> refreshToken w = None ->
      forall (now : Z) (remote : Remote),
      exists w', Build.ensureToken now remote w = (Normal None, w')
                 /\ tokens w' = tokens w /\ disk w' = disk w).
Proof.
  intros Hu. split.
  - apply TokenFacts.loadTokens_unusable. exact Hu.
  - intros Ha Hr now remote.
    apply TokenFacts.ensureToken_without_file; assumption.
Qed.

Lemma C7_witness :
  (exists w', Build.loadTokens (fresh_process (disk_holding None)) = (Normal false, w')
              /\ tokens w' = (None, None, 0) /\ disk w' = disk_holding None)
  /\ (exists w', Build.loadTokens (fresh_process (disk_holding (Some "")))
                 = (Normal false, w')
                 /\ tokens w' = (None, None, 0) /\ disk w' = disk_holding (Some ""))
  /\ (exists w', Build.loadTokens (fresh_process (disk_holding (Some "{not json")))
                 = (Normal false, w')
                 /\ tokens w' = (None, None, 0)
                 /\ disk w' = disk_holding (Some "{not json")).
Proof.
  split; [|split].
  - apply (C7_load_tolerates_unusable_file (fresh_process (disk_holding None))).
    apply file_missing. reflexivity.
  - apply (C7_load_tolerates_unusable_file (fresh_process (disk_holding (Some "")))).
    apply file_empty. reflexivity.
  - apply (C7_load_tolerates_unusable_file
             (fresh_process (disk_holding (Some "{not json")))).
    apply (file_malformed _ "{not json"); reflexivity.
Defined.

(** C10. A file that exists and parses, but whose accessToken or
    refreshToken member is null, missing, empty or otherwise falsy:
    [loadTokens] returns false and copies nothing into memory. So the record
    that [saveTokens] writes once the fields have been reset is not loaded
    back. *)
Theorem C10_incomplete_record_is_absent :
  (forall (w : World) (c : string) (doc : JS.json),
      file (disk w) = Some c -> JS.JSON_parse c = Some doc ->
      JS.truthy (member doc "accessToken") = false
      \/ JS.truthy (member doc "refreshToken") = false ->
      exists w', Build.loadTokens w = (Normal false, w')
                 /\ tokens w' = tokens w /\ disk w' = disk w)
  /\
  (forall (w : World),
      can_write (disk w) = true ->
      let w1 := snd (bind Build.clear_tokens (fun _ => Build.saveTokens) w) in
      file (disk w1) = saved None None 0
      /\ forall (w2 : World),
           disk w2 = disk w1 ->
           exists w', Build.loadTokens w2 = (Normal false, w')
                      /\ tokens w' = tokens w2).
Proof.
  split.
  - apply TokenFacts.loadTokens_incomplete.
  - intros w Hw w1.
    assert (Hfile : file (disk w1) = saved None None 0).
    { subst w1. unfold bind, Build.clear_tokens. unfold bind, update. simpl.
      match goal with
      | |- context [Build.saveTokens ?x] =>
          destruct (TokenFacts.saveTokens_writable x Hw) as (w3 & Hs & _ & Hf & _)
      end.
      rewrite Hs. exact Hf. }
    split; [exact Hfile|].
    intros w2 Hd.
    destruct (TokenFacts.loadTokens_incomplete w2
                (JS.JSON_stringify (tokenData None None 0)) (tokenData None None 0))
      as (w' & Hl & Ht & _).
    + rewrite Hd. exact Hfile.
    + apply TokenFacts.parse_tokenData.
    + left. reflexivity.
    + exists w'. split; assumption.
Qed.

Lemma C10_witness :
  exists w',
    Build.loadTokens
      (process_with (Some "A") (Some "R") now0
         (disk_holding (saved None (Some "R") now0)))
    = (Normal false, w')
    /\ tokens w' = (Some "A", Some "R", now0)
    /\ disk w' = disk_holding (saved None (Some "R") now0).
Proof.
  apply (proj1 C10_incomplete_record_is_absent
           (process_with (Some "A") (Some "R") now0
              (disk_holding (saved None (Some "R") now0)))
           (JS.JSON_stringify (tokenData None (Some "R") now0))
           (tokenData None (Some "R") now0)).
  - reflexivity.
  - vm_compute. reflexivity.
  - left. reflexivity.
Defined.

(** ** Authorization server *)

(** C8. The code against the claim. [startAuthServer] is called with no
    server object stored and finds the port bound by another process. The
    index.ts variant, and the build variant when its kill command fails or
    leaves the port bound, do as the claim says: [app.listen] is not called
    and no local state is created (no server object, no promise, tokens
    and disk as before), and the call resolves when the login page of the
    other server could be opened and is rejected with
    ServerAlreadyRunningError(8888) when it could not. But the build
    variant first kills the process that holds the port. Whenever the kill
    frees the port, the other server is not used: [app.listen] is called,
    and when it binds, a listener of this process is up, the server object
    is stored and the call waits on a promise of its own. *)
Theorem C8_build_kills_the_port_owner :
  (forall (v : variant) (env : Env) (w : World),
      authServer w = None -> port_in_use env = true ->
      v = IndexTs \/ kill_succeeds env = false \/ still_in_use env = true ->
      exists w',
        startAuthServer v env w =
        ((if open_succeeds env then Normal Resolved
          else Throw (ServerAlreadyRunningError PORT)), w')
        /\ listen_calls w' = listen_calls w /\ authServer w' = None
        /\ promises w' = promises w /\ tokens w' = tokens w /\ disk w' = disk w)
  /\
  (forall (env : Env) (w : World),
      authServer w = None -> port_in_use env = true ->
      kill_succeeds env = true -> still_in_use env = false ->
      let call := Build.startAuthServer env w in
      List.In KillPortOwner (trace (snd call))
      /\ listen_calls (snd call) = S (listen_calls w))
  /\
  (forall (env : Env) (w : World),
      authServer w = None -> port_in_use env = true ->
      kill_succeeds env = true -> still_in_use env = false ->
      listen_result env = Listening ->
      let call := Build.startAuthServer env w in
      fst call = Normal (Awaiting (List.length (promises w)))
      /\ trace (snd call)
         = (trace w ++ [ProbePort; KillPortOwner; Sleep; ProbePort; Listen Listening;
                        OpenBrowser login_url])%list
      /\ listeners (snd call) = S (listeners w)
      /\ authServer (snd call) = Some (HttpServer PORT)
      /\ promises (snd call) = (promises w ++ [Unsettled])%list).
Proof.
  assert (Hrun : forall (env : Env) (w : World),
            authServer w = None -> port_in_use env = true ->
            kill_succeeds env = true -> still_in_use env = false ->
            Build.startAuthServer env w
            = executor env
                (log ProbePort (log Sleep (log KillPortOwner (log ProbePort w))))).
  { intros env w Hs Hp Hk Hstill.
    unfold Build.startAuthServer, Build.port_check, isPortInUse, execAsync_kill,
      bind, read, ret, throw, try_catch, emit, update.
    rewrite Hs, Hp. simpl. rewrite Hk. simpl. rewrite Hstill. reflexivity. }
  split; [apply AuthFacts.contention_leaves_no_state|]. split.
  - intros env w Hs Hp Hk Hstill call. unfold call.
    rewrite (Hrun env w Hs Hp Hk Hstill).
    unfold executor, new_promise, bind, read, ret, throw, emit, update. split.
    + destruct (listen_result env); simpl; rewrite ?List.in_app_iff; simpl; tauto.
    + destruct (listen_result env); simpl; unfold listen_calls; simpl;
        rewrite !List.filter_app, !List.length_app; simpl; lia.
  - intros env w Hs Hp Hk Hstill Hl call. unfold call.
    rewrite (Hrun env w Hs Hp Hk Hstill).
    unfold executor, new_promise, bind, read, ret, throw, emit, update.
    rewrite Hl. simpl. split; [reflexivity|].
    split; [rewrite <- !List.app_assoc; reflexivity|].
    split; [|split; reflexivity].
    unfold listeners. simpl. rewrite !List.filter_app, !List.length_app. simpl. lia.
Qed.

Lemma C8_witness :
  let call := Build.startAuthServer port_taken (fresh_process (disk_holding None)) in
  fst call = Normal (Awaiting 0)
  /\ trace (snd call)
     = [ProbePort; KillPortOwner; Sleep; ProbePort; Listen Listening;
        OpenBrowser login_url]
  /\ listeners (snd call) = 1%nat
  /\ authServer (snd call) = Some (HttpServer 8888)
  /\ promises (snd call) = [Unsettled].
Proof.
  apply (proj2 (proj2 C8_build_kills_the_port_owner) port_taken
           (fresh_process (disk_holding None))).
  - reflexivity.
  - reflexivity.
  - reflexivity.
  - reflexivity.
  - reflexivity.
Defined.

(** C9, as the code has it. In every state a process can reach, at most
    one operation waits for the callback and at most one listener is bound.
    A request made while an operation is waiting does not call
    [app.listen] and creates no promise: it opens the login page of the
    existing server and settles at once, fulfilled when the browser could
    be launched and rejected otherwise, without waiting for the pending
    operation. Both variants. *)
Theorem C9_one_pending_operation (v : variant) (w : World) :
  reachable v w ->
  (pending w <= 1)%nat /\ (listeners w <= 1)%nat
  /\ forall (env : Env),
       pending w = 1%nat ->
       startAuthServer v env w =
       ((if open_succeeds env then Normal Resolved
         else Throw (SystemError "spawn ENOENT")),
        log (OpenBrowser login_url) w)
       /\ promises (log (OpenBrowser login_url) w) = promises w
       /\ listen_calls (log (OpenBrowser login_url) w) = listen_calls w.
Proof.
  intros Hr. destruct (AuthFacts.reachable_invariant v w Hr) as (Hp & Hl & Hnone).
  split; [exact Hp|]. split; [exact Hl|].
  intros env Hone.
  destruct (authServer w) as [h|] eqn:Hs.
  - rewrite (AuthFacts.startAuthServer_reentrant v env w h Hs).
    rewrite AuthFacts.listen_calls_log. simpl. repeat split. lia.
  - destruct (Hnone eq_refl) as [Hzero _]. lia.
Qed.

Lemma C9_witness :
  let w1 := run BuildJs (Authenticate port_free) (fresh_process (disk_holding None)) in
  (pending w1 <= 1)%nat /\ (listeners w1 <= 1)%nat
  /\ forall (env : Env),
       pending w1 = 1%nat ->
       startAuthServer BuildJs env w1 =
       ((if open_succeeds env then Normal Resolved
         else Throw (SystemError "spawn ENOENT")),
        log (OpenBrowser login_url) w1)
       /\ promises (log (OpenBrowser login_url) w1) = promises w1
       /\ listen_calls (log (OpenBrowser login_url) w1) = listen_calls w1.
Proof.
  apply (C9_one_pending_operation BuildJs
           (run BuildJs (Authenticate port_free) (fresh_process (disk_holding None)))).
  apply reach_step. apply reach_initial. repeat split.
Defined.

(** C9, as stated, fails: the second request is not joined to the pending
    operation. The first request waits on promise 0; the second one, made
    while promise 0 is unsettled, comes back fulfilled at once. *)
Lemma C9_counterexample_second_request_resolves :
  let w0 := fresh_process (disk_holding None) in
  let first := Build.startAuthServer port_free w0 in
  let second := Build.startAuthServer port_free (snd first) in
  fst first = Normal (Awaiting 0)
  /\ pending (snd first) = 1%nat
  /\ fst second = Normal Resolved
  /\ fst second <> fst first
  /\ promises (snd second) = [Unsettled]
  /\ Src.startAuthServer port_free (snd (Src.startAuthServer port_free w0))
     = (Normal Resolved, snd second).
Proof.
  vm_compute. repeat split. discriminate.
Qed.

(* ===================================================================== *)
(** * Further properties of the code *)
(* ===================================================================== *)

Import Observe.

(** ** Token manager and request executor *)

(** X1. One call of [ensureToken] or of [spotifyApiRequest] posts at most
    once to the token endpoint, in both variants, and [ensureToken] never
    calls the resource API. *)
Theorem X1_at_most_one_token_request
    (v : variant) (now : Z) (remote : Remote) (endpoint method : string)
    (data : JS.jsval) :
  preserves (one_more is_token_post) (ensureToken v now remote)
  /\ preserves (same_count is_api_call) (ensureToken v now remote)
  /\ preserves (one_more is_token_post)
       (spotifyApiRequest v now remote endpoint method data).
Proof.
  split; [apply CountFacts.ensureToken_one_post|].
  split; [apply CountFacts.ensureToken_no_api_call|].
  apply CountFacts.spotifyApiRequest_one_post.
Qed.

(** X2. [ensureToken] with a stale access token and no refresh token in
    memory (and, in the build variant, either an access token in memory or
    no usable file): it returns null without any request, and the stale
    access token stays in memory. *)
Theorem X2_stale_token_without_refresh_token
    (v : variant) (now : Z) (remote : Remote) (w : World) :
  present (refreshToken w) = false -> stale now w ->
  present (accessToken w) = true \/ v = IndexTs \/ unusable (disk w) ->
  exists w',
    ensureToken v now remote w = (Normal None, w')
    /\ tokens w' = tokens w /\ disk w' = disk w
    /\ same_count is_network w w'.
Proof.
  intros Hr Hs Hcase.
  destruct (PathFacts.preload_keeps v w Hcase) as [Ht Hd].
  pose proof Ht as Ht'. unfold tokens in Ht'. injection Ht' as Ha1 Hr1 Ht1.
  rewrite (PathFacts.ensureToken_nothing_to_refresh v now remote w).
  - exists (snd (preload v w)). repeat split; try assumption.
    apply CountFacts.token_store_no_network.
  - rewrite Hr1. exact Hr.
  - unfold stale in *. rewrite Ha1, Ht1. exact Hs.
Qed.

Lemma X2_witness :
  exists w',
    ensureToken BuildJs now0 rejecting
      (process_with (Some "A") None (now0 - 1000) (disk_holding None))
    = (Normal None, w')
    /\ tokens w' = (Some "A", None, now0 - 1000)
    /\ disk w' = disk_holding None
    /\ same_count is_network
         (process_with (Some "A") None (now0 - 1000) (disk_holding None)) w'.
Proof.
  apply (X2_stale_token_without_refresh_token BuildJs now0 rejecting
           (process_with (Some "A") None (now0 - 1000) (disk_holding None))).
  - reflexivity.
  - vm_compute. reflexivity.
  - left. reflexivity.
Defined.

(** X3. The index.ts variant keeps the tokens in memory only: its token
    manager, request executor, coordinator and callback route neither
    change the disk nor look at it. *)
Theorem X3_index_ts_stays_off_disk
    (now : Z) (remote : Remote) (endpoint method : string) (data : JS.jsval)
    (env : Env) (id : nat) (code : option string) :
  preserves off_disk (Src.ensureToken now remote)
  /\ preserves off_disk (Src.spotifyApiRequest now remote endpoint method data)
  /\ preserves off_disk (Src.startAuthServer env)
  /\ preserves off_disk (Src.callback id now remote code).
Proof. apply CountFacts.src_off_disk. Qed.

(** X4. A request made with a fresh token in memory that the API answers:
    exactly one call is sent, with that token as bearer, the answer is
    returned as it is, and nothing else changes. Both variants. *)
Theorem X4_fresh_call_returns_the_answer
    (v : variant) (now : Z) (remote : Remote) (endpoint method : string)
    (data : JS.jsval) (w : World) (tok r : string) (d : JS.json) :
  accessToken w = Some tok -> tok <> "" ->
  refreshToken w = Some r -> r <> "" ->
  now + 60000 < tokenExpirationTime w ->
  api remote (request method endpoint tok data) = ApiOk d ->
  spotifyApiRequest v now remote endpoint method data w
  = (Normal d, log (ApiCall (request method endpoint tok data)) w).
Proof. apply PathFacts.fresh_call_succeeds. Qed.

Lemma X4_witness :
  spotifyApiRequest IndexTs now0 renewing "/me" "GET" None
    (process_with (Some "A") (Some "R") (now0 + 3600000) (disk_holding None))
  = (Normal JS.JNull,
     log (ApiCall (request "GET" "/me" "A" None))
       (process_with (Some "A") (Some "R") (now0 + 3600000) (disk_holding None))).
Proof.
  apply (X4_fresh_call_returns_the_answer IndexTs now0 renewing "/me" "GET" None
           (process_with (Some "A") (Some "R") (now0 + 3600000) (disk_holding None))
           "A" "R" JS.JNull).
  - reflexivity.
  - discriminate.
  - reflexivity.
  - discriminate.
  - vm_compute. reflexivity.
  - reflexivity.
Defined.

(** X5. A request made with a fresh token that fails with a status other
    than 401, or without any answer: the error is rethrown as
    "Spotify API error: " followed by the message of the failure, the
    tokens are kept, and the call is not repeated. Both variants. *)
Theorem X5_failed_call_keeps_the_tokens
    (v : variant) (now : Z) (remote : Remote) (endpoint method : string)
    (data : JS.jsval) (w : World) (tok r msg : string)
    (response : option (Z * JS.json)) :
  accessToken w = Some tok -> tok <> "" ->
  refreshToken w = Some r -> r <> "" ->
  now + 60000 < tokenExpirationTime w ->
  api remote (request method endpoint tok data) = ApiFail msg response ->
  not_a_rejection response ->
  spotifyApiRequest v now remote endpoint method data w
  = (Throw (Error ("Spotify API error: " ++ msg)),
     log (ApiCall (request method endpoint tok data)) w).
Proof. apply PathFacts.fresh_call_fails. Qed.

Lemma X5_witness :
  spotifyApiRequest BuildJs now0 unavailable "/me" "GET" None
    (process_with (Some "A") (Some "R") (now0 + 3600000) (disk_holding None))
  = (Throw (Error "Spotify API error: Request failed with status code 503"),
     log (ApiCall (request "GET" "/me" "A" None))
       (process_with (Some "A") (Some "R") (now0 + 3600000) (disk_holding None))).
Proof.
  apply (X5_failed_call_keeps_the_tokens BuildJs now0 unavailable "/me" "GET" None
           (process_with (Some "A") (Some "R") (now0 + 3600000) (disk_holding None))
           "A" "R" "Request failed with status code 503" (Some (503, JS.JNull))).
  - reflexivity.
  - discriminate.
  - reflexivity.
  - discriminate.
  - vm_compute. reflexivity.
  - reflexivity.
  - simpl. discriminate.
Defined.

(** X6. A request with no access token to be had (build variant: none in
    memory and no usable file; index.ts: neither token in memory) fails
    with "Not authenticated. Please authorize the app first." before
    anything is sent, and leaves tokens and disk as they were. *)
Theorem X6_request_without_token
    (v : variant) (now : Z) (remote : Remote) (endpoint method : string)
    (data : JS.jsval) (w : World) :
  present (accessToken w) = false ->
  (v = BuildJs /\ unusable (disk w))
  \/ (v = IndexTs /\ present (refreshToken w) = false) ->
  exists w',
    spotifyApiRequest v now remote endpoint method data w
    = (Throw (Error "Not authenticated. Please authorize the app first."), w')
    /\ tokens w' = tokens w /\ disk w' = disk w
    /\ same_count is_network w w'.
Proof.
  intros Ha [[-> Hu] | [-> Hr]]; simpl.
  - apply PathFacts.build_not_authenticated; assumption.
  - rewrite (PathFacts.src_not_authenticated now remote endpoint method data w Ha Hr).
    exists w. repeat split.
Qed.

Lemma X6_witness :
  exists w',
    spotifyApiRequest BuildJs now0 renewing "/me" "GET" None
      (fresh_process (disk_holding None))
    = (Throw (Error "Not authenticated. Please authorize the app first."), w')
    /\ tokens w' = (None, None, 0) /\ disk w' = disk_holding None
    /\ same_count is_network (fresh_process (disk_holding None)) w'.
Proof.
  apply (X6_request_without_token BuildJs now0 renewing "/me" "GET" None
           (fresh_process (disk_holding None))).
  - reflexivity.
  - left. split; [reflexivity|]. apply file_missing. reflexivity.
Defined.

(** X7. The refresh inside [spotifyApiRequest] of the build variant: with a
    token within a minute of its expiry and a refresh token that the token
    endpoint accepts, the request is sent with the new access token, the new
    record is in memory, and it is written to the file when the disk can be
    written (the disk is untouched otherwise). *)
Theorem X7_inline_refresh_then_call
    (now : Z) (remote : Remote) (endpoint method : string) (data : JS.jsval)
    (w : World) (tok r : string) (resp : token_response) (d : JS.json) :
  accessToken w = Some tok -> tok <> "" ->
  refreshToken w = Some r -> r <> "" ->
  tokenExpirationTime w - 60000 <= now ->
  token_endpoint remote (RefreshGrant r) = TokenOk resp ->
  JS.valid_time (now + expires_in resp * 1000) = true ->
  api remote (request method endpoint (access_token resp) data) = ApiOk d ->
  exists w3,
    Build.spotifyApiRequest now remote endpoint method data w
    = (Normal d, log (ApiCall (request method endpoint (access_token resp) data)) w3)
    /\ tokens w3 =
       (Some (access_token resp),
        (if present (refresh_token resp) then refresh_token resp else Some r),
        now + expires_in resp * 1000)
    /\ disk w3 =
       (if can_write (disk w) then
          {| dir_exists := true;
             file := Some (JS.JSON_stringify
                             (tokenData (Some (access_token resp))
                                (if present (refresh_token resp)
                                 then refresh_token resp else Some r)
                                (now + expires_in resp * 1000)));
             can_write := true; can_read := can_read (disk w) |}
        else disk w).
Proof.
  intros Ha Htok Hr Hrne Hexp Hok Hvalid Hapi.
  destruct (PathFacts.build_refresh_then_call now remote endpoint method data w
              tok r resp Ha Htok Hr Hrne Hexp Hok Hvalid)
    as (w3 & Heq & Ht & Hd).
  exists w3. rewrite Heq. unfold try_catch, axios, emit, bind, update. simpl.
  rewrite Hapi. repeat split; assumption.
Qed.

Lemma X7_witness :
  exists w3,
    Build.spotifyApiRequest now0 renewing "/me" "GET" None
      (process_with (Some "A") (Some "R") (now0 - 1000) (disk_holding None))
    = (Normal JS.JNull, log (ApiCall (request "GET" "/me" "B" None)) w3)
    /\ tokens w3 = (Some "B", Some "R", now0 + 3600 * 1000)
    /\ disk w3 = disk_holding (saved (Some "B") (Some "R") (now0 + 3600 * 1000)).
Proof.
  apply (X7_inline_refresh_then_call now0 renewing "/me" "GET" None
           (process_with (Some "A") (Some "R") (now0 - 1000) (disk_holding None))
           "A" "R"
           {| access_token := "B"; expires_in := 3600; refresh_token := None |}
           JS.JNull).
  - reflexivity.
  - discriminate.
  - reflexivity.
  - discriminate.
  - vm_compute. discriminate.
  - reflexivity.
  - vm_compute. reflexivity.
  - reflexivity.
Defined.

(** X8. The same refresh when it fails, because the token endpoint refuses
    or because the new expiry is outside the range of [Date]: the three
    variables are reset in memory, "Authentication expired. Please
    authenticate again." is thrown, the API is not called, and, unlike
    [ensureToken], nothing is written to the file. *)
Theorem X8_inline_refresh_failure
    (now : Z) (remote : Remote) (endpoint method : string) (data : JS.jsval)
    (w : World) (tok r : string) :
  accessToken w = Some tok -> tok <> "" ->
  refreshToken w = Some r -> r <> "" ->
  tokenExpirationTime w - 60000 <= now ->
  (exists msg, token_endpoint remote (RefreshGrant r) = TokenFail msg)
  \/ (exists resp, token_endpoint remote (RefreshGrant r) = TokenOk resp
                   /\ JS.valid_time (now + expires_in resp * 1000) = false) ->
  Build.spotifyApiRequest now remote endpoint method data w
  = (Throw (Error "Authentication expired. Please authenticate again."),
     forgotten (log (TokenPost (RefreshGrant r)) w)).
Proof.
  intros Ha Htok Hr Hrne Hexp [(msg & Hfail) | (resp & Hok & Hrange)].
  - apply (PathFacts.build_refresh_fails_inline now remote endpoint method data w
             tok r msg); assumption.
  - apply (PathFacts.build_refresh_out_of_range now remote endpoint method data w
             tok r resp); assumption.
Qed.

Lemma X8_witness :
  Build.spotifyApiRequest now0 rejecting "/me" "GET" None
    (process_with (Some "A") (Some "R") (now0 - 1000)
       (disk_holding (saved (Some "A") (Some "R") (now0 - 1000))))
  = (Throw (Error "Authentication expired. Please authenticate again."),
     forgotten
       (log (TokenPost (RefreshGrant "R"))
          (process_with (Some "A") (Some "R") (now0 - 1000)
             (disk_holding (saved (Some "A") (Some "R") (now0 - 1000)))))).
Proof.
  apply (X8_inline_refresh_failure now0 rejecting "/me" "GET" None
           (process_with (Some "A") (Some "R") (now0 - 1000)
              (disk_holding (saved (Some "A") (Some "R") (now0 - 1000))))
           "A" "R").
  - reflexivity.
  - discriminate.
  - reflexivity.
  - discriminate.
  - vm_compute. discriminate.
  - left. exists "Request failed with status code 400". reflexivity.
Defined.

(** X9. [spotifyApiRequest] of the build variant with an expired access
    token, no refresh token in memory and no usable file: it drops the
    access token and the expiry, throws "Authentication expired. Please
    authenticate again." and sends nothing. *)
Theorem X9_expired_token_is_dropped
    (now : Z) (remote : Remote) (endpoint method : string) (data : JS.jsval)
    (w : World) (tok : string) :
  accessToken w = Some tok -> tok <> "" ->
  present (refreshToken w) = false -> unusable (disk w) ->
  tokenExpirationTime w - 60000 <= now ->
  exists w',
    Build.spotifyApiRequest now remote endpoint method data w
    = (Throw (Error "Authentication expired. Please authenticate again."), w')
    /\ tokens w' = (None, refreshToken w, 0)
    /\ disk w' = disk w /\ same_count is_network w w'.
Proof. apply PathFacts.build_expired_without_refresh. Qed.

Lemma X9_witness :
  exists w',
    Build.spotifyApiRequest now0 renewing "/me" "GET" None
      (process_with (Some "A") None (now0 - 1000) (disk_holding None))
    = (Throw (Error "Authentication expired. Please authenticate again."), w')
    /\ tokens w' = (None, None, 0)
    /\ disk w' = disk_holding None
    /\ same_count is_network
         (process_with (Some "A") None (now0 - 1000) (disk_holding None)) w'.
Proof.
  apply (X9_expired_token_is_dropped now0 renewing "/me" "GET" None
           (process_with (Some "A") None (now0 - 1000) (disk_holding None)) "A").
  - reflexivity.
  - discriminate.
  - reflexivity.
  - apply file_missing. reflexivity.
  - vm_compute. discriminate.
Defined.

(** X10. The loader inside [spotifyApiRequest] of the build variant copies
    the three members of the file without the check of [loadTokens]. On a
    file that holds an access token and no refresh token, [loadTokens]
    refuses the record and [ensureToken] returns null, while
    [spotifyApiRequest] loads it and sends the request with that token. *)
Theorem X10_inline_loader_skips_the_check
    (now : Z) (remote : Remote) (endpoint method : string) (data : JS.jsval)
    (w : World) (a : string) (t : Z) (d : JS.json) :
  accessToken w = None -> refreshToken w = None ->
  file (disk w) = Some (JS.JSON_stringify (tokenData (Some a) None t)) ->
  can_read (disk w) = true -> a <> "" -> now + 60000 < t ->
  api remote (request method endpoint a data) = ApiOk d ->
  (exists w1, Build.loadTokens w = (Normal false, w1) /\ tokens w1 = tokens w)
  /\ (exists w1, Build.ensureToken now remote w = (Normal None, w1)
                 /\ tokens w1 = tokens w)
  /\ Build.spotifyApiRequest now remote endpoint method data w
     = (Normal d,
        log (ApiCall (request method endpoint a data)) (reloaded (Some a) None t w)).
Proof.
  intros Ha Hr Hf Hread Hane Hfresh Hapi.
  destruct (PathFacts.inline_loader_uses_incomplete_record now remote endpoint method
              data w a t Ha Hr Hf Hread Hane Hfresh) as [(w1 & Hl & Ht) Hreq].
  split; [exists w1; split; assumption|]. split.
  - assert (Hpre : Build.preload w = (Normal tt, w1)).
    { unfold Build.preload, bind, read, when. rewrite Ha, Hr. simpl.
      rewrite Hl. reflexivity. }
    pose proof (PathFacts.ensureToken_nothing_to_refresh BuildJs now remote w) as He.
    simpl in He. rewrite Hpre in He. simpl in He.
    unfold tokens in Ht. injection Ht as Ha1 Hr1 Ht1.
    exists w1. split; [|unfold tokens; congruence].
    apply He.
    + rewrite Hr1, Hr. reflexivity.
    + unfold stale. rewrite Ha1, Ha. reflexivity.
  - rewrite Hreq. unfold try_catch, axios, emit, bind, update. simpl.
    rewrite Hapi. reflexivity.
Qed.

Lemma X10_witness :
  (exists w1,
     Build.loadTokens
       (fresh_process (disk_holding (saved (Some "A") None (now0 + 3600000))))
     = (Normal false, w1)
     /\ tokens w1 = (None, None, 0))
  /\ (exists w1,
        Build.ensureToken now0 renewing
          (fresh_process (disk_holding (saved (Some "A") None (now0 + 3600000))))
        = (Normal None, w1)
        /\ tokens w1 = (None, None, 0))
  /\ Build.spotifyApiRequest now0 renewing "/me" "GET" None
       (fresh_process (disk_holding (saved (Some "A") None (now0 + 3600000))))
     = (Normal JS.JNull,
        log (ApiCall (request "GET" "/me" "A" None))
          (reloaded (Some "A") None (now0 + 3600000)
             (fresh_process
                (disk_holding (saved (Some "A") None (now0 + 3600000)))))).
Proof.
  apply (X10_inline_loader_skips_the_check now0 renewing "/me" "GET" None
           (fresh_process (disk_holding (saved (Some "A") None (now0 + 3600000))))
           "A" (now0 + 3600000) JS.JNull).
  - reflexivity.
  - reflexivity.
  - reflexivity.
  - reflexivity.
  - discriminate.
  - vm_compute. reflexivity.
  - reflexivity.
Defined.

(** ** The callback route *)

(** X11. A hit of the callback route that brings no code, or whose code the
    token endpoint refuses: the promise of the operation is rejected with
    that error, and the tokens in memory, the disk and the resource API are
    left alone. Both variants. *)
Theorem X11_failed_callback_keeps_the_tokens
    (v : variant) (id : nat) (now : Z) (remote : Remote) (code : option string)
    (error : exn) (w : World) :
  (present code = false
   /\ error = Error "Authentication failed: No code provided")
  \/ (exists c msg, code = Some c /\ c <> ""
                    /\ token_endpoint remote (CodeGrant c) = TokenFail msg
                    /\ error = HttpError msg None) ->
  exists w',
    callback v id now remote code w = (Normal tt, w')
    /\ promises w' = settle_at id (Rejected error) (promises w)
    /\ tokens w' = tokens w /\ disk w' = disk w
    /\ same_count is_api_call w w'.
Proof.
  intros [[Hc ->] | (c & msg & -> & Hc & Hf & ->)].
  - rewrite (CallbackFacts.callback_without_code v id now remote code w Hc).
    eexists. split; [reflexivity|]. repeat split.
    unfold same_count, count. simpl.
    rewrite !List.filter_app, !List.length_app. simpl. lia.
  - rewrite (CallbackFacts.callback_exchange_fails v id now remote c msg w Hc Hf).
    eexists. split; [reflexivity|]. repeat split.
    unfold same_count, count. simpl.
    rewrite !List.filter_app, !List.length_app. simpl. lia.
Qed.

Lemma X11_witness :
  exists w',
    callback BuildJs 0 now0 rejecting (Some "code")
      (run BuildJs (Authenticate port_free) (fresh_process (disk_holding None)))
    = (Normal tt, w')
    /\ promises w'
       = settle_at 0 (Rejected (HttpError "Request failed with status code 400" None))
           (promises (run BuildJs (Authenticate port_free)
                        (fresh_process (disk_holding None))))
    /\ tokens w'
       = tokens (run BuildJs (Authenticate port_free)
                   (fresh_process (disk_holding None)))
    /\ disk w'
       = disk (run BuildJs (Authenticate port_free)
                 (fresh_process (disk_holding None)))
    /\ same_count is_api_call
         (run BuildJs (Authenticate port_free) (fresh_process (disk_holding None))) w'.
Proof.
  apply (X11_failed_callback_keeps_the_tokens BuildJs 0 now0 rejecting (Some "code")
           (HttpError "Request failed with status code 400" None)
           (run BuildJs (Authenticate port_free) (fresh_process (disk_holding None)))).
  right. exists "code", "Request failed with status code 400".
  repeat split. discriminate.
Defined.

(** X12. A hit of the callback route whose code the token endpoint accepts:
    the granted record is in memory and the promise of the operation is
    fulfilled, whatever the verification call of the build variant returns.
    When the disk can be written, the build variant makes the directory if
    needed and writes the record as [JSON.stringify] prints it, without
    refreshToken member when the answer has no refresh token; otherwise it
    leaves the disk. index.ts leaves the disk. *)
Theorem X12_accepted_callback_stores_the_grant
    (v : variant) (id : nat) (now : Z) (remote : Remote) (c : string)
    (resp : token_response) (w : World) :
  c <> "" -> token_endpoint remote (CodeGrant c) = TokenOk resp ->
  exists w',
    callback v id now remote (Some c) w = (Normal tt, w')
    /\ tokens w' = granted now resp
    /\ promises w' = settle_at id Fulfilled (promises w)
    /\ disk w' =
       match v with
       | BuildJs =>
           if can_write (disk w) then
             {| dir_exists := true;
                file := Some (JS.JSON_stringify (written now resp));
                can_write := true; can_read := can_read (disk w) |}
           else disk w
       | IndexTs => disk w
       end.
Proof.
  intros Hc Hok. destruct v; simpl.
  - destruct (CallbackFacts.build_callback_accepts id now remote c resp w Hc Hok)
      as (w' & Hcb & Ht & Hp & _ & Hd).
    exists w'. repeat split; assumption.
  - rewrite (CallbackFacts.src_callback_accepts id now remote c resp w Hc Hok).
    eexists. repeat split.
Qed.

Lemma X12_witness :
  (exists w',
     callback BuildJs 0 now0 granting (Some "code")
       (run BuildJs (Authenticate port_free) (fresh_process (disk_holding None)))
     = (Normal tt, w')
     /\ tokens w' = (Some "B", Some "S", now0 + 3600 * 1000)
     /\ promises w' = [Fulfilled]
     /\ disk w' = disk_holding (saved (Some "B") (Some "S") (now0 + 3600 * 1000)))
  /\
  (exists w',
     callback BuildJs 0 now0 renewing (Some "code")
       (run BuildJs (Authenticate port_free) (fresh_process (disk_holding None)))
     = (Normal tt, w')
     /\ tokens w' = (Some "B", None, now0 + 3600 * 1000)
     /\ promises w' = [Fulfilled]
     /\ disk w' =
        disk_holding
          (Some (JS.JSON_stringify
                   (tokenData_without_refreshToken (Some "B") (now0 + 3600 * 1000))))).
Proof.
  split.
  - apply (X12_accepted_callback_stores_the_grant BuildJs 0 now0 granting "code"
             {| access_token := "B"; expires_in := 3600; refresh_token := Some "S" |}
             (run BuildJs (Authenticate port_free) (fresh_process (disk_holding None)))).
    + discriminate.
    + reflexivity.
  - apply (X12_accepted_callback_stores_the_grant BuildJs 0 now0 renewing "code"
             {| access_token := "B"; expires_in := 3600; refresh_token := None |}
             (run BuildJs (Authenticate port_free) (fresh_process (disk_holding None)))).
    + discriminate.
    + reflexivity.
Defined.

(** X13. A login of the build variant is there for the next process: after
    the callback route stored a grant with both tokens on a disk that can be
    written and read, [loadTokens] in a fresh process on that disk puts the
    granted record in memory. *)
Theorem X13_login_survives_a_restart
    (id : nat) (now : Z) (remote : Remote) (c r : string)
    (resp : token_response) (w : World) :
  c <> "" -> token_endpoint remote (CodeGrant c) = TokenOk resp ->
  access_token resp <> "" -> refresh_token resp = Some r -> r <> "" ->
  can_write (disk w) = true -> can_read (disk w) = true ->
  exists w2,
    Build.loadTokens
      (fresh_process (disk (snd (Build.callback id now remote (Some c) w))))
    = (Normal (JS.valid_time (now + expires_in resp * 1000)), w2)
    /\ tokens w2 = granted now resp.
Proof. apply CallbackFacts.callback_record_loads. Qed.

Lemma X13_witness :
  exists w2,
    Build.loadTokens
      (fresh_process
         (disk (snd (Build.callback 0 now0 granting (Some "code")
                       (fresh_process (disk_holding None))))))
    = (Normal true, w2)
    /\ tokens w2 = (Some "B", Some "S", now0 + 3600 * 1000).
Proof.
  apply (X13_login_survives_a_restart 0 now0 granting "code" "S"
           {| access_token := "B"; expires_in := 3600; refresh_token := Some "S" |}
           (fresh_process (disk_holding None))).
  - discriminate.
  - reflexivity.
  - discriminate.
  - reflexivity.
  - discriminate.
  - reflexivity.
  - reflexivity.
Defined.

(** ** The coordinator over the life of the process *)

(** X15. A login from start to end, in both variants: on a free port the
    request to authenticate binds the listener and waits on a new promise;
    the hit of the callback route with a code that the token endpoint
    accepts fulfils that promise; from then on [ensureToken] returns the
    granted access token without any request, as long as it is more than a
    minute from its expiry. *)
Theorem X15_login_then_token
    (v : variant) (env : Env) (now now' : Z) (remote remote' : Remote) (c : string)
    (resp : token_response) (w : World) :
  authServer w = None -> port_in_use env = false -> listen_result env = Listening ->
  c <> "" -> token_endpoint remote (CodeGrant c) = TokenOk resp ->
  access_token resp <> "" -> now' + 60000 < now + expires_in resp * 1000 ->
  let id := List.length (promises w) in
  let w1 := snd (startAuthServer v env w) in
  let w2 := snd (callback v id now remote (Some c) w1) in
  fst (startAuthServer v env w) = Normal (Awaiting id)
  /\ List.nth_error (promises w1) id = Some Unsettled
  /\ listeners w1 = S (listeners w)
  /\ List.nth_error (promises w2) id = Some Fulfilled
  /\ ensureToken v now' remote' w2 = (Normal (Some (access_token resp)), w2).
Proof.
  intros Hs Hp Hl Hc Hok Ha Hfresh id w1 w2.
  pose proof (CallbackFacts.startAuthServer_listens v env w Hs Hp Hl) as Hrun.
  assert (Hw1 : promises w1 = (promises w ++ [Unsettled])%list)
    by (unfold w1; rewrite Hrun; reflexivity).
  assert (Hcb : tokens w2 = granted now resp
                /\ promises w2 = settle_at id Fulfilled (promises w1)).
  { unfold w2. destruct v; simpl.
    - destruct (CallbackFacts.build_callback_accepts id now remote c resp w1 Hc Hok)
        as (w' & Heq & Ht & Hps & _).
      rewrite Heq. split; assumption.
    - rewrite (CallbackFacts.src_callback_accepts id now remote c resp w1 Hc Hok).
      split; reflexivity. }
  destruct Hcb as [Ht Hps]. unfold tokens, granted in Ht. injection Ht as Ha2 _ Ht2.
  split; [rewrite Hrun; reflexivity|]. split.
  { rewrite Hw1. unfold id.
    rewrite List.nth_error_app2, Nat.sub_diag; [reflexivity | lia]. }
  split.
  { unfold w1. rewrite Hrun. simpl.
    rewrite AuthFacts.listeners_log. simpl.
    change (listeners (set_promises ?ps ?x)) with (listeners x).
    change (listeners (set_authServer ?h ?x)) with (listeners x).
    rewrite !AuthFacts.listeners_log. simpl. lia. }
  split.
  { rewrite Hps, Hw1. apply ToolFacts.fulfilled_at_end. }
  apply TokenFacts.ensureToken_fresh; [exact Ha2 | exact Ha | rewrite Ht2; exact Hfresh].
Qed.

Lemma X15_witness :
  let w1 := snd (startAuthServer BuildJs port_free (fresh_process (disk_holding None))) in
  let w2 := snd (callback BuildJs 0 now0 granting (Some "code") w1) in
  fst (startAuthServer BuildJs port_free (fresh_process (disk_holding None)))
  = Normal (Awaiting 0)
  /\ List.nth_error (promises w1) 0 = Some Unsettled
  /\ listeners w1 = 1%nat
  /\ List.nth_error (promises w2) 0 = Some Fulfilled
  /\ ensureToken BuildJs (now0 + 1000) rejecting w2 = (Normal (Some "B"), w2).
Proof.
  apply (X15_login_then_token BuildJs port_free now0 (now0 + 1000) granting rejecting
           "code"
           {| access_token := "B"; expires_in := 3600; refresh_token := Some "S" |}
           (fresh_process (disk_holding None))).
  - reflexivity.
  - reflexivity.
  - reflexivity.
  - discriminate.
  - reflexivity.
  - discriminate.
  - vm_compute. reflexivity.
Defined.

(** X16. No request to authenticate and no hit of the callback route clears
    the server object or listens a second time (only the exit handlers
    close the server): once [authServer] is set, they leave the server
    object, the calls of [app.listen] and the bound listeners as they are,
    and start no new pending operation. Both variants. *)
Theorem X16_server_object_stays
    (v : variant) (actions : list action) (w : World) :
  authServer w <> None -> settles_only w (run_all v actions w).
Proof. apply CallbackFacts.run_all_with_server. Qed.

Lemma X16_witness :
  settles_only
    (run BuildJs (Authenticate port_free) (fresh_process (disk_holding None)))
    (run_all BuildJs
       [Authenticate port_free; CallbackHit 0 now0 granting (Some "code");
        Authenticate port_taken]
       (run BuildJs (Authenticate port_free) (fresh_process (disk_holding None)))).
Proof.
  apply (X16_server_object_stays BuildJs
           [Authenticate port_free; CallbackHit 0 now0 granting (Some "code");
            Authenticate port_taken]
           (run BuildJs (Authenticate port_free) (fresh_process (disk_holding None)))).
  vm_compute. discriminate.
Defined.

(** X17. A listen that fails after the probe found the port free (the
    server emits EADDRINUSE or another error): the request is rejected with
    that error, but the server object stays in [authServer] although no
    listener is bound. Every later request to authenticate then only opens
    the browser and is answered at once, and no listener is ever bound in
    this process. Both variants. *)
Theorem X17_failed_listen_blocks_later_logins
    (v : variant) (env : Env) (error : exn) (w : World) :
  authServer w = None -> port_in_use env = false ->
  (listen_result env = AddrInUse /\ error = ServerAlreadyRunningError PORT)
  \/ (exists m, listen_result env = ListenError m /\ error = SystemError m) ->
  let w1 := snd (startAuthServer v env w) in
  fst (startAuthServer v env w) = Throw error
  /\ authServer w1 = Some (HttpServer PORT)
  /\ listeners w1 = listeners w
  /\ (forall env',
        startAuthServer v env' w1
        = ((if open_succeeds env' then Normal Resolved
            else Throw (SystemError "spawn ENOENT")),
           log (OpenBrowser login_url) w1))
  /\ (forall actions,
        listeners (run_all v actions w1) = listeners w
        /\ (pending (run_all v actions w1) <= pending w)%nat).
Proof.
  intros Hs Hp Hl w1.
  pose proof (CallbackFacts.startAuthServer_listen_fails v env w error Hs Hp Hl) as Hrun.
  assert (Hsrv : authServer w1 = Some (HttpServer PORT))
    by (unfold w1; rewrite Hrun; reflexivity).
  assert (Hbound : is_bound (Listen (listen_result env)) = false)
    by (destruct Hl as [[-> _] | (m & -> & _)]; reflexivity).
  assert (Hlis : listeners w1 = listeners w).
  { unfold w1. rewrite Hrun. simpl.
    change (listeners (set_promises ?ps ?x)) with (listeners x).
    change (listeners (set_authServer ?h ?x)) with (listeners x).
    rewrite !AuthFacts.listeners_log, Hbound. simpl. lia. }
  assert (Hpen : pending w1 = pending w).
  { unfold w1. rewrite Hrun. simpl. unfold pending. simpl.
    rewrite List.filter_app, List.length_app.
    destruct Hl as [[_ ->] | (m & _ & ->)]; simpl; lia. }
  split; [rewrite Hrun; reflexivity|]. split; [exact Hsrv|]. split; [exact Hlis|].
  split.
  - intros env'. apply (AuthFacts.startAuthServer_reentrant v env' w1 _ Hsrv).
  - intros actions.
    destruct (CallbackFacts.run_all_with_server v actions w1) as (_ & _ & Hl' & Hp').
    { rewrite Hsrv. discriminate. }
    split; [congruence | lia].
Qed.

Lemma X17_witness :
  let w1 := snd (startAuthServer IndexTs port_lost (fresh_process (disk_holding None))) in
  fst (startAuthServer IndexTs port_lost (fresh_process (disk_holding None)))
  = Throw (ServerAlreadyRunningError 8888)
  /\ authServer w1 = Some (HttpServer 8888)
  /\ listeners w1 = 0%nat
  /\ (forall env',
        startAuthServer IndexTs env' w1
        = ((if open_succeeds env' then Normal Resolved
            else Throw (SystemError "spawn ENOENT")),
           log (OpenBrowser login_url) w1))
  /\ (forall actions,
        listeners (run_all IndexTs actions w1) = 0%nat
        /\ (pending (run_all IndexTs actions w1) <= 0)%nat).
Proof.
  apply (X17_failed_listen_blocks_later_logins IndexTs port_lost
           (ServerAlreadyRunningError 8888) (fresh_process (disk_holding None))).
  - reflexivity.
  - reflexivity.
  - left. split; reflexivity.
Defined.

(** X18. [startAuthServer] is about the server only: in both variants it
    never changes the tokens in memory, never touches the disk and never
    sends a request to the token endpoint or to the resource API. *)
Theorem X18_startAuthServer_leaves_tokens_alone (v : variant) (env : Env) :
  preserves same_tokens (startAuthServer v env)
  /\ preserves off_disk (startAuthServer v env)
  /\ preserves (same_count is_network) (startAuthServer v env).
Proof.
  split; [apply CountFacts.startAuthServer_same_tokens|].
  split; [apply CountFacts.startAuthServer_off_disk|].
  apply CountFacts.startAuthServer_no_network.
Qed.

(** X19. The token store, the token manager and the request executor leave
    the coordinator alone: they never probe the port, kill a process, open
    the browser or listen, and the server object and the promises are as
    they were. Both variants. *)
Theorem X19_token_code_leaves_coordinator_alone
    (v : variant) (now : Z) (remote : Remote) (endpoint method : string)
    (data : JS.jsval) :
  (preserves (same_count is_coordinator) Build.loadTokens
   /\ preserves (same_count is_coordinator) Build.saveTokens
   /\ preserves (same_count is_coordinator) (ensureToken v now remote)
   /\ preserves (same_count is_coordinator)
        (spotifyApiRequest v now remote endpoint method data))
  /\ (preserves same_server Build.loadTokens
      /\ preserves same_server Build.saveTokens
      /\ preserves same_server (ensureToken v now remote)
      /\ preserves same_server (spotifyApiRequest v now remote endpoint method data)).
Proof.
  split.
  - apply CountFacts.token_code_no_coordinator.
  - apply AuthFacts.token_code_same_server.
Qed.

(** ** The token store *)

(** X20. [loadTokens] never throws, writes nothing (no file, no directory)
    and sends nothing, whatever the disk holds. *)
Theorem X20_loadTokens_only_reads (w : World) :
  exists b w',
    Build.loadTokens w = (Normal b, w')
    /\ read_only_run w w' /\ same_count is_network w w'.
Proof.
  destruct (TokenFacts.loadTokens_total w) as (b & w' & Hl).
  exists b, w'. split; [exact Hl|].
  pose proof (CountFacts.loadTokens_read_only w) as Hro.
  pose proof (proj1 (CountFacts.token_store_no_network BuildJs) w) as Hn.
  rewrite Hl in Hro, Hn. split; assumption.
Qed.

(** X21. [saveTokens] never throws and never changes the tokens in memory.
    When the disk can be written it makes the directory if it is missing
    and the file holds the record of the memory, printed as JSON; when it
    cannot, the disk is as it was and the failure is swallowed. *)
Theorem X21_saveTokens_writes_or_gives_up (w : World) :
  exists w',
    Build.saveTokens w = (Normal tt, w')
    /\ tokens w' = tokens w
    /\ disk w' =
       (if can_write (disk w) then
          {| dir_exists := true;
             file := Some (JS.JSON_stringify
                             (tokenData (accessToken w) (refreshToken w)
                                (tokenExpirationTime w)));
             can_write := true; can_read := can_read (disk w) |}
        else disk w).
Proof. apply PathFacts.saveTokens_spec. Qed.

(** ** The auth-spotify tool *)

(** X22. The tool never fails the tool call: in both variants every error
    of the login is caught and turned into a text, so the handler always
    returns (or is still waiting for the callback, which is [None]). *)
Theorem X22_auth_tool_never_throws
    (v : variant) (remote : Remote) (env : Env) (between : World -> World)
    (w : World) :
  exists r w', Tools.auth_spotify v remote env between w = (Normal r, w').
Proof.
  destruct v; simpl.
  - apply ToolFacts.build_auth_spotify_returns.
  - apply ToolFacts.src_auth_spotify_returns.
Qed.

(** X23. The tool of index.ts reports success without a login: when a
    server object is already stored, or the port is held by another
    process, and the browser can be launched, the answer is "Successfully
    authenticated with Spotify!" although no token was received, no
    operation was started and nothing was sent. *)
Theorem X23_index_ts_reports_success_without_login
    (env : Env) (between : World -> World) (w : World) :
  authServer w <> None \/ port_in_use env = true -> open_succeeds env = true ->
  exists w',
    Tools.src_auth_spotify env between w
    = (Normal (Some "Successfully authenticated with Spotify!"), w')
    /\ tokens w' = tokens w /\ listen_calls w' = listen_calls w
    /\ promises w' = promises w /\ same_count is_network w w'.
Proof. apply ToolFacts.src_auth_without_server. Qed.

Lemma X23_witness :
  exists w',
    Tools.src_auth_spotify port_taken (fun w1 => w1) (fresh_process (disk_holding None))
    = (Normal (Some "Successfully authenticated with Spotify!"), w')
    /\ tokens w' = (None, None, 0)
    /\ listen_calls w' = 0%nat
    /\ promises w' = []
    /\ same_count is_network (fresh_process (disk_holding None)) w'.
Proof.
  apply (X23_index_ts_reports_success_without_login port_taken (fun w1 => w1)
           (fresh_process (disk_holding None))).
  - right. reflexivity.
  - reflexivity.
Defined.

(** X24. The tool of the build variant in the same situation, with no
    access token in memory and no usable file: the request to authenticate
    is answered at once, the handler finds no tokens and reports
    "Authentication failed: Authentication failed: No tokens received",
    the prefix twice, because its own error goes through its own catch. *)
Theorem X24_build_reports_missing_tokens
    (remote : Remote) (env : Env) (between : World -> World) (w : World) :
  present (accessToken w) = false -> unusable (disk w) ->
  authServer w <> None
  \/ (port_in_use env = true
      /\ (kill_succeeds env = false \/ still_in_use env = true)) ->
  open_succeeds env = true ->
  exists w',
    Tools.build_auth_spotify remote env between w
    = (Normal (Some "Authentication failed: Authentication failed: No tokens received"),
       w')
    /\ tokens w' = tokens w /\ listen_calls w' = listen_calls w
    /\ promises w' = promises w /\ same_count is_network w w'.
Proof. apply ToolFacts.build_auth_without_tokens. Qed.

Lemma X24_witness :
  exists w',
    Tools.build_auth_spotify granting port_shared (fun w1 => w1)
      (fresh_process (disk_holding None))
    = (Normal (Some "Authentication failed: Authentication failed: No tokens received"),
       w')
    /\ tokens w' = (None, None, 0)
    /\ listen_calls w' = 0%nat
    /\ promises w' = []
    /\ same_count is_network (fresh_process (disk_holding None)) w'.
Proof.
  apply (X24_build_reports_missing_tokens granting port_shared (fun w1 => w1)
           (fresh_process (disk_holding None))).
  - reflexivity.
  - apply file_missing. reflexivity.
  - right. split; [reflexivity | left; reflexivity].
  - reflexivity.
Defined.

(** X25. The tool of the build variant first tests the access token in
    memory, whatever its expiry: when the API answers the test call, the
    tool reports "Already authenticated with Spotify as" and the display
    name of the answer, and the coordinator is not asked at all. *)
Theorem X25_build_already_authenticated
    (remote : Remote) (env : Env) (between : World -> World) (w : World)
    (tok : string) (d : JS.json) :
  accessToken w = Some tok -> tok <> "" ->
  api remote {| req_method := "GET"; req_endpoint := "/me";
                req_bearer := tok; req_data := None |} = ApiOk d ->
  d <> JS.JNull ->
  Tools.build_auth_spotify remote env between w
  = (Normal (Some (Tools.already_text (Tools.template (member d "display_name")))),
     log (ApiCall {| req_method := "GET"; req_endpoint := "/me";
                     req_bearer := tok; req_data := None |}) w).
Proof. apply ToolFacts.build_auth_already. Qed.

Lemma X25_witness :
  Tools.build_auth_spotify granting port_free (fun w1 => w1)
    (process_with (Some "A") None 0 (disk_holding None))
  = (Normal (Some "Already authenticated with Spotify as Ada!"),
     log (ApiCall {| req_method := "GET"; req_endpoint := "/me";
                     req_bearer := "A"; req_data := None |})
       (process_with (Some "A") None 0 (disk_holding None))).
Proof.
  apply (X25_build_already_authenticated granting port_free (fun w1 => w1)
           (process_with (Some "A") None 0 (disk_holding None)) "A"
           (JS.JObj [("display_name", JS.JStr "Ada")])).
  - reflexivity.
  - discriminate.
  - reflexivity.
  - discriminate.
Defined.

(** X26. The port is held by another process and the browser cannot be
    launched (in the build variant: the kill failed or left the port bound,
    and there is no access token in memory and no usable file): the tool
    answers with the text of its variant that names port 8888, and tokens
    and listeners are as they were. *)
Theorem X26_busy_port_is_reported_as_text
    (v : variant) (remote : Remote) (env : Env) (between : World -> World)
    (w : World) :
  authServer w = None -> port_in_use env = true -> open_succeeds env = false ->
  v = IndexTs
  \/ (present (accessToken w) = false /\ unusable (disk w)
      /\ (kill_succeeds env = false \/ still_in_use env = true)) ->
  exists w',
    Tools.auth_spotify v remote env between w
    = (Normal (Some (Tools.busy_text v 8888)), w')
    /\ tokens w' = tokens w /\ listen_calls w' = listen_calls w.
Proof.
  intros Hs Hp Hopen Hcase. destruct v; simpl.
  - destruct Hcase as [Hv | (Ha & Hu & Hk)]; [discriminate|].
    destruct (ToolFacts.build_auth_busy remote env between w Ha Hu Hs Hp Hk Hopen)
      as (w' & Heq & Ht & Hl & _).
    exists w'. repeat split; assumption.
  - apply ToolFacts.src_auth_busy; assumption.
Qed.

Lemma X26_witness :
  exists w',
    Tools.auth_spotify BuildJs granting port_stuck (fun w1 => w1)
      (fresh_process (disk_holding None))
    = (Normal
         (Some "Another instance is already running on port 8888. If you're having authentication issues, please restart Claude or close any other applications using port 8888."),
       w')
    /\ tokens w' = (None, None, 0) /\ listen_calls w' = 0%nat.
Proof.
  apply (X26_busy_port_is_reported_as_text BuildJs granting port_stuck (fun w1 => w1)
           (fresh_process (disk_holding None))).
  - reflexivity.
  - reflexivity.
  - reflexivity.
  - right. split; [reflexivity|]. split; [apply file_missing; reflexivity|].
    left. reflexivity.
Defined.

(** X27. A login through the tool of index.ts: on a free port the handler
    starts the server and waits; when the callback route is hit with a code
    while it waits, it answers "Successfully authenticated with Spotify!"
    with the granted record in memory if the token endpoint accepts the
    code, and "Authentication failed: " followed by the message of the
    failure, with the tokens as they were, if it refuses. *)
Theorem X27_index_ts_login_through_the_tool
    (env : Env) (now : Z) (remote : Remote) (c : string) (w : World) :
  authServer w = None -> port_in_use env = false -> listen_result env = Listening ->
  c <> "" ->
  exists w',
    Tools.src_auth_spotify env
      (fun w1 => snd (Src.callback (List.length (promises w)) now remote (Some c) w1)) w
    = (Normal
         (Some match token_endpoint remote (CodeGrant c) with
               | TokenOk _ => "Successfully authenticated with Spotify!"
               | TokenFail msg => "Authentication failed: " ++ msg
               end), w')
    /\ tokens w' = match token_endpoint remote (CodeGrant c) with
                   | TokenOk resp => granted now resp
                   | TokenFail _ => tokens w
                   end.
Proof.
  intros Hs Hp Hl Hc.
  destruct (token_endpoint remote (CodeGrant c)) as [resp | msg] eqn:Hreply.
  - destruct (ToolFacts.src_auth_login env now remote c resp w Hs Hp Hl Hc Hreply)
      as (w' & Heq & Ht & _).
    exists w'. split; assumption.
  - destruct (ToolFacts.src_auth_login_refused env now remote c msg w Hs Hp Hl Hc Hreply)
      as (w' & Heq & Ht & _).
    exists w'. split; assumption.
Qed.

Lemma X27_witness :
  exists w',
    Tools.src_auth_spotify port_free
      (fun w1 => snd (Src.callback 0 now0 rejecting (Some "code") w1))
      (fresh_process (disk_holding None))
    = (Normal (Some "Authentication failed: Request failed with status code 400"), w')
    /\ tokens w' = (None, None, 0).
Proof.
  apply (X27_index_ts_login_through_the_tool port_free now0 rejecting "code"
           (fresh_process (disk_holding None))).
  - reflexivity.
  - reflexivity.
  - reflexivity.
  - discriminate.
Defined.

(** X28. A login through the tool of the build variant, started with no
    access token in memory and no usable file, when the token endpoint
    accepts the code. The granted record is in memory in every case, but
    the answer depends on more: without a refresh token in the grant the
    tool reports that no tokens were received; with one, it reports success
    with the display name when the test call is answered with a profile,
    and "tokens are invalid" when the test call fails. *)
Theorem X28_build_login_through_the_tool
    (env : Env) (now : Z) (remote : Remote) (c : string) (resp : token_response)
    (w : World) :
  present (accessToken w) = false -> unusable (disk w) ->
  authServer w = None -> port_in_use env = false -> listen_result env = Listening ->
  c <> "" -> token_endpoint remote (CodeGrant c) = TokenOk resp ->
  access_token resp <> "" ->
  exists w',
    Tools.build_auth_spotify remote env
      (fun w1 => snd (Build.callback (List.length (promises w)) now remote (Some c) w1)) w
    = (Normal
         (Some
            (if present (refresh_token resp) then
               match api remote {| req_method := "GET"; req_endpoint := "/me";
                                   req_bearer := access_token resp;
                                   req_data := None |} with
               | ApiOk (JS.JNull) | ApiFail _ _ =>
                   "Authentication failed: Authentication succeeded but tokens are invalid"
               | ApiOk d =>
                   Tools.success_text (Tools.template (member d "display_name"))
               end
             else "Authentication failed: Authentication failed: No tokens received")),
       w')
    /\ tokens w' = granted now resp.
Proof. apply ToolFacts.build_auth_login. Qed.

Lemma X28_witness :
  exists w',
    Tools.build_auth_spotify granting port_free
      (fun w1 => snd (Build.callback 0 now0 granting (Some "code") w1))
      (fresh_process (disk_holding None))
    = (Normal (Some "Successfully authenticated with Spotify as Ada!"), w')
    /\ tokens w' = (Some "B", Some "S", now0 + 3600 * 1000).
Proof.
  apply (X28_build_login_through_the_tool port_free now0 granting "code"
           {| access_token := "B"; expires_in := 3600; refresh_token := Some "S" |}
           (fresh_process (disk_holding None))).
  - reflexivity.
  - apply file_missing. reflexivity.
  - reflexivity.
  - reflexivity.
  - reflexivity.
  - discriminate.
  - reflexivity.
  - discriminate.
Defined.

(** ** Error texts *)

(** X29. [formatError] of src/errors.ts never gives an empty text, and the
    text always contains the message of the error: after "API Error
    (status): " for an API error with a status, before the list of issues
    for a validation error, and alone or after the name of the class
    otherwise. *)
Theorem X29_formatError_keeps_the_message (e : Errors.app_error) :
  Errors.formatError e <> ""
  /\ exists pre post,
       Errors.formatError e = (pre ++ Errors.message e ++ post)%string.
Proof.
  split; [apply ErrorFacts.formatError_nonempty | apply ErrorFacts.formatError_has_message].
Qed.
